(** * The scene compositor of libobs (obs-scene.c): a shallow embedding

    The scene is an intrusive doubly-linked list of reference-counted items
    that lives in the C heap.  The embedding keeps that shape: items and
    scenes are records stored in finite maps from addresses, pointers are
    [option ptr] (with [None] for NULL), every C function is a program in a
    state-and-fault monad over the store, and every call into the rest of
    libobs (sources, signals, logging, graphics) is recorded in a trace.

    The programs are run by one thread: the mutex of a scene is modelled by
    its depth of acquisition, and no other thread changes the store between
    two statements.  A call into the rest of libobs does not call back into
    the scene. *)

From stdpp Require Import gmap strings list fin_maps.
From Stdlib Require Import ZArith Lia.

Open Scope Z_scope.

(** ** Scalars *)

(** C [float] and [double].  The code only moves floats around, negates them,
    converts degrees with the [RAD] macro of graphics/math-defs.h (a header
    that is not among the sources, so the macro is a parameter) and widens a
    float to a double and back when a rotation goes through the settings
    object, so the model is an interface with exactly these operations.
    [d2f_f2d] is the IEEE fact that widening a binary32 to binary64 and
    rounding back is the identity. *)
Class FloatModel := {
  float : Type;
  double : Type;
  f_zero : float;
  f_one : float;
  f_neg : float → float;
  RAD : float → float;
  f2d : float → double;
  d2f : double → float;
  d2f_f2d : ∀ f : float, d2f (f2d f) = f
}.

(** The counter of an item is a [long] changed by [os_atomic_inc_long] and
    [os_atomic_dec_long]: 64 bits on an LP64 target, two's complement. *)
Definition LONG_BITS : Z := 64.
Definition LONG_MAX : Z := 2 ^ (LONG_BITS - 1) - 1.
Definition LONG_MIN : Z := - 2 ^ (LONG_BITS - 1).
Definition wrap_long (z : Z) : Z :=
  (z - LONG_MIN) mod 2 ^ LONG_BITS + LONG_MIN.

(** Addresses of heap objects; a C pointer is an [option ptr]. *)
Definition ptr := positive.

Inductive order_movement :=
  | ORDER_MOVE_UP
  | ORDER_MOVE_DOWN
  | ORDER_MOVE_TOP
  | ORDER_MOVE_BOTTOM.

Inductive log_level := LOG_ERROR | LOG_WARNING.

Inductive fault :=
  | NullDeref        (* a NULL pointer was dereferenced *)
  | Dangling         (* a freed or never allocated object was accessed *)
  | AssertFailed     (* assert(...) did not hold *)
  | OutOfFuel.       (* a loop ran longer than the heap has objects *)

Section Scene.
Context {FM : FloatModel}.

Record vec2 := Vec2 { x : float; y : float }.

(** [struct obs_scene_item].  Its declaration is in obs-scene.h; the fields
    here are the ones obs-scene.c reads and writes, a pointer field being
    [None] when it is NULL. *)
Record obs_scene_item := SceneItem {
  ref : Z;
  removed : bool;
  parent : option ptr;
  source : option ptr;
  origin : vec2;
  pos : vec2;
  scale : vec2;
  rot : float;
  visible : bool;
  prev : option ptr;
  next : option ptr
}.

(** [struct obs_scene].  The recursive mutex is its depth of acquisition. *)
Record obs_scene := Scene {
  scene_source : option ptr;
  mutex : nat;
  first_item : option ptr
}.

Definition set_ref v it := SceneItem v (removed it) (parent it) (source it)
  (origin it) (pos it) (scale it) (rot it) (visible it) (prev it) (next it).
Definition set_removed v it := SceneItem (ref it) v (parent it) (source it)
  (origin it) (pos it) (scale it) (rot it) (visible it) (prev it) (next it).
Definition set_parent v it := SceneItem (ref it) (removed it) v (source it)
  (origin it) (pos it) (scale it) (rot it) (visible it) (prev it) (next it).
Definition set_source v it := SceneItem (ref it) (removed it) (parent it) v
  (origin it) (pos it) (scale it) (rot it) (visible it) (prev it) (next it).
Definition set_origin v it := SceneItem (ref it) (removed it) (parent it)
  (source it) v (pos it) (scale it) (rot it) (visible it) (prev it) (next it).
Definition set_pos v it := SceneItem (ref it) (removed it) (parent it)
  (source it) (origin it) v (scale it) (rot it) (visible it) (prev it) (next it).
Definition set_scale v it := SceneItem (ref it) (removed it) (parent it)
  (source it) (origin it) (pos it) v (rot it) (visible it) (prev it) (next it).
Definition set_rot v it := SceneItem (ref it) (removed it) (parent it)
  (source it) (origin it) (pos it) (scale it) v (visible it) (prev it) (next it).
Definition set_visible v it := SceneItem (ref it) (removed it) (parent it)
  (source it) (origin it) (pos it) (scale it) (rot it) v (prev it) (next it).
Definition set_prev v it := SceneItem (ref it) (removed it) (parent it)
  (source it) (origin it) (pos it) (scale it) (rot it) (visible it) v (next it).
Definition set_next v it := SceneItem (ref it) (removed it) (parent it)
  (source it) (origin it) (pos it) (scale it) (rot it) (visible it) (prev it) v.

Definition set_mutex v sc := Scene (scene_source sc) v (first_item sc).
Definition set_first_item v sc := Scene (scene_source sc) (mutex sc) v.

(** Modelled from the spec: the structured record store ([obs_data_t] and
    its accessors, whose code is not among the sources).  The spec gives its
    interface, "get/set string, boolean, double, 2-vector, and
    ordered-array-of-record values", and the persisted record, [{ name:
    string, visible: bool, rot: float64, origin, pos, scale }].  A record is
    what [scene_save_item] stores under these six keys, and a getter returns
    what the setter stored. *)
Record item_data := ItemData {
  d_name : string;
  d_visible : bool;
  d_rot : double;
  d_origin : vec2;
  d_pos : vec2;
  d_scale : vec2
}.

(** ** Calls that leave obs-scene.c

    Each constructor is one call of a function defined elsewhere in libobs,
    with its arguments: logging, the signal of a scene's source, the
    reference count and the children of a source, drawing a source, the
    matrix stack, and [bfree] of an item. *)
Inductive event :=
  | blog (level : log_level) (msg : string)
  | signal_handler_signal (handler_of : ptr) (signal : string)
      (scene : option ptr) (item : option ptr)
  | obs_source_addref (s : option ptr)
  | obs_source_release (s : option ptr)
  | obs_source_add_child (par child : option ptr)
  | obs_source_remove_child (par child : option ptr)
  | obs_source_video_render (s : option ptr)
  | gs_matrix_push
  | gs_matrix_pop
  | gs_matrix_translate3f (a b c : float)
  | gs_matrix_scale3f (a b c : float)
  | gs_matrix_rotaa4f (a b c angle : float)
  | bfree (p : ptr).

(** Modelled from the spec: the source runtime, as far as the scene asks it
    questions (its code is not among the sources): "query is this source
    still valid/removed", "resolve a source instance by that identifier" and
    "read a stable human-readable identifier".  The answers are parameters
    of the programs. *)
Record environment := Env {
  obs_source_removed : option ptr → bool;
  obs_get_source_by_name : string → option ptr;
  obs_source_getname : option ptr → string
}.

(** ** The store and the monad *)

Record world := World {
  items : gmap ptr obs_scene_item;
  scenes : gmap ptr obs_scene;
  trace : list event
}.

Definition set_items h w := World h (scenes w) (trace w).
Definition set_scenes s w := World (items w) s (trace w).
Definition set_trace t w := World (items w) (scenes w) t.

Inductive result (A : Type) :=
  | Ok (a : A) (w : world)
  | Crash (f : fault).
Global Arguments Ok {A} a w.
Global Arguments Crash {A} f.

Definition M (A : Type) : Type := world → result A.

Global Instance M_ret : MRet M := λ A a w, Ok a w.
Global Instance M_bind : MBind M := λ A B f m w,
  match m w with
  | Ok a w' => f a w'
  | Crash e => Crash e
  end.

Definition crash {A} (e : fault) : M A := λ _, Crash e.

(** [p->f] *)
Definition rd {A} (f : obs_scene_item → A) (p : ptr) : M A := λ w,
  match items w !! p with
  | Some it => Ok (f it) w
  | None => Crash Dangling
  end.

(** [p->f = v], as the setter [upd] *)
Definition wr (upd : obs_scene_item → obs_scene_item) (p : ptr) : M unit := λ w,
  match items w !! p with
  | Some _ => Ok tt (set_items (alter upd p (items w)) w)
  | None => Crash Dangling
  end.

Definition rd_scene {A} (f : obs_scene → A) (s : ptr) : M A := λ w,
  match scenes w !! s with
  | Some sc => Ok (f sc) w
  | None => Crash Dangling
  end.

Definition wr_scene (upd : obs_scene → obs_scene) (s : ptr) : M unit := λ w,
  match scenes w !! s with
  | Some _ => Ok tt (set_scenes (alter upd s (scenes w)) w)
  | None => Crash Dangling
  end.

(** The pointer under a [->] must not be NULL. *)
Definition deref {A} (p : option A) : M A :=
  match p with
  | Some a => mret a
  | None => crash NullDeref
  end.

(** [assert(b)].  Where assertions are compiled out, the statement that
    follows the assertion of [attach_sceneitem] dereferences the pointer the
    assertion tests, so the program faults there instead. *)
Definition assert (b : bool) : M unit :=
  if b then mret tt else crash AssertFailed.

Definition call (e : event) : M unit := λ w,
  Ok tt (set_trace (trace w ++ [e]) w).

(** [bzalloc(sizeof(struct obs_scene_item))]: an address that is not in use,
    all fields zero. *)
Definition zero_item : obs_scene_item :=
  SceneItem 0 false None None (Vec2 f_zero f_zero) (Vec2 f_zero f_zero)
    (Vec2 f_zero f_zero) f_zero false None None.

Definition bzalloc : M ptr := λ w,
  let p := fresh (dom (items w)) in
  Ok p (set_items (<[p := zero_item]> (items w)) w).

Definition free_item (p : ptr) : M unit := λ w,
  match items w !! p with
  | Some _ => Ok tt (World (delete p (items w)) (scenes w) (trace w ++ [bfree p]))
  | None => Crash Dangling
  end.

(** Loops follow [next] pointers; on a list without a cycle they end before
    they have seen more nodes than the heap holds. *)
Definition loop_bound : M nat := λ w, Ok (S (size (items w))) w.

Definition pthread_mutex_lock (scene : option ptr) : M unit :=
  s ← deref scene; wr_scene (λ sc, set_mutex (S (mutex sc)) sc) s.

Definition pthread_mutex_unlock (scene : option ptr) : M unit :=
  s ← deref scene; wr_scene (λ sc, set_mutex (Nat.pred (mutex sc)) sc) s.

(** [os_atomic_inc_long] and [os_atomic_dec_long] return the new value. *)
Definition os_atomic_inc_long (p : ptr) : M Z :=
  r ← rd ref p; wr (set_ref (wrap_long (r + 1))) p;; mret (wrap_long (r + 1)).

Definition os_atomic_dec_long (p : ptr) : M Z :=
  r ← rd ref p; wr (set_ref (wrap_long (r - 1))) p;; mret (wrap_long (r - 1)).

(** ** obs-scene.c *)

Context (env : environment).

Definition obs_scene_addref (scene : option ptr) : M unit :=
  match scene with
  | Some s => src ← rd_scene scene_source s; call (obs_source_addref src)
  | None => mret tt
  end.

Definition obs_scene_release (scene : option ptr) : M unit :=
  match scene with
  | Some s => src ← rd_scene scene_source s; call (obs_source_release src)
  | None => mret tt
  end.

Definition obs_scene_getsource (scene : option ptr) : M (option ptr) :=
  match scene with
  | Some s => rd_scene scene_source s
  | None => mret None
  end.

(** [signal_handler_signal(item->parent->source->context.signals, ...)] *)
Definition signal_item_remove (item : ptr) : M unit :=
  par ← rd parent item;
  s ← deref par;
  src ← rd_scene scene_source s;
  h ← deref src;
  call (signal_handler_signal h "item_remove" par (Some item)).

Definition detach_sceneitem (item : ptr) : M unit :=
  p ← rd prev item;
  match p with
  | Some pp => n ← rd next item; wr (set_next n) pp
  | None =>
      par ← rd parent item; s ← deref par;
      n ← rd next item; wr_scene (set_first_item n) s
  end;;
  n ← rd next item;
  match n with
  | Some nn => p ← rd prev item; wr (set_prev p) nn
  | None => mret tt
  end;;
  wr (set_parent None) item.

Definition attach_sceneitem (item : ptr) (prev_ : option ptr) : M unit :=
  wr (set_prev prev_) item;;
  match prev_ with
  | Some pp =>
      n ← rd next pp; wr (set_next n) item;;
      n ← rd next pp;
      match n with
      | Some nn => wr (set_prev (Some item)) nn
      | None => mret tt
      end;;
      wr (set_next (Some item)) pp
  | None =>
      par ← rd parent item;
      assert (bool_decide (par ≠ None));;
      par ← rd parent item; s ← deref par;
      f ← rd_scene first_item s; wr (set_next f) item;;
      par ← rd parent item; s ← deref par;
      wr_scene (set_first_item (Some item)) s
  end.

Definition obs_sceneitem_destroy (item : option ptr) : M unit :=
  match item with
  | Some i =>
      src ← rd source i;
      match src with
      | Some _ => call (obs_source_release src)
      | None => mret tt
      end;;
      free_item i
  | None => mret tt
  end.

Definition obs_sceneitem_addref (item : option ptr) : M unit :=
  match item with
  | Some i => os_atomic_inc_long i;; mret tt
  | None => mret tt
  end.

Definition obs_sceneitem_release (item : option ptr) : M unit :=
  match item with
  | None => mret tt
  | Some i =>
      r ← os_atomic_dec_long i;
      if bool_decide (r = 0) then obs_sceneitem_destroy item else mret tt
  end.

Definition obs_sceneitem_remove (item : option ptr) : M unit :=
  match item with
  | None => mret tt
  | Some i =>
      scene ← rd parent i;
      match scene with
      | Some _ => pthread_mutex_lock scene
      | None => mret tt
      end;;
      rm ← rd removed i;
      if (rm : bool) then
        match scene with
        | Some _ => pthread_mutex_unlock scene
        | None => mret tt
        end
      else
        wr (set_removed true) i;;
        assert (bool_decide (scene ≠ None));;
        s ← deref scene;
        hs ← rd_scene scene_source s;
        assert (bool_decide (hs ≠ None));;
        src ← rd source i;
        call (obs_source_remove_child hs src);;
        signal_item_remove i;;
        detach_sceneitem i;;
        pthread_mutex_unlock scene;;
        obs_sceneitem_release item
  end.

(** The body of the [while (item)] loop of [remove_all_items]. *)
Fixpoint remove_all_loop (fuel : nat) (item : option ptr) : M unit :=
  match item with
  | None => mret tt
  | Some del_item =>
      match fuel with
      | O => crash OutOfFuel
      | S k =>
          nxt ← rd next del_item;
          obs_sceneitem_remove (Some del_item);;
          remove_all_loop k nxt
      end
  end.

Definition remove_all_items (scene : option ptr) : M unit :=
  fuel ← loop_bound;
  pthread_mutex_lock scene;;
  s ← deref scene;
  first ← rd_scene first_item s;
  remove_all_loop fuel first;;
  pthread_mutex_unlock scene.

(** [while (last->next) last = last->next;] *)
Fixpoint walk_to_last (fuel : nat) (last : ptr) : M ptr :=
  match fuel with
  | O => crash OutOfFuel
  | S k =>
      n ← rd next last;
      match n with
      | Some nn => walk_to_last k nn
      | None => mret last
      end
  end.

Definition obs_scene_add (scene source_ : option ptr) : M (option ptr) :=
  match scene with
  | None => mret None
  | Some s =>
      match source_ with
      | None =>
          call (blog LOG_ERROR "Tried to add a NULL source to a scene");;
          mret None
      | Some _ =>
          fuel ← loop_bound;
          item ← bzalloc;
          wr (set_source source_) item;;
          wr (set_visible true) item;;
          wr (set_parent scene) item;;
          wr (set_ref 1) item;;
          wr (set_scale (Vec2 f_one f_one)) item;;
          call (obs_source_addref source_);;
          hs ← rd_scene scene_source s;
          call (obs_source_add_child hs source_);;
          pthread_mutex_lock scene;;
          last ← rd_scene first_item s;
          match last with
          | None => wr_scene (set_first_item (Some item)) s
          | Some l =>
              last ← walk_to_last fuel l;
              wr (set_next (Some item)) last;;
              wr (set_prev (Some last)) item
          end;;
          pthread_mutex_unlock scene;;
          hs ← rd_scene scene_source s;
          h ← deref hs;
          call (signal_handler_signal h "item_add" scene (Some item));;
          mret (Some item)
      end
  end.

(** The [if (movement == ...)] chain of [obs_sceneitem_setorder]. *)
Definition setorder_reattach (fuel : nat) (i : ptr)
    (movement : order_movement) : M unit :=
  match movement with
  | ORDER_MOVE_UP => p ← rd prev i; attach_sceneitem i p
  | ORDER_MOVE_DOWN => n ← rd next i; attach_sceneitem i n
  | ORDER_MOVE_TOP =>
      last ← rd next i;
      last ← match last with
             | None => rd prev i
             | Some l => t ← walk_to_last fuel l; mret (Some t)
             end;
      attach_sceneitem i last
  | ORDER_MOVE_BOTTOM => attach_sceneitem i None
  end.

Definition obs_sceneitem_setorder (item : option ptr)
    (movement : order_movement) : M unit :=
  match item with
  | None => mret tt
  | Some i =>
      fuel ← loop_bound;
      scene ← rd parent i;
      obs_scene_addref scene;;
      pthread_mutex_lock scene;;
      detach_sceneitem i;;
      setorder_reattach fuel i movement;;
      pthread_mutex_unlock scene;;
      obs_scene_release scene
  end.

Definition obs_sceneitem_getscene (item : option ptr) : M (option ptr) :=
  match item with
  | Some i => rd parent i
  | None => mret None
  end.

Definition obs_sceneitem_getsource (item : option ptr) : M (option ptr) :=
  match item with
  | Some i => rd source i
  | None => mret None
  end.

Definition obs_sceneitem_setpos (item : option ptr) (pos_ : vec2) : M unit :=
  match item with
  | Some i => wr (set_pos pos_) i
  | None => mret tt
  end.

Definition obs_sceneitem_setrot (item : option ptr) (rot_ : float) : M unit :=
  match item with
  | Some i => wr (set_rot rot_) i
  | None => mret tt
  end.

Definition obs_sceneitem_setorigin (item : option ptr) (origin_ : vec2) : M unit :=
  match item with
  | Some i => wr (set_origin origin_) i
  | None => mret tt
  end.

Definition obs_sceneitem_setscale (item : option ptr) (scale_ : vec2) : M unit :=
  match item with
  | Some i => wr (set_scale scale_) i
  | None => mret tt
  end.

(** The getters with an out-parameter take the value stored behind it and
    return the value stored there afterwards. *)
Definition obs_sceneitem_getpos (item : option ptr) (pos_ : vec2) : M vec2 :=
  match item with
  | Some i => rd pos i
  | None => mret pos_
  end.

Definition obs_sceneitem_getrot (item : option ptr) : M float :=
  match item with
  | Some i => rd rot i
  | None => mret f_zero
  end.

Definition obs_sceneitem_getorigin (item : option ptr) (origin_ : vec2) : M vec2 :=
  match item with
  | Some i => rd origin i
  | None => mret origin_
  end.

Definition obs_sceneitem_getscale (item : option ptr) (scale_ : vec2) : M vec2 :=
  match item with
  | Some i => rd scale i
  | None => mret scale_
  end.

(** The body of the [while (item)] loop of [scene_video_render]. *)
Fixpoint render_loop (fuel : nat) (item : option ptr) : M unit :=
  match item with
  | None => mret tt
  | Some i =>
      match fuel with
      | O => crash OutOfFuel
      | S k =>
          src ← rd source i;
          if obs_source_removed env src then
            nxt ← rd next i;
            obs_sceneitem_remove (Some i);;
            render_loop k nxt
          else
            call gs_matrix_push;;
            o ← rd origin i;
            call (gs_matrix_translate3f (x o) (y o) f_zero);;
            sc ← rd scale i;
            call (gs_matrix_scale3f (x sc) (y sc) f_one);;
            r ← rd rot i;
            call (gs_matrix_rotaa4f f_zero f_zero f_one (RAD (f_neg r)));;
            p ← rd pos i;
            call (gs_matrix_translate3f (f_neg (x p)) (f_neg (y p)) f_zero);;
            src ← rd source i;
            call (obs_source_video_render src);;
            call gs_matrix_pop;;
            nxt ← rd next i;
            render_loop k nxt
      end
  end.

Definition scene_video_render (scene : option ptr) : M unit :=
  fuel ← loop_bound;
  pthread_mutex_lock scene;;
  s ← deref scene;
  first ← rd_scene first_item s;
  render_loop fuel first;;
  pthread_mutex_unlock scene.

Definition scene_load_item (scene : option ptr) (data : item_data) : M unit :=
  let name := d_name data in
  let source_ := obs_get_source_by_name env name in
  match source_ with
  | None =>
      call (blog LOG_WARNING
              ("[scene_load_item] Source " +:+ name +:+ " not found!"))
  | Some _ =>
      item ← obs_scene_add scene source_;
      i ← deref item; wr (set_rot (d2f (d_rot data))) i;;
      i ← deref item; wr (set_visible (d_visible data)) i;;
      i ← deref item; wr (set_origin (d_origin data)) i;;
      i ← deref item; wr (set_pos (d_pos data)) i;;
      i ← deref item; wr (set_scale (d_scale data)) i;;
      call (obs_source_release source_)
  end.

(** The [for] loop of [scene_load] over the array. *)
Fixpoint load_loop (scene : option ptr) (records : list item_data) : M unit :=
  match records with
  | [] => mret tt
  | data :: rest => scene_load_item scene data;; load_loop scene rest
  end.

(** The settings object, as far as the scene uses it: array values by key. *)
Definition scene_load (scene : option ptr)
    (settings : gmap string (list item_data)) : M unit :=
  let array := settings !! "items" in
  remove_all_items scene;;
  match array with
  | None => mret tt
  | Some records => load_loop scene records
  end.

Definition scene_save_item (array : list item_data) (item : ptr)
    : M (list item_data) :=
  src ← rd source item;
  let name := obs_source_getname env src in
  v ← rd visible item;
  r ← rd rot item;
  o ← rd origin item;
  p ← rd pos item;
  sc ← rd scale item;
  mret (array ++ [ItemData name v (f2d r) o p sc]).

Fixpoint save_loop (fuel : nat) (array : list item_data) (item : option ptr)
    : M (list item_data) :=
  match item with
  | None => mret array
  | Some i =>
      match fuel with
      | O => crash OutOfFuel
      | S k =>
          array' ← scene_save_item array i;
          nxt ← rd next i;
          save_loop k array' nxt
      end
  end.

Definition scene_save (scene : option ptr)
    (settings : gmap string (list item_data))
    : M (gmap string (list item_data)) :=
  fuel ← loop_bound;
  pthread_mutex_lock scene;;
  s ← deref scene;
  first ← rd_scene first_item s;
  array ← save_loop fuel [] first;
  pthread_mutex_unlock scene;;
  mret (<["items" := array]> settings).

End Scene.

(** * Well-formed scenes

    [dll h p l n]: in the heap [h] the addresses [l] form a doubly-linked
    chain, the back-link of the first cell being [p] and the forward-link of
    the last one [n]. *)

Section Lists.
Context {FM : FloatModel}.
Implicit Types (h : gmap ptr obs_scene_item) (l : list ptr) (a i : ptr).

Definition head_or l (d : option ptr) : option ptr :=
  match l with
  | [] => d
  | a :: _ => Some a
  end.

Definition last_or l (d : option ptr) : option ptr :=
  match last l with
  | Some a => Some a
  | None => d
  end.

Fixpoint dll h (p : option ptr) l (n : option ptr) : Prop :=
  match l with
  | [] => True
  | a :: l' =>
      prev <$> h !! a = Some p ∧ next <$> h !! a = Some (head_or l' n) ∧
      dll h (Some a) l' n
  end.

(** The scene at [s], presenting itself as the source [hs], holds exactly the
    items [l], in paint order; each of them points back to [s] and has not
    been removed. *)
(** The list of the scene at [s] is [l], in paint order. *)
Record scene_list (w : world) (s : ptr) (l : list ptr) : Prop := SceneList {
  sl_first : first_item <$> scenes w !! s = Some (head l);
  sl_links : dll (items w) None l None;
  sl_nodup : NoDup l
}.

(** The scene at [s], presenting itself as the source [hs], holds exactly the
    items [l]; each of them points back to [s] and has not been removed.
    This is the state [obs_scene_add] and [obs_sceneitem_remove] maintain. *)
Record scene_wf (w : world) (s hs : ptr) (l : list ptr) : Prop := SceneWf {
  wf_list : scene_list w s l;
  wf_host : scene_source <$> scenes w !! s = Some (Some hs);
  wf_parent : Forall (λ a, parent <$> items w !! a = Some (Some s)) l;
  wf_live : Forall (λ a, removed <$> items w !! a = Some false) l
}.

Definition opt_alter (f : obs_scene_item → obs_scene_item) (o : option ptr) h :=
  match o with
  | Some k => alter f k h
  | None => h
  end.

Lemma head_or_app l1 l2 d : head_or (l1 ++ l2) d = head_or l1 (head_or l2 d).
Proof. by destruct l1. Qed.

Lemma head_or_None l : head_or l None = head l.
Proof. by destruct l. Qed.

Lemma last_or_snoc l a d : last_or (l ++ [a]) d = Some a.
Proof. unfold last_or. by rewrite last_snoc. Qed.

Lemma last_or_cons a l d : last_or (a :: l) d = last_or l (Some a).
Proof.
  unfold last_or. destruct l as [|b l]; [done|].
  change (last (a :: b :: l)) with (last (b :: l)).
  by destruct (last (b :: l)) eqn:E; [|apply last_None in E].
Qed.

Lemma last_or_None l : last_or l None = last l.
Proof. unfold last_or. by destruct (last l). Qed.

Lemma dll_app h p l1 l2 n :
  dll h p (l1 ++ l2) n ↔ dll h p l1 (head_or l2 n) ∧ dll h (last_or l1 p) l2 n.
Proof.
  revert p. induction l1 as [|a l1 IH]; intros p; simpl.
  - unfold last_or; simpl. tauto.
  - rewrite IH, head_or_app, last_or_cons. tauto.
Qed.

Lemma dll_is_Some h p l n a : dll h p l n → a ∈ l → is_Some (h !! a).
Proof.
  revert p. induction l as [|b l IH]; intros p Hl Ha; [by apply elem_of_nil in Ha|].
  destruct Hl as (Hp & _ & Hl). apply elem_of_cons in Ha as [->|Ha]; [|eauto].
  destruct (h !! b); [eauto|done].
Qed.

(** Only the links of the cells of the chain matter. *)
Lemma dll_frame h h' p l n :
  (∀ a, a ∈ l → prev <$> h' !! a = prev <$> h !! a) →
  (∀ a, a ∈ l → next <$> h' !! a = next <$> h !! a) →
  dll h p l n → dll h' p l n.
Proof.
  revert p. induction l as [|b l IH]; intros p Hp Hn; simpl; [done|].
  intros (? & ? & ?). rewrite Hp, Hn by left. split_and!; [done..|].
  apply IH; [intros; apply Hp|intros; apply Hn|]; by try right.
Qed.

(** Redirecting the forward-link of the last cell. *)
Lemma dll_set_tail h h' p l n n' :
  NoDup l →
  (∀ a, a ∈ l → prev <$> h' !! a = prev <$> h !! a) →
  (∀ a, a ∈ l → last l ≠ Some a → next <$> h' !! a = next <$> h !! a) →
  (∀ a, last l = Some a → next <$> h' !! a = Some n') →
  dll h p l n → dll h' p l n'.
Proof.
  revert p. induction l as [|b l IH]; intros p Hnd Hp Hn Hlast; simpl; [done|].
  intros (? & ? & ?). apply NoDup_cons in Hnd as [Hb Hnd].
  rewrite Hp by left. split; [done|]. destruct l as [|c l].
  - split; [|done]. by apply Hlast.
  - split.
    + rewrite Hn; [done|by left|]. simpl. intros Hl.
      apply Hb. rewrite <- (last_cons_cons b c l) in Hl.
      change (last (b :: c :: l)) with (last (c :: l)) in Hl.
      by apply last_Some_elem_of in Hl.
    + apply IH; [done|intros; apply Hp; by right| |by intros; apply Hlast|done].
      intros a Ha Hl. apply Hn; [by right|done].
Qed.

(** Redirecting the back-link of the first cell. *)
Lemma dll_set_head h h' p p' l n :
  NoDup l →
  (∀ a, a ∈ l → next <$> h' !! a = next <$> h !! a) →
  (∀ a, a ∈ l → head l ≠ Some a → prev <$> h' !! a = prev <$> h !! a) →
  (∀ a, head l = Some a → prev <$> h' !! a = Some p') →
  dll h p l n → dll h' p' l n.
Proof.
  intros Hnd Hn Hp Hhead. destruct l as [|b l]; simpl; [done|].
  intros (? & ? & ?). apply NoDup_cons in Hnd as [Hb Hnd].
  rewrite Hn by left. split_and!; [by apply Hhead|done|].
  eapply dll_frame; [| |done].
  - intros a Ha. apply Hp; [by right|]. simpl. intros [= ->]. done.
  - intros a Ha. apply Hn. by right.
Qed.

End Lists.

(** * Running the programs *)

Section Primitives.
Context {FM : FloatModel}.
Implicit Types (h : gmap ptr obs_scene_item) (l : list ptr) (a i : ptr) (w : world).

Lemma bind_Ok {A B} (m : M A) (f : A → M B) w v w1 :
  m w = Ok v w1 → (m ≫= f) w = f v w1.
Proof. unfold mbind, M_bind. by intros ->. Qed.

Lemma bind_Crash {A B} (m : M A) (f : A → M B) w e :
  m w = Crash e → (m ≫= f) w = Crash e.
Proof. unfold mbind, M_bind. by intros ->. Qed.

Lemma bind_assoc {A B C} (m : M A) (f : A → M B) (g : B → M C) w :
  ((m ≫= f) ≫= g) w = (m ≫= λ v, f v ≫= g) w.
Proof. unfold mbind, M_bind. by destruct (m w). Qed.

Lemma rd_Ok {A} (f : obs_scene_item → A) p w v :
  f <$> items w !! p = Some v → rd f p w = Ok v w.
Proof. unfold rd. destruct (items w !! p); by intros [= ->]. Qed.

Lemma wr_Ok u p w :
  is_Some (items w !! p) → wr u p w = Ok tt (set_items (alter u p (items w)) w).
Proof. unfold wr. by intros [? ->]. Qed.

Lemma rd_scene_Ok {A} (f : obs_scene → A) s w v :
  f <$> scenes w !! s = Some v → rd_scene f s w = Ok v w.
Proof. unfold rd_scene. destruct (scenes w !! s); by intros [= ->]. Qed.

Lemma wr_scene_Ok u s w :
  is_Some (scenes w !! s) →
  wr_scene u s w = Ok tt (set_scenes (alter u s (scenes w)) w).
Proof. unfold wr_scene. by intros [? ->]. Qed.

Lemma free_item_Ok p w :
  is_Some (items w !! p) →
  free_item p w =
    Ok tt (World (delete p (items w)) (scenes w) (trace w ++ [bfree p])).
Proof. unfold free_item. by intros [? ->]. Qed.

(** A field [g] of the cell at [a] after an update of the cell at [k]. *)
Lemma fld_alter_ne {A V} `{Countable K} (g : V → A) f (k : K) (m : gmap K V) b :
  b ≠ k → g <$> alter f k m !! b = g <$> m !! b.
Proof. intros. by rewrite lookup_alter_ne. Qed.

Lemma fld_alter_keep {A V} `{Countable K} (g : V → A) f (k : K) (m : gmap K V) b :
  (∀ v, g (f v) = g v) → g <$> alter f k m !! b = g <$> m !! b.
Proof.
  intros Hg. destruct (decide (b = k)) as [->|]; [|by apply fld_alter_ne].
  rewrite lookup_alter_eq. destruct (m !! k); simpl; by rewrite ?Hg.
Qed.

Lemma fld_alter_eq {A V} `{Countable K} (g : V → A) f (k : K) (m : gmap K V) :
  g <$> alter f k m !! k = (λ v, g (f v)) <$> m !! k.
Proof. rewrite lookup_alter_eq. by destruct (m !! k). Qed.

Lemma fld_insert_ne {A V} `{Countable K} (g : V → A) v (k : K) (m : gmap K V) b :
  b ≠ k → g <$> <[k := v]> m !! b = g <$> m !! b.
Proof. intros. by rewrite lookup_insert_ne. Qed.

Lemma fld_insert_eq {A V} `{Countable K} (g : V → A) v (k : K) (m : gmap K V) :
  g <$> <[k := v]> m !! k = Some (g v).
Proof. by rewrite lookup_insert_eq. Qed.

Lemma bzalloc_Ok w :
  bzalloc w =
    Ok (fresh (dom (items w)))
      (World (<[fresh (dom (items w)) := zero_item]> (items w)) (scenes w)
         (trace w)).
Proof. reflexivity. Qed.

Lemma fld_opt_alter_ne {A} (g : obs_scene_item → A) f o h a :
  o ≠ Some a → g <$> opt_alter f o h !! a = g <$> h !! a.
Proof. destruct o; simpl; [|done]. intros. apply fld_alter_ne. congruence. Qed.

Lemma fld_opt_alter_keep {A} (g : obs_scene_item → A) f o h a :
  (∀ v, g (f v) = g v) → g <$> opt_alter f o h !! a = g <$> h !! a.
Proof. destruct o; simpl; [|done]. apply fld_alter_keep. Qed.

Lemma is_Some_opt_alter f o h a : is_Some (opt_alter f o h !! a) ↔ is_Some (h !! a).
Proof. destruct o; simpl; [|done]. apply lookup_alter_is_Some. Qed.

Lemma fld_is_Some {A V} `{Countable K} (g : V → A) (m : gmap K V) b v :
  g <$> m !! b = Some v → is_Some (m !! b).
Proof. destruct (m !! b); [eauto|done]. Qed.

Lemma fld_const {A V} `{Countable K} (c : A) (m : gmap K V) b :
  is_Some (m !! b) → (λ _, c) <$> m !! b = Some c.
Proof. by intros [? ->]. Qed.

End Primitives.

Ltac world_simpl :=
  unfold set_items, set_scenes, set_trace;
  cbn [items scenes trace opt_alter].

(** [fld] reads a field through the updates made so far. *)
Ltac fld_rw :=
  world_simpl;
  repeat first
    [ rewrite fld_alter_keep by (intros; reflexivity)
    | rewrite fld_opt_alter_keep by (intros; reflexivity)
    | rewrite fld_alter_eq
    | rewrite fld_insert_eq
    | rewrite fld_alter_ne by done
    | rewrite fld_insert_ne by done
    | rewrite fld_opt_alter_ne by done ].

Ltac fld :=
  fld_rw;
  first
    [ eassumption
    | done
    | by (simpl; apply fld_const)
    | match goal with
      | H : ?m !! ?k = Some _ |- context [?m !! ?k] => by rewrite H
      end ].

Ltac alloc :=
  world_simpl;
  rewrite ?lookup_alter_is_Some, ?is_Some_opt_alter;
  rewrite ?lookup_insert_eq, ?lookup_insert_ne by done;
  first
    [ eassumption
    | eapply fld_is_Some; eassumption
    | match goal with
      | H : ?m !! ?k = Some _ |- is_Some (?m !! ?k) => by rewrite H
      end
    | by eauto ].

Ltac prim :=
  first
    [ apply rd_Ok; fld
    | apply wr_Ok; alloc
    | apply rd_scene_Ok; fld
    | apply wr_scene_Ok; alloc
    | apply free_item_Ok; alloc ].

(** One statement of the program, on a store where it does not fault. *)
Ltac step :=
  rewrite ?bind_assoc;
  first [ erewrite bind_Ok; [|first [prim | reflexivity]] | etrans; [prim|] ];
  cbn beta iota; world_simpl.

Section Detach.
Context {FM : FloatModel}.
Implicit Types (h : gmap ptr obs_scene_item) (l : list ptr) (a i : ptr) (w : world).

(** The heap after [detach_sceneitem i], where [p] and [n] are the links of
    [i]. *)
Definition detach_heap i (p n : option ptr) h :=
  alter (set_parent None) i (opt_alter (set_prev p) n (opt_alter (set_next n) p h)).

Definition detach_scenes (s : ptr) (p n : option ptr) (sc : gmap ptr obs_scene) :=
  match p with
  | Some _ => sc
  | None => alter (set_first_item n) s sc
  end.

Lemma detach_exec w i s p n :
  prev <$> items w !! i = Some p → next <$> items w !! i = Some n →
  parent <$> items w !! i = Some (Some s) →
  is_Some (scenes w !! s) →
  (∀ a, p = Some a → a ≠ i ∧ is_Some (items w !! a)) →
  (∀ a, n = Some a → a ≠ i ∧ is_Some (items w !! a)) →
  detach_sceneitem i w =
    Ok tt (World (detach_heap i p n (items w)) (detach_scenes s p n (scenes w))
             (trace w)).
Proof.
  intros Hp Hn Hpar Hs Hpa Hna. unfold detach_sceneitem.
  step. destruct p as [pp|], n as [nn|].
  - destruct (Hpa pp eq_refl), (Hna nn eq_refl). do 6 step. reflexivity.
  - destruct (Hpa pp eq_refl). do 5 step. reflexivity.
  - destruct (Hna nn eq_refl). do 8 step. reflexivity.
  - do 7 step. reflexivity.
Qed.

Lemma detach_heap_prev i p n h a :
  n ≠ Some a → prev <$> detach_heap i p n h !! a = prev <$> h !! a.
Proof. intros. unfold detach_heap. fld. Qed.

Lemma detach_heap_prev_eq i p h a :
  is_Some (h !! a) → prev <$> detach_heap i p (Some a) h !! a = Some p.
Proof. intros. unfold detach_heap, opt_alter at 1. fld. Qed.

Lemma detach_heap_next i p n h a :
  p ≠ Some a → next <$> detach_heap i p n h !! a = next <$> h !! a.
Proof. intros. unfold detach_heap. fld. Qed.

Lemma detach_heap_next_eq i n h a :
  is_Some (h !! a) → next <$> detach_heap i (Some a) n h !! a = Some n.
Proof. intros. unfold detach_heap. fld. Qed.

End Detach.

Section Attach.
Context {FM : FloatModel}.
Implicit Types (h : gmap ptr obs_scene_item) (l : list ptr) (a i : ptr) (w : world).

Lemma detach_heap_keep {A} (g : obs_scene_item → A) i p n h a :
  (∀ v it, g (set_prev v it) = g it) → (∀ v it, g (set_next v it) = g it) →
  a ≠ i → g <$> detach_heap i p n h !! a = g <$> h !! a.
Proof.
  intros Hp Hn ?. unfold detach_heap.
  rewrite fld_alter_ne, !fld_opt_alter_keep; auto.
Qed.

Lemma detach_heap_is_Some i p n h a :
  is_Some (detach_heap i p n h !! a) ↔ is_Some (h !! a).
Proof.
  unfold detach_heap. by rewrite lookup_alter_is_Some, !is_Some_opt_alter.
Qed.

(** Unlinking the cell [i] from the chain [l1 ++ i :: l2]. *)
Lemma detach_dll h i l1 l2 :
  NoDup (l1 ++ i :: l2) → dll h None (l1 ++ i :: l2) None →
  dll (detach_heap i (last l1) (head l2) h) None (l1 ++ l2) None.
Proof.
  intros Hnd Hl.
  apply NoDup_app in Hnd as (Hnd1 & Hdisj & [Hi2 Hnd2]%NoDup_cons).
  apply dll_app in Hl as (Hl1 & Hpi & Hni & Hl2). simpl in Hl1.
  apply dll_app. split.
  - rewrite head_or_None. eapply dll_set_tail; [done| | | |exact Hl1].
    + intros a Ha. apply detach_heap_prev. intros Hh.
      apply head_Some_elem_of in Hh. apply (Hdisj a Ha). by right.
    + intros a Ha Hlast. apply detach_heap_next. congruence.
    + intros a Hlast. rewrite Hlast. apply detach_heap_next_eq.
      eapply dll_is_Some; [exact Hl1|]. by apply last_Some_elem_of.
  - rewrite last_or_None. eapply dll_set_head; [done| | | |exact Hl2].
    + intros a Ha. apply detach_heap_next. intros Hh.
      apply last_Some_elem_of in Hh. apply (Hdisj a Hh). by right.
    + intros a Ha Hhead. apply detach_heap_prev. congruence.
    + intros a Hhead. rewrite Hhead. apply detach_heap_prev_eq.
      eapply dll_is_Some; [exact Hl2|]. by apply head_Some_elem_of.
Qed.

(** The heap after [attach_sceneitem i (Some pp)], where [n] is the
    forward-link of [pp]. *)
Definition attach_heap i (pp : ptr) (n : option ptr) h :=
  alter (set_next (Some i)) pp
    (opt_alter (set_prev (Some i)) n
       (alter (set_next n) i (alter (set_prev (Some pp)) i h))).

Lemma attach_exec w i pp n :
  is_Some (items w !! i) → next <$> items w !! pp = Some n → pp ≠ i →
  (∀ a, n = Some a → is_Some (items w !! a)) →
  attach_sceneitem i (Some pp) w =
    Ok tt (World (attach_heap i pp n (items w)) (scenes w) (trace w)).
Proof.
  intros Hi Hn Hne Hna. unfold attach_sceneitem.
  destruct n as [nn|].
  - pose proof (Hna nn eq_refl). do 6 step. reflexivity.
  - do 6 step. reflexivity.
Qed.

(** With a NULL predecessor the item must still know its scene. *)
Lemma attach_orphan w i :
  parent <$> items w !! i = Some None →
  attach_sceneitem i None w = Crash AssertFailed.
Proof.
  intros Hpar. unfold attach_sceneitem. do 2 step. reflexivity.
Qed.

Lemma attach_heap_prev i pp n h a :
  a ≠ i → n ≠ Some a → prev <$> attach_heap i pp n h !! a = prev <$> h !! a.
Proof. intros. unfold attach_heap. fld. Qed.

Lemma attach_heap_prev_eq i pp h a :
  a ≠ i → is_Some (h !! a) →
  prev <$> attach_heap i pp (Some a) h !! a = Some (Some i).
Proof. intros. unfold attach_heap. fld. Qed.

Lemma attach_heap_next i pp n h a :
  a ≠ i → a ≠ pp → next <$> attach_heap i pp n h !! a = next <$> h !! a.
Proof. intros. unfold attach_heap. fld. Qed.

Lemma attach_heap_next_eq i pp n h :
  is_Some (h !! pp) → next <$> attach_heap i pp n h !! pp = Some (Some i).
Proof. intros. unfold attach_heap. fld. Qed.

Lemma attach_heap_item_prev i pp n h :
  n ≠ Some i → is_Some (h !! i) →
  prev <$> attach_heap i pp n h !! i = Some (Some pp).
Proof. intros. unfold attach_heap. fld. Qed.

Lemma attach_heap_item_next i pp n h :
  pp ≠ i → is_Some (h !! i) → next <$> attach_heap i pp n h !! i = Some n.
Proof. intros. unfold attach_heap. fld. Qed.

Lemma attach_heap_keep {A} (g : obs_scene_item → A) i pp n h a :
  (∀ v it, g (set_prev v it) = g it) → (∀ v it, g (set_next v it) = g it) →
  g <$> attach_heap i pp n h !! a = g <$> h !! a.
Proof.
  intros Hp Hn. unfold attach_heap.
  rewrite fld_alter_keep, fld_opt_alter_keep, !fld_alter_keep; auto.
Qed.

(** Splicing the cell [i] in after the last cell of [l1]. *)
Lemma attach_dll h i pp l1 l2 :
  NoDup (l1 ++ l2) → i ∉ l1 ++ l2 → is_Some (h !! i) → last l1 = Some pp →
  dll h None (l1 ++ l2) None →
  dll (attach_heap i pp (head l2) h) None (l1 ++ i :: l2) None.
Proof.
  intros Hnd Hi His Hlast Hl.
  apply NoDup_app in Hnd as (Hnd1 & Hdisj & Hnd2).
  apply not_elem_of_app in Hi as [Hi1 Hi2].
  assert (pp ∈ l1) as Hpp by by apply last_Some_elem_of.
  assert (pp ≠ i) as Hppi by (by intros ->).
  apply dll_app in Hl as (Hl1 & Hl2). rewrite head_or_None in Hl1.
  rewrite last_or_None in Hl2.
  apply dll_app. simpl. rewrite last_or_None, Hlast, head_or_None.
  split_and!.
  - eapply dll_set_tail; [done| | | |exact Hl1].
    + intros a Ha. apply attach_heap_prev; [by intros ->|].
      intros Hh%head_Some_elem_of. by apply (Hdisj a).
    + intros a Ha Hne. apply attach_heap_next; [by intros ->|congruence].
    + intros a Ha. assert (a = pp) as -> by congruence.
      apply attach_heap_next_eq. eapply dll_is_Some; [exact Hl1|done].
  - apply attach_heap_item_prev; [|done].
    intros Hh%head_Some_elem_of. done.
  - by apply attach_heap_item_next.
  - eapply dll_set_head; [done| | | |exact Hl2].
    + intros a Ha. apply attach_heap_next; [by intros ->|].
      intros ->. by apply (Hdisj pp).
    + intros a Ha Hne. apply attach_heap_prev; [by intros ->|congruence].
    + intros a Ha. rewrite Ha. apply attach_heap_prev_eq; [|].
      * intros ->. by apply head_Some_elem_of in Ha.
      * eapply dll_is_Some; [exact Hl2|]. by apply head_Some_elem_of.
Qed.

End Attach.

(** * Reordering *)

Section Setorder.
Context {FM : FloatModel}.
Implicit Types (h : gmap ptr obs_scene_item) (l : list ptr) (a i : ptr) (w : world).

Lemma wf_cell w s hs l1 i l2 :
  scene_wf w s hs (l1 ++ i :: l2) →
  prev <$> items w !! i = Some (last l1) ∧
  next <$> items w !! i = Some (head l2) ∧
  parent <$> items w !! i = Some (Some s) ∧
  removed <$> items w !! i = Some false.
Proof.
  intros [[_ Hl _] _ Hpar Hlive].
  apply dll_app in Hl as (_ & Hp & Hn & _).
  rewrite last_or_None in Hp. rewrite head_or_None in Hn.
  rewrite Forall_app, Forall_cons in Hpar, Hlive.
  destruct Hpar as [_ [? _]], Hlive as [_ [? _]]. done.
Qed.

Lemma list_is_Some w s l a : scene_list w s l → a ∈ l → is_Some (items w !! a).
Proof. intros [_ Hl _]. by eapply dll_is_Some. Qed.

Lemma wf_before w s l1 i l2 a :
  scene_list w s (l1 ++ i :: l2) → last l1 = Some a →
  a ≠ i ∧ is_Some (items w !! a).
Proof.
  intros Hl Ha%last_Some_elem_of. split.
  - intros ->. destruct Hl as [_ _ Hnd].
    apply NoDup_app in Hnd as (_ & Hd & _). apply (Hd i Ha). by left.
  - eapply list_is_Some; [done|]. apply elem_of_app. by left.
Qed.

Lemma wf_after w s l1 i l2 a :
  scene_list w s (l1 ++ i :: l2) → head l2 = Some a →
  a ≠ i ∧ is_Some (items w !! a).
Proof.
  intros Hl Ha%head_Some_elem_of. split.
  - intros ->. destruct Hl as [_ _ Hnd].
    by apply NoDup_app in Hnd as (_ & _ & [? _]%NoDup_cons).
  - eapply list_is_Some; [done|]. apply elem_of_app. right. by right.
Qed.

(** A chain of distinct allocated cells is no longer than the heap. *)
Lemma list_le_heap w s l : scene_list w s l → (length l ≤ size (items w))%nat.
Proof.
  intros Hl. pose proof (sl_nodup _ _ _ Hl) as Hnd.
  rewrite <- (size_list_to_set (C:=gset ptr) l), <- size_dom by done.
  apply subseteq_size. intros a Ha%elem_of_list_to_set.
  apply elem_of_dom. by eapply list_is_Some.
Qed.

Lemma walk_to_last_Ok w p a l z fuel :
  dll (items w) p (a :: l) None → last (a :: l) = Some z →
  (length l < fuel)%nat →
  walk_to_last fuel a w = Ok z w.
Proof.
  revert p a fuel. induction l as [|b l IH]; intros p a fuel Hl Hz Hf.
  - destruct fuel as [|k]; [lia|]. destruct Hl as (_ & Hn & _). simpl in *.
    step. by simplify_eq.
  - destruct fuel as [|k]; [simpl in Hf; lia|].
    destruct Hl as (_ & Hn & Hl). simpl in Hn. cbn [walk_to_last]. step.
    eapply IH; [done|by rewrite last_cons_cons in Hz|simpl in Hf; lia].
Qed.

(** The store after [obs_scene_addref], [pthread_mutex_lock] and
    [detach_sceneitem] on the item [i] of [l1 ++ i :: l2]. *)
Definition detached w s hs i (p n : option ptr) : world :=
  World (detach_heap i p n (items w))
    (detach_scenes s p n (alter (λ sc, set_mutex (S (mutex sc)) sc) s (scenes w)))
    (trace w ++ [obs_source_addref (Some hs)]).

Lemma setorder_prefix w s hs l1 i l2 mv :
  scene_wf w s hs (l1 ++ i :: l2) →
  obs_sceneitem_setorder (Some i) mv w =
    (setorder_reattach (S (size (items w))) i mv;;
     pthread_mutex_unlock (Some s);;
     obs_scene_release (Some s)) (detached w s hs i (last l1) (head l2)).
Proof.
  intros Hwf. destruct (wf_cell _ _ _ _ _ _ Hwf) as (Hp & Hn & Hpar & _).
  pose proof (wf_host _ _ _ _ Hwf) as Hhs.
  pose proof (wf_list _ _ _ _ Hwf) as Hsl.
  pose proof (λ a, wf_before _ _ _ _ _ a Hsl) as Hb.
  pose proof (λ a, wf_after _ _ _ _ _ a Hsl) as Ha.
  unfold obs_sceneitem_setorder, obs_scene_addref, pthread_mutex_lock.
  do 6 step.
  erewrite bind_Ok; [reflexivity|].
  erewrite detach_exec; world_simpl; [reflexivity|fld|fld|fld|alloc|..].
  - intros a [? ?]%Hb. done.
  - intros a [? ?]%Ha. done.
Qed.

Lemma detached_list w s hs l1 i l2 :
  scene_wf w s hs (l1 ++ i :: l2) →
  scene_list (detached w s hs i (last l1) (head l2)) s (l1 ++ l2).
Proof.
  intros [[Hf Hl Hnd] Hhs _ _]. unfold detached. split; world_simpl.
  - unfold detach_scenes. destruct (last l1) as [pp|] eqn:Hlast.
    + apply last_Some in Hlast as [l1' ->]. fld_rw. rewrite Hf.
      by destruct l1'.
    + apply last_None in Hlast as ->. fld_rw. simpl. apply fld_const.
      by eapply fld_is_Some.
  - by apply detach_dll.
  - apply NoDup_app in Hnd as (? & Hd & [? ?]%NoDup_cons).
    apply NoDup_app. split_and!; [done| |done].
    intros a Ha Ha2. apply (Hd a Ha). by right.
Qed.

Lemma detached_cell w s hs l1 i l2 :
  scene_wf w s hs (l1 ++ i :: l2) →
  let w2 := detached w s hs i (last l1) (head l2) in
  prev <$> items w2 !! i = Some (last l1) ∧
  next <$> items w2 !! i = Some (head l2) ∧
  parent <$> items w2 !! i = Some None.
Proof.
  intros Hwf. destruct (wf_cell _ _ _ _ _ _ Hwf) as (Hp & Hn & Hpar & _).
  pose proof (wf_list _ _ _ _ Hwf) as Hsl. simpl. split_and!.
  - rewrite detach_heap_prev; [done|]. intros Ha.
    by apply (wf_after _ _ _ _ _ _ Hsl) in Ha as [].
  - rewrite detach_heap_next; [done|]. intros Ha.
    by apply (wf_before _ _ _ _ _ _ Hsl) in Ha as [].
  - unfold detach_heap. rewrite fld_alter_eq. simpl. apply fld_const.
    rewrite !is_Some_opt_alter. by eapply fld_is_Some.
Qed.

Lemma detached_host w s hs i p n :
  scene_source <$> scenes w !! s = Some (Some hs) →
  scene_source <$> scenes (detached w s hs i p n) !! s = Some (Some hs).
Proof. intros. simpl. unfold detach_scenes. destruct p; by fld. Qed.

(** [pthread_mutex_unlock] and [obs_scene_release] at the end. *)
Definition released w s hs : world :=
  World (items w) (alter (λ sc, set_mutex (Nat.pred (mutex sc)) sc) s (scenes w))
    (trace w ++ [obs_source_release (Some hs)]).

Lemma setorder_suffix w s hs :
  scene_source <$> scenes w !! s = Some (Some hs) →
  (pthread_mutex_unlock (Some s);; obs_scene_release (Some s)) w =
    Ok tt (released w s hs).
Proof.
  intros Hhs. unfold pthread_mutex_unlock, obs_scene_release. do 3 step.
  reflexivity.
Qed.

Lemma released_list w s hs l : scene_list w s l → scene_list (released w s hs) s l.
Proof.
  intros [Hf Hl Hnd]. unfold released. split; world_simpl; [by fld|done..].
Qed.

(** [attach_sceneitem] with a NULL predecessor, after the detach. *)
Lemma setorder_orphan w s hs l1 i l2 (m : M unit) :
  scene_wf w s hs (l1 ++ i :: l2) →
  (attach_sceneitem i None;; m) (detached w s hs i (last l1) (head l2)) =
    Crash AssertFailed.
Proof.
  intros Hwf. apply bind_Crash, attach_orphan.
  by destruct (detached_cell _ _ _ _ _ _ Hwf) as (_ & _ & ?).
Qed.

(** Re-attaching [i] after the last cell of [k1], the list without [i] being
    [k1 ++ k2]. *)
Lemma reattach_after w s hs l1 i l2 k1 k2 pp :
  scene_wf w s hs (l1 ++ i :: l2) →
  l1 ++ l2 = k1 ++ k2 → last k1 = Some pp →
  let w2 := detached w s hs i (last l1) (head l2) in
  ∃ w', (attach_sceneitem i (Some pp);;
         pthread_mutex_unlock (Some s);;
         obs_scene_release (Some s)) w2 = Ok tt w' ∧
        scene_list w' s (k1 ++ i :: k2) ∧
        parent <$> items w' !! i = Some None ∧
        trace w' = trace w ++ [obs_source_addref (Some hs);
                               obs_source_release (Some hs)].
Proof.
  intros Hwf Hk Hlast w2.
  pose proof (detached_list _ _ _ _ _ _ Hwf) as Hsl2. fold w2 in Hsl2.
  rewrite Hk in Hsl2. destruct Hsl2 as [Hf2 Hl2 Hnd2].
  pose proof (wf_list _ _ _ _ Hwf) as [_ _ Hnd].
  assert (i ∉ k1 ++ k2) as Hi.
  { rewrite <- Hk. apply NoDup_app in Hnd as (_ & Hd & [? _]%NoDup_cons).
    intros [?|?]%elem_of_app; [|done]. apply (Hd i); [done|by left]. }
  assert (pp ∈ k1) as Hpp by by apply last_Some_elem_of.
  assert (pp ≠ i) as Hne.
  { intros ->. apply Hi, elem_of_app. by left. }
  assert (is_Some (items w2 !! i)) as Hali.
  { destruct (detached_cell _ _ _ _ _ _ Hwf) as (? & _). by eapply fld_is_Some. }
  assert (next <$> items w2 !! pp = Some (head k2)) as Hnpp.
  { apply dll_app in Hl2 as (Hl2 & _). rewrite head_or_None in Hl2.
    apply last_Some in Hlast as [k1' ->].
    by apply dll_app in Hl2 as (_ & _ & ? & _). }
  eexists. split_and!.
  - erewrite bind_Ok; [|apply attach_exec; [done|exact Hnpp|done|]].
    + apply setorder_suffix. world_simpl.
      apply detached_host, (wf_host _ _ _ _ Hwf).
    + intros a Ha%head_Some_elem_of. eapply dll_is_Some; [exact Hl2|].
      apply elem_of_app. by right.
  - apply released_list. split; world_simpl.
    + rewrite Hf2. apply last_Some in Hlast as [k1' ->]. by destruct k1'.
    + by apply attach_dll.
    + apply NoDup_app in Hnd2 as (? & Hd & ?).
      apply not_elem_of_app in Hi as [? ?].
      apply NoDup_app. split_and!; [done| |by apply NoDup_cons].
      intros a Ha [->|Ha2]%elem_of_cons; [done|]. by apply (Hd a).
  - unfold released. world_simpl. rewrite attach_heap_keep by done.
    by destruct (detached_cell _ _ _ _ _ _ Hwf) as (_ & _ & ?).
  - simpl. by rewrite <- app_assoc.
Qed.

End Setorder.

Section SetorderMoves.
Context {FM : FloatModel}.
Implicit Types (h : gmap ptr obs_scene_item) (l : list ptr) (a i : ptr) (w : world).

Lemma setorder_up_first w s hs i l2 :
  scene_wf w s hs (i :: l2) →
  obs_sceneitem_setorder (Some i) ORDER_MOVE_UP w = Crash AssertFailed.
Proof.
  intros Hwf. rewrite (setorder_prefix w s hs [] i l2) by done.
  destruct (detached_cell w s hs [] i l2 Hwf) as (Hp & _).
  unfold setorder_reattach. step. by apply (setorder_orphan w s hs [] i l2).
Qed.

Lemma setorder_down_last w s hs l1 i :
  scene_wf w s hs (l1 ++ [i]) →
  obs_sceneitem_setorder (Some i) ORDER_MOVE_DOWN w = Crash AssertFailed.
Proof.
  intros Hwf. rewrite (setorder_prefix w s hs l1 i []) by done.
  destruct (detached_cell w s hs l1 i [] Hwf) as (_ & Hn & _).
  unfold setorder_reattach. step. by apply (setorder_orphan w s hs l1 i []).
Qed.

Lemma setorder_bottom_any w s hs l1 i l2 :
  scene_wf w s hs (l1 ++ i :: l2) →
  obs_sceneitem_setorder (Some i) ORDER_MOVE_BOTTOM w = Crash AssertFailed.
Proof.
  intros Hwf. rewrite (setorder_prefix w s hs l1 i l2) by done.
  by apply setorder_orphan.
Qed.

Lemma setorder_top_alone w s hs i :
  scene_wf w s hs [i] →
  obs_sceneitem_setorder (Some i) ORDER_MOVE_TOP w = Crash AssertFailed.
Proof.
  intros Hwf. rewrite (setorder_prefix w s hs [] i []) by done.
  destruct (detached_cell w s hs [] i [] Hwf) as (Hp & Hn & _).
  unfold setorder_reattach. do 2 step.
  by apply (setorder_orphan w s hs [] i []).
Qed.

Lemma setorder_up_inner w s hs l1 pp i l2 :
  scene_wf w s hs (l1 ++ pp :: i :: l2) →
  ∃ w', obs_sceneitem_setorder (Some i) ORDER_MOVE_UP w = Ok tt w' ∧
        scene_list w' s (l1 ++ pp :: i :: l2) ∧
        parent <$> items w' !! i = Some None ∧
        trace w' = trace w ++ [obs_source_addref (Some hs);
                               obs_source_release (Some hs)].
Proof.
  intros Hwf. rewrite (cons_middle pp), app_assoc in Hwf.
  rewrite (setorder_prefix _ _ _ _ _ _ _ Hwf).
  destruct (detached_cell _ _ _ _ _ _ Hwf) as (Hp & _).
  rewrite last_snoc in Hp.
  destruct (reattach_after w s hs _ i l2 (l1 ++ [pp]) l2 pp Hwf)
    as (w' & Hrun & Hl & Hpar & Ht); [done|apply last_snoc|].
  exists w'. rewrite last_snoc in Hrun |- *.
  rewrite (cons_middle pp), app_assoc. split; [|done].
  unfold setorder_reattach. by step.
Qed.

Lemma setorder_down_inner w s hs l1 i nn l2 :
  scene_wf w s hs (l1 ++ i :: nn :: l2) →
  ∃ w', obs_sceneitem_setorder (Some i) ORDER_MOVE_DOWN w = Ok tt w' ∧
        scene_list w' s (l1 ++ nn :: i :: l2) ∧
        parent <$> items w' !! i = Some None ∧
        trace w' = trace w ++ [obs_source_addref (Some hs);
                               obs_source_release (Some hs)].
Proof.
  intros Hwf. rewrite (setorder_prefix _ _ _ _ _ _ _ Hwf).
  destruct (detached_cell _ _ _ _ _ _ Hwf) as (_ & Hn & _).
  destruct (reattach_after w s hs l1 i (nn :: l2) (l1 ++ [nn]) l2 nn Hwf)
    as (w' & Hrun & Hl & Hpar & Ht); [by rewrite <- app_assoc|apply last_snoc|].
  exists w'. rewrite (cons_middle nn), app_assoc. split; [|done].
  unfold setorder_reattach. by step.
Qed.

Lemma setorder_top_others w s hs l1 i l2 :
  scene_wf w s hs (l1 ++ i :: l2) → l1 ++ l2 ≠ [] →
  ∃ w', obs_sceneitem_setorder (Some i) ORDER_MOVE_TOP w = Ok tt w' ∧
        scene_list w' s ((l1 ++ l2) ++ [i]) ∧
        parent <$> items w' !! i = Some None ∧
        trace w' = trace w ++ [obs_source_addref (Some hs);
                               obs_source_release (Some hs)].
Proof.
  intros Hwf Hne. rewrite (setorder_prefix _ _ _ _ _ _ _ Hwf).
  destruct (detached_cell _ _ _ _ _ _ Hwf) as (Hp & Hn & _).
  destruct (last (l1 ++ l2)) as [z|] eqn:Hz; [|by apply last_None in Hz].
  destruct (reattach_after w s hs l1 i l2 (l1 ++ l2) [] z Hwf)
    as (w' & Hrun & Hl & Hpar & Ht); [by rewrite app_nil_r|done|].
  exists w'. split; [|done]. unfold setorder_reattach. step.
  destruct l2 as [|nn l2].
  - rewrite app_nil_r in Hz. step. rewrite Hz in Hrun |- *. done.
  - pose proof (detached_list _ _ _ _ _ _ Hwf) as [_ Hl2 _].
    apply dll_app in Hl2 as (_ & Hl2). cbn [head] in *.
    rewrite !bind_assoc.
    erewrite bind_Ok; [|eapply walk_to_last_Ok; [exact Hl2| |]].
    + by step.
    + by rewrite last_app_cons in Hz.
    + pose proof (list_le_heap _ _ _ (wf_list _ _ _ _ Hwf)) as Hlen.
      rewrite length_app in Hlen. simpl in *. lia.
Qed.

End SetorderMoves.

(** * Reference counting *)

Section Refcount.
Context {FM : FloatModel}.
Implicit Types (h : gmap ptr obs_scene_item) (l : list ptr) (a i : ptr) (w : world).

(** What [obs_sceneitem_destroy] adds to the trace. *)
Definition destroy_trace (src : option ptr) i : list event :=
  match src with
  | Some _ => [obs_source_release src; bfree i]
  | None => [bfree i]
  end.

Definition addref_world w i (r : Z) : world :=
  World (alter (set_ref (wrap_long (r + 1))) i (items w)) (scenes w) (trace w).

Definition release_world w i (r : Z) (src : option ptr) : world :=
  if bool_decide (wrap_long (r - 1) = 0)
  then World (delete i (items w)) (scenes w) (trace w ++ destroy_trace src i)
  else World (alter (set_ref (wrap_long (r - 1))) i (items w)) (scenes w) (trace w).

Lemma addref_exec w i r :
  ref <$> items w !! i = Some r →
  obs_sceneitem_addref (Some i) w = Ok tt (addref_world w i r).
Proof.
  intros Hr. unfold obs_sceneitem_addref, os_atomic_inc_long. do 3 step.
  reflexivity.
Qed.

Lemma release_exec w i r src :
  ref <$> items w !! i = Some r → source <$> items w !! i = Some src →
  obs_sceneitem_release (Some i) w = Ok tt (release_world w i r src).
Proof.
  intros Hr Hsrc. unfold obs_sceneitem_release, os_atomic_dec_long.
  do 3 step. unfold release_world. case_bool_decide; [|reflexivity].
  unfold obs_sceneitem_destroy. step.
  destruct src as [src|]; simpl.
  - do 2 step. by rewrite delete_alter_eq, <- app_assoc.
  - do 2 step. by rewrite delete_alter_eq.
Qed.

End Refcount.

(** * Removal *)

Section Remove.
Context {FM : FloatModel}.
Implicit Types (h : gmap ptr obs_scene_item) (l : list ptr) (a i : ptr) (w : world).

(** The store of [obs_sceneitem_remove] just before it releases the
    reference of the list: the item is flagged, its removal has been
    announced, it is unlinked, and the mutex is back at its depth. *)
Definition unlinked w s hs i (p n src : option ptr) : world :=
  World (detach_heap i p n (alter (set_removed true) i (items w)))
    (alter (λ sc, set_mutex (Nat.pred (mutex sc)) sc) s
       (detach_scenes s p n
          (alter (λ sc, set_mutex (S (mutex sc)) sc) s (scenes w))))
    (trace w ++ [obs_source_remove_child (Some hs) src;
                 signal_handler_signal hs "item_remove" (Some s) (Some i)]).

Lemma remove_prefix w s hs l1 i l2 src :
  scene_wf w s hs (l1 ++ i :: l2) → source <$> items w !! i = Some src →
  obs_sceneitem_remove (Some i) w =
    obs_sceneitem_release (Some i) (unlinked w s hs i (last l1) (head l2) src).
Proof.
  intros Hwf Hsrc.
  destruct (wf_cell _ _ _ _ _ _ Hwf) as (Hp & Hn & Hpar & Hrm).
  pose proof (wf_host _ _ _ _ Hwf) as Hhs.
  pose proof (wf_list _ _ _ _ Hwf) as Hsl.
  pose proof (λ a, wf_before _ _ _ _ _ a Hsl) as Hb.
  pose proof (λ a, wf_after _ _ _ _ _ a Hsl) as Ha.
  unfold obs_sceneitem_remove, pthread_mutex_lock, signal_item_remove.
  repeat step.
  erewrite bind_Ok;
    [|apply (detach_exec _ i s (last l1) (head l2)); world_simpl].
  - unfold pthread_mutex_unlock, detach_scenes. world_simpl.
    destruct (last l1); do 2 step; unfold unlinked, detach_scenes;
      by rewrite <- !app_assoc.
  - fld.
  - fld.
  - fld.
  - alloc.
  - intros a [? ?]%Hb. split; [done|alloc].
  - intros a [? ?]%Ha. split; [done|alloc].
Qed.

Lemma unlinked_other {A} (g : obs_scene_item → A) w s hs i p n src a :
  (∀ v it, g (set_prev v it) = g it) → (∀ v it, g (set_next v it) = g it) →
  a ≠ i →
  g <$> items (unlinked w s hs i p n src) !! a = g <$> items w !! a.
Proof.
  intros Hgp Hgn Hne. unfold unlinked. world_simpl.
  rewrite detach_heap_keep by done. by apply fld_alter_ne.
Qed.

Lemma unlinked_item {A} (g : obs_scene_item → A) w s hs i p n src :
  p ≠ Some i → n ≠ Some i →
  g <$> items (unlinked w s hs i p n src) !! i =
  (λ it, g (set_parent None (set_removed true it))) <$> items w !! i.
Proof.
  intros Hp Hn. unfold unlinked, detach_heap. world_simpl.
  by rewrite fld_alter_eq, !fld_opt_alter_ne, fld_alter_eq.
Qed.

Lemma unlinked_wf w s hs l1 i l2 src :
  scene_wf w s hs (l1 ++ i :: l2) →
  scene_wf (unlinked w s hs i (last l1) (head l2) src) s hs (l1 ++ l2).
Proof.
  intros Hwf. pose proof Hwf as [[Hf Hl Hnd] Hhs Hpar Hlive].
  assert (NoDup (l1 ++ l2) ∧ i ∉ l1 ++ l2) as [Hnd' Hi].
  { apply NoDup_app in Hnd as (? & Hd & [? ?]%NoDup_cons). split.
    - apply NoDup_app. split_and!; [done| |done].
      intros a Ha Ha2. apply (Hd a Ha). by right.
    - intros [?|?]%elem_of_app; [|done]. apply (Hd i); [done|by left]. }
  assert (∀ a, a ∈ l1 ++ l2 → a ≠ i) as Hne by (by intros a Ha ->).
  split; [split|..].
  - unfold unlinked, detach_scenes. world_simpl.
    destruct (last l1) as [pp|] eqn:Hlast.
    + apply last_Some in Hlast as [l1' ->]. fld_rw. rewrite Hf.
      by destruct l1'.
    + apply last_None in Hlast as ->. fld_rw. simpl. apply fld_const.
      by eapply fld_is_Some.
  - unfold unlinked. world_simpl. apply detach_dll; [done|].
    eapply dll_frame; [| |exact Hl]; intros; by apply fld_alter_keep.
  - done.
  - unfold unlinked, detach_scenes. world_simpl. destruct (last l1); by fld.
  - rewrite Forall_app, Forall_cons in Hpar. destruct Hpar as (H1 & _ & H2).
    pose proof (proj2 (Forall_app _ _ _) (conj H1 H2)) as Hpar.
    rewrite Forall_forall in Hpar |- *. intros a Ha.
    rewrite unlinked_other; auto.
  - rewrite Forall_app, Forall_cons in Hlive. destruct Hlive as (H1 & _ & H2).
    pose proof (proj2 (Forall_app _ _ _) (conj H1 H2)) as Hlive.
    rewrite Forall_forall in Hlive |- *. intros a Ha.
    rewrite unlinked_other; auto.
Qed.

Lemma unlinked_mutex w s hs i p n src :
  mutex <$> scenes (unlinked w s hs i p n src) !! s = mutex <$> scenes w !! s.
Proof.
  unfold unlinked, detach_scenes. world_simpl. destruct p.
  - rewrite !fld_alter_eq. by destruct (scenes w !! s).
  - rewrite fld_alter_eq, fld_alter_keep, fld_alter_eq by done.
    by destruct (scenes w !! s).
Qed.

(** Releasing a reference of [i] leaves every other cell as it is. *)
Lemma release_world_other w i r src a :
  a ≠ i → items (release_world w i r src) !! a = items w !! a.
Proof.
  intros. unfold release_world. case_bool_decide; world_simpl.
  - by rewrite lookup_delete_ne.
  - by rewrite lookup_alter_ne.
Qed.

Lemma release_world_scenes w i r src :
  scenes (release_world w i r src) = scenes w.
Proof. unfold release_world. by case_bool_decide. Qed.

Lemma release_world_wf w i r src s hs l :
  i ∉ l → scene_wf w s hs l → scene_wf (release_world w i r src) s hs l.
Proof.
  intros Hi [[Hf Hl Hnd] Hhs Hpar Hlive].
  assert (∀ a, a ∈ l → items (release_world w i r src) !! a = items w !! a)
    as Hsame.
  { intros a Ha. apply release_world_other. by intros ->. }
  split; [split|..]; rewrite ?release_world_scenes; try done.
  - eapply dll_frame; [| |exact Hl]; intros a Ha; by rewrite Hsame.
  - rewrite Forall_forall in Hpar |- *. intros a Ha. rewrite Hsame; auto.
  - rewrite Forall_forall in Hlive |- *. intros a Ha. rewrite Hsame; auto.
Qed.

(** [obs_sceneitem_remove] on an item that is linked into a scene. *)
Lemma remove_linked w s hs l1 i l2 r src :
  scene_wf w s hs (l1 ++ i :: l2) →
  ref <$> items w !! i = Some r → source <$> items w !! i = Some src →
  let w' := release_world (unlinked w s hs i (last l1) (head l2) src) i r src in
  obs_sceneitem_remove (Some i) w = Ok tt w' ∧ scene_wf w' s hs (l1 ++ l2).
Proof.
  intros Hwf Hr Hsrc w'.
  pose proof (wf_list _ _ _ _ Hwf) as Hsl.
  assert (last l1 ≠ Some i) as Hp.
  { intros E. by destruct (wf_before _ _ _ _ _ _ Hsl E). }
  assert (head l2 ≠ Some i) as Hn.
  { intros E. by destruct (wf_after _ _ _ _ _ _ Hsl E). }
  split.
  - rewrite (remove_prefix _ _ _ _ _ _ _ Hwf Hsrc).
    apply release_exec.
    + rewrite unlinked_item by done. simpl. by destruct (items w !! i).
    + rewrite unlinked_item by done. simpl. by destruct (items w !! i).
  - apply release_world_wf; [|by apply unlinked_wf].
    destruct Hsl as [_ _ Hnd].
    apply NoDup_app in Hnd as (? & Hd & [? ?]%NoDup_cons).
    intros [?|?]%elem_of_app; [|done]. apply (Hd i); [done|by left].
Qed.

(** A second [obs_sceneitem_remove] finds the flag set and no scene to
    lock. *)
Lemma remove_again w i :
  parent <$> items w !! i = Some None → removed <$> items w !! i = Some true →
  obs_sceneitem_remove (Some i) w = Ok tt w.
Proof. intros Hpar Hrm. unfold obs_sceneitem_remove. by do 3 step. Qed.

End Remove.

(** * Adding *)

Section Add.
Context {FM : FloatModel}.
Implicit Types (h : gmap ptr obs_scene_item) (l : list ptr) (a i : ptr) (w : world).

(** The item [obs_scene_add] creates, linked after [p]. *)
Definition new_item (s src : ptr) (p : option ptr) : obs_scene_item :=
  SceneItem 1 false (Some s) (Some src) (Vec2 f_zero f_zero)
    (Vec2 f_zero f_zero) (Vec2 f_one f_one) f_zero true p None.

Definition added w (s hs src : ptr) l : world :=
  let i := fresh (dom (items w)) in
  World
    (opt_alter (set_next (Some i)) (last l)
       (<[i := new_item s src (last l)]> (items w)))
    (match l with
     | [] => alter (set_first_item (Some i)) s (scenes w)
     | _ => scenes w
     end)
    (trace w ++ [obs_source_addref (Some src);
                 obs_source_add_child (Some hs) (Some src);
                 signal_handler_signal hs "item_add" (Some s) (Some i)]).

Lemma fresh_not_listed w s l : scene_list w s l → fresh (dom (items w)) ∉ l.
Proof.
  intros Hl Hin. apply (is_fresh (dom (items w))), elem_of_dom.
  by eapply list_is_Some.
Qed.

Lemma alter_lock_unlock (s : ptr) (sc : gmap ptr obs_scene) :
  alter (λ c, set_mutex (Nat.pred (mutex c)) c) s
    (alter (λ c, set_mutex (S (mutex c)) c) s sc) = sc.
Proof.
  rewrite alter_alter_eq. apply alter_id. by intros [].
Qed.

Lemma add_exec w s hs src l :
  scene_wf w s hs l →
  obs_scene_add (Some s) (Some src) w =
    Ok (Some (fresh (dom (items w)))) (added w s hs src l).
Proof.
  intros Hwf. pose proof Hwf as [Hsl Hhs Hpar Hlive].
  pose proof Hsl as [Hf Hl Hnd].
  pose proof (fresh_not_listed _ _ _ Hsl) as Hfresh.
  pose proof (list_le_heap _ _ _ Hsl) as Hlen.
  unfold obs_scene_add. step.
  erewrite bind_Ok; [|apply bzalloc_Ok].
  set (i := fresh (dom (items w))) in *.
  unfold pthread_mutex_lock, pthread_mutex_unlock.
  repeat step. rewrite !alter_insert_eq.
  destruct l as [|a l'].
  - cbn [head]. repeat step. unfold mret, M_ret, added. fold i. cbn [last].
    world_simpl. f_equal. f_equal.
    + rewrite !alter_alter_eq. apply alter_ext. by intros [].
    + by rewrite <- !app_assoc.
  - cbn [head].
    destruct (last (a :: l')) as [z|] eqn:Hz; [|by apply last_None in Hz].
    assert (z ≠ i) as Hzi.
    { intros ->. by apply Hfresh, last_Some_elem_of. }
    assert (is_Some (items w !! z)) as Hzal.
    { eapply dll_is_Some; [exact Hl|]. by apply last_Some_elem_of. }
    erewrite bind_assoc, bind_Ok; [|eapply walk_to_last_Ok; [|exact Hz|]].
    + repeat step. unfold mret, M_ret, added. fold i. rewrite Hz.
      world_simpl. f_equal. f_equal.
      * rewrite alter_alter_ne by done. by rewrite alter_insert_eq.
      * apply alter_lock_unlock.
      * by rewrite <- !app_assoc.
    + world_simpl. eapply dll_frame; [| |exact Hl]; intros b Hb;
        (rewrite lookup_insert_ne; [done|by intros <-]).
    + simpl in Hlen. lia.
Qed.

Lemma added_item w s hs src l :
  scene_list w s l →
  items (added w s hs src l) !! fresh (dom (items w)) =
    Some (new_item s src (last l)).
Proof.
  intros Hsl. unfold added. world_simpl.
  destruct (last l) as [z|] eqn:Hz; world_simpl.
  - rewrite lookup_alter_ne, lookup_insert_eq; [done|].
    intros ->. by apply (fresh_not_listed _ _ _ Hsl), last_Some_elem_of.
  - by rewrite lookup_insert_eq.
Qed.

Lemma added_other {A} (g : obs_scene_item → A) w s hs src l a :
  (∀ v it, g (set_next v it) = g it) → a ≠ fresh (dom (items w)) →
  g <$> items (added w s hs src l) !! a = g <$> items w !! a.
Proof.
  intros Hg Hne. unfold added. world_simpl.
  rewrite fld_opt_alter_keep by done. by apply fld_insert_ne.
Qed.

Lemma added_wf w s hs src l :
  scene_wf w s hs l →
  scene_wf (added w s hs src l) s hs (l ++ [fresh (dom (items w))]).
Proof.
  intros Hwf. pose proof Hwf as [Hsl Hhs Hpar Hlive].
  pose proof Hsl as [Hf Hl Hnd].
  pose proof (fresh_not_listed _ _ _ Hsl) as Hfresh.
  pose proof (added_item w s hs src l Hsl) as Hitem.
  set (i := fresh (dom (items w))) in *.
  assert (∀ a, a ∈ l → a ≠ i) as Hne by (by intros a Ha ->).
  split; [split|..].
  - unfold added. world_simpl. destruct l as [|a l']; simpl.
    + fold i. rewrite fld_alter_eq. simpl. apply fld_const.
      by eapply fld_is_Some.
    + done.
  - apply dll_app. split.
    + eapply dll_set_tail; [done| | | |exact Hl].
      * intros a Ha. apply added_other; auto.
      * intros a Ha Hlast. unfold added. world_simpl. fold i.
        rewrite fld_opt_alter_ne by done. apply fld_insert_ne; auto.
      * intros a Hlast. unfold added. world_simpl. fold i. rewrite Hlast.
        world_simpl.
        rewrite fld_alter_eq, fld_insert_ne; [|by apply Hne, last_Some_elem_of].
        simpl. apply fld_const. eapply dll_is_Some; [exact Hl|].
        by apply last_Some_elem_of.
    + cbn [dll head_or]. rewrite Hitem. simpl. by rewrite last_or_None.
  - apply NoDup_app. split_and!; [done| |apply NoDup_singleton].
    intros a Ha ->%list_elem_of_singleton. by apply (Hne i).
  - unfold added. world_simpl. destruct l; [by fld|done].
  - apply Forall_app. split.
    + rewrite Forall_forall in Hpar |- *. intros a Ha.
      rewrite added_other; auto.
    + apply Forall_singleton. by rewrite Hitem.
  - apply Forall_app. split.
    + rewrite Forall_forall in Hlive |- *. intros a Ha.
      rewrite added_other; auto.
    + apply Forall_singleton. by rewrite Hitem.
Qed.

End Add.

(** * Emptying a scene *)

Section RemoveAll.
Context {FM : FloatModel}.
Implicit Types (h : gmap ptr obs_scene_item) (l : list ptr) (a i : ptr) (w : world).

(** An item without its links. *)
Definition payload (it : obs_scene_item) : obs_scene_item :=
  set_prev None (set_next None it).

Definition cell w a : option obs_scene_item := payload <$> items w !! a.

(** What removing the item [it] at [a] from the scene [s] adds to the
    trace. *)
Definition removal_trace (s hs a : ptr) (it : obs_scene_item) : list event :=
  [obs_source_remove_child (Some hs) (source it);
   signal_handler_signal hs "item_remove" (Some s) (Some a)] ++
  (if bool_decide (wrap_long (ref it - 1) = 0)
   then destroy_trace (source it) a else []).

Definition removal_trace_at w (s hs a : ptr) : list event :=
  from_option (removal_trace s hs a) [] (cell w a).

Lemma cell_Some w a it : items w !! a = Some it → cell w a = Some (payload it).
Proof. unfold cell. by intros ->. Qed.

Lemma cell_is_Some w a : is_Some (cell w a) ↔ is_Some (items w !! a).
Proof. unfold cell. by rewrite fmap_is_Some. Qed.

Lemma remove_linked_cell w s hs l1 i l2 r src a :
  a ≠ i →
  cell (release_world (unlinked w s hs i (last l1) (head l2) src) i r src) a
  = cell w a.
Proof.
  intros Hne. unfold cell. rewrite release_world_other by done.
  by apply unlinked_other.
Qed.

Lemma remove_linked_trace w s hs i p n r src it :
  items w !! i = Some it → r = ref it → src = source it →
  trace (release_world (unlinked w s hs i p n src) i r src) =
  trace w ++ removal_trace s hs i (payload it).
Proof.
  intros Hit -> ->. unfold release_world, removal_trace. simpl.
  case_bool_decide; simpl; [|done]. by rewrite <- app_assoc.
Qed.

Lemma remove_linked_mutex w s hs i p n r src :
  mutex <$> scenes (release_world (unlinked w s hs i p n src) i r src) !! s =
  mutex <$> scenes w !! s.
Proof. rewrite release_world_scenes. apply unlinked_mutex. Qed.

Lemma remove_all_loop_Ok s hs l : ∀ w fuel,
  scene_wf w s hs l → (length l ≤ fuel)%nat →
  ∃ w', remove_all_loop fuel (head l) w = Ok tt w' ∧
        scene_wf w' s hs [] ∧
        trace w' = trace w ++ concat (removal_trace_at w s hs <$> l) ∧
        mutex <$> scenes w' !! s = mutex <$> scenes w !! s.
Proof.
  induction l as [|a l IH]; intros w fuel Hwf Hfuel.
  - exists w. destruct fuel; simpl; by rewrite app_nil_r.
  - destruct fuel as [|k]; [simpl in Hfuel; lia|].
    destruct (list_is_Some w s (a :: l) a) as [it Hit];
      [apply Hwf|by left|].
    destruct (wf_cell w s hs [] a l Hwf) as (_ & Hn & _).
    destruct (remove_linked w s hs [] a l (ref it) (source it) Hwf)
      as [Hrun Hwf']; [by rewrite Hit..|].
    cbn [app] in Hwf'.
    destruct (IH _ k Hwf') as (w' & Hloop & Hwf'' & Htr & Hmx);
      [simpl in Hfuel; lia|].
    exists w'. split_and!; [|done|..].
    + cbn [head remove_all_loop]. step.
      erewrite bind_Ok; [|exact Hrun]. exact Hloop.
    + rewrite Htr. erewrite remove_linked_trace by done.
      rewrite fmap_cons. cbn [concat]. rewrite <- app_assoc. do 2 f_equal.
      * unfold removal_trace_at. by erewrite cell_Some.
      * f_equal. apply list_fmap_ext. intros j b Hb.
        unfold removal_trace_at. rewrite remove_linked_cell; [done|].
        intros ->. pose proof (sl_nodup _ _ _ (wf_list _ _ _ _ Hwf)) as Hnd.
        apply NoDup_cons in Hnd as [Hnin _]. apply Hnin.
        by eapply list_elem_of_lookup_2.
    + by rewrite Hmx, remove_linked_mutex.
Qed.


(** Taking or dropping the mutex does not touch the list. *)
Lemma scene_wf_mutex w s hs l (f : nat → nat) :
  scene_wf w s hs l →
  scene_wf (World (items w) (alter (λ sc, set_mutex (f (mutex sc)) sc) s (scenes w))
              (trace w)) s hs l.
Proof.
  intros [[Hf Hl Hnd] Hhs Hpar Hlive]. split; [split|..]; world_simpl;
    try done; by fld.
Qed.

Lemma remove_all_items_Ok w s hs l :
  scene_wf w s hs l →
  ∃ w', remove_all_items (Some s) w = Ok tt w' ∧
        scene_wf w' s hs [] ∧
        trace w' = trace w ++ concat (removal_trace_at w s hs <$> l) ∧
        mutex <$> scenes w' !! s = mutex <$> scenes w !! s.
Proof.
  intros Hwf.
  pose proof (list_le_heap _ _ _ (wf_list _ _ _ _ Hwf)) as Hlen.
  pose proof (scene_wf_mutex w s hs l S Hwf) as Hwf1.
  destruct (remove_all_loop_Ok s hs l _ (S (size (items w))) Hwf1)
    as (w2 & Hloop & Hwf2 & Htr & Hmx); [lia|].
  pose proof (scene_wf_mutex w2 s hs [] Nat.pred Hwf2) as Hwf3.
  eexists. split_and!; [|exact Hwf3|exact Htr|].
  - unfold remove_all_items, pthread_mutex_lock, pthread_mutex_unlock.
    pose proof (wf_host _ _ _ _ Hwf) as Hhs.
    pose proof (sl_first _ _ _ (wf_list _ _ _ _ Hwf)) as Hf.
    pose proof (wf_host _ _ _ _ Hwf2) as Hhs2.
    do 5 step. erewrite bind_Ok; [|exact Hloop]. do 2 step. reflexivity.
  - cbn [scenes] in Hmx |- *. rewrite fld_alter_eq in Hmx |- *.
    destruct (scenes w2 !! s) as [c2|], (scenes w !! s) as [c|];
      simpl in *; try done.
    injection Hmx as Hm. by rewrite Hm.
Qed.

End RemoveAll.

(** * Loading *)

Section Load.
Context {FM : FloatModel} (env : environment).
Implicit Types (h : gmap ptr obs_scene_item) (l : list ptr) (a i : ptr) (w : world).
Implicit Types (d : item_data) (rs : list item_data).

Definition resolve d : option ptr := obs_get_source_by_name env (d_name d).

(** The records whose source exists, with that source. *)
Definition resolved rs : list (item_data * ptr) :=
  omap (λ d, (d,.) <$> resolve d) rs.

(** The item [scene_load_item] makes of the record [d], without its links. *)
Definition loaded_item (s src : ptr) d : obs_scene_item :=
  SceneItem 1 false (Some s) (Some src) (d_origin d) (d_pos d) (d_scale d)
    (d2f (d_rot d)) (d_visible d) None None.

Definition not_found d : event :=
  blog LOG_WARNING ("[scene_load_item] Source " +:+ d_name d +:+ " not found!").

(** The trace of [load_loop], the items it creates being [new]. *)
Fixpoint load_trace (s hs : ptr) rs (new : list ptr) : list event :=
  match rs with
  | [] => []
  | d :: rs' =>
      match resolve d, new with
      | None, _ => not_found d :: load_trace s hs rs' new
      | Some src, i :: new' =>
          [obs_source_addref (Some src);
           obs_source_add_child (Some hs) (Some src);
           signal_handler_signal hs "item_add" (Some s) (Some i);
           obs_source_release (Some src)] ++ load_trace s hs rs' new'
      | Some _, [] => []
      end
  end.

Lemma scene_wf_transfer w w' s hs l :
  scene_wf w s hs l → scenes w' = scenes w →
  (∀ a, a ∈ l → prev <$> items w' !! a = prev <$> items w !! a) →
  (∀ a, a ∈ l → next <$> items w' !! a = next <$> items w !! a) →
  (∀ a, a ∈ l → parent <$> items w' !! a = parent <$> items w !! a) →
  (∀ a, a ∈ l → removed <$> items w' !! a = removed <$> items w !! a) →
  scene_wf w' s hs l.
Proof.
  intros [[Hf Hl Hnd] Hhs Hpar Hlive] Hsc Hp Hn Hpa Hrm.
  split; [split|..]; rewrite ?Hsc; try done.
  - by eapply dll_frame.
  - rewrite Forall_forall in Hpar |- *. intros a Ha. rewrite Hpa; auto.
  - rewrite Forall_forall in Hlive |- *. intros a Ha. rewrite Hrm; auto.
Qed.

Lemma scene_load_item_skip w s d :
  resolve d = None →
  scene_load_item env (Some s) d w =
    Ok tt (World (items w) (scenes w) (trace w ++ [not_found d])).
Proof. unfold resolve, scene_load_item. by intros ->. Qed.

Lemma scene_load_item_add w s hs l d src :
  resolve d = Some src → scene_wf w s hs l →
  let i := fresh (dom (items w)) in
  ∃ w', scene_load_item env (Some s) d w = Ok tt w' ∧
        scene_wf w' s hs (l ++ [i]) ∧
        cell w' i = Some (loaded_item s src d) ∧
        (∀ a, a ≠ i → cell w' a = cell w a) ∧
        trace w' = trace w ++
          [obs_source_addref (Some src);
           obs_source_add_child (Some hs) (Some src);
           signal_handler_signal hs "item_add" (Some s) (Some i);
           obs_source_release (Some src)].
Proof.
  intros Hres Hwf i.
  pose proof (added_item w s hs src l (wf_list _ _ _ _ Hwf)) as Hitem.
  pose proof (added_wf w s hs src l Hwf) as Hwf'. fold i in Hitem, Hwf'.
  eexists. split_and!.
  - unfold scene_load_item. fold (resolve d). rewrite Hres.
    erewrite bind_Ok; [|by apply add_exec]. fold i. repeat step. reflexivity.
  - eapply scene_wf_transfer; [exact Hwf'|done|..]; intros a _; world_simpl;
      by rewrite !fld_alter_keep.
  - unfold cell. world_simpl. rewrite !lookup_alter_eq, Hitem. simpl.
    unfold payload, loaded_item. simpl. done.
  - intros a Hne. unfold cell. world_simpl.
    rewrite !fld_alter_ne by done. by apply added_other.
  - unfold added. world_simpl. by rewrite <- app_assoc.
Qed.

Lemma load_loop_Ok s hs rs : ∀ w l,
  scene_wf w s hs l →
  ∃ w' new, load_loop env (Some s) rs w = Ok tt w' ∧
            scene_wf w' s hs (l ++ new) ∧
            Forall2 (λ i r, cell w' i = Some (loaded_item s r.2 r.1))
              new (resolved rs) ∧
            trace w' = trace w ++ load_trace s hs rs new ∧
            (∀ a, a ∈ l → cell w' a = cell w a).
Proof.
  induction rs as [|d rs IH]; intros w l Hwf.
  - exists w, []. rewrite !app_nil_r. by split_and!.
  - unfold resolved. cbn [load_loop omap list_omap load_trace].
    destruct (resolve d) as [src|] eqn:Hres; cbn [fmap option_fmap option_map].
    + destruct (scene_load_item_add w s hs l d src Hres Hwf)
        as (w1 & Hrun & Hwf1 & Hcell & Hframe & Htr).
      set (i := fresh (dom (items w))) in *.
      destruct (IH w1 _ Hwf1) as (w' & new & Hloop & Hwf' & Hnew & Htr' & Hfr').
      assert (i ∉ l) as Hi by apply (fresh_not_listed _ _ _ (wf_list _ _ _ _ Hwf)).
      exists w', (i :: new). split_and!.
      * erewrite bind_Ok; [|exact Hrun]. exact Hloop.
      * by rewrite (cons_middle i), app_assoc.
      * constructor; [|exact Hnew]. simpl. rewrite Hfr'; [done|].
        apply elem_of_app. right. by left.
      * rewrite Htr', Htr, <- app_assoc. done.
      * intros a Ha. rewrite Hfr' by (apply elem_of_app; by left).
        apply Hframe. by intros ->.
    + pose proof (scene_load_item_skip w s d Hres) as Hrun.
      destruct (IH (World (items w) (scenes w) (trace w ++ [not_found d])) l)
        as (w' & new & Hloop & Hwf' & Hnew & Htr' & Hfr').
      { eapply scene_wf_transfer; [exact Hwf|done..]. }
      exists w', new. split_and!; [|done|done| |done].
      * erewrite bind_Ok; [|exact Hrun]. exact Hloop.
      * rewrite Htr'. simpl. by rewrite <- app_assoc.
Qed.

(** [scene_load] on a settings object that carries an array of records. *)
Lemma scene_load_Ok w s hs l (settings : gmap string (list item_data)) rs :
  scene_wf w s hs l → settings !! "items" = Some rs →
  ∃ w' new, scene_load env (Some s) settings w = Ok tt w' ∧
            scene_wf w' s hs new ∧
            Forall2 (λ i r, cell w' i = Some (loaded_item s r.2 r.1))
              new (resolved rs) ∧
            trace w' = trace w ++ concat (removal_trace_at w s hs <$> l) ++
                       load_trace s hs rs new.
Proof.
  intros Hwf Hrs.
  destruct (remove_all_items_Ok w s hs l Hwf) as (w1 & Hrm & Hwf1 & Htr1 & Hmx1).
  destruct (load_loop_Ok s hs rs w1 [] Hwf1)
    as (w' & new & Hloop & Hwf' & Hnew & Htr' & _).
  exists w', new. split_and!; [|done|done|by rewrite Htr', Htr1, app_assoc].
  unfold scene_load. rewrite Hrs. erewrite bind_Ok; [|exact Hrm]. exact Hloop.
Qed.

End Load.

(** * Saving *)

Section Save.
Context {FM : FloatModel} (env : environment).
Implicit Types (h : gmap ptr obs_scene_item) (l : list ptr) (a i : ptr) (w : world).
Implicit Types (d : item_data) (rs : list item_data).

(** The record [scene_save_item] writes for an item. *)
Definition save_record (it : obs_scene_item) : item_data :=
  ItemData (obs_source_getname env (source it)) (visible it) (f2d (rot it))
    (origin it) (pos it) (scale it).

(** The items at the addresses [l]. *)
Definition cells w l : list obs_scene_item := omap (λ a, items w !! a) l.

Lemma cells_cons w a l it :
  items w !! a = Some it → cells w (a :: l) = it :: cells w l.
Proof. unfold cells. simpl. by intros ->. Qed.

Lemma save_loop_Ok w l : ∀ p fuel array,
  dll (items w) p l None → (length l ≤ fuel)%nat →
  save_loop env fuel array (head l) w =
    Ok (array ++ (save_record <$> cells w l)) w.
Proof.
  induction l as [|a l IH]; intros p fuel array Hl Hfuel.
  - destruct fuel; simpl; by rewrite app_nil_r.
  - destruct fuel as [|k]; [simpl in Hfuel; lia|].
    destruct (dll_is_Some _ _ _ _ a Hl) as [it Hit]; [by left|].
    destruct Hl as (_ & Hn & Hl). rewrite head_or_None in Hn.
    cbn [head save_loop]. unfold scene_save_item. repeat step.
    erewrite (IH (Some a) k); [|done|simpl in Hfuel; lia].
    rewrite (cells_cons _ _ _ _ Hit), fmap_cons, <- app_assoc. done.
Qed.

(** [scene_save] leaves the store as it found it. *)
Lemma scene_save_Ok w s l (settings : gmap string (list item_data)) :
  scene_list w s l →
  scene_save env (Some s) settings w =
    Ok (<["items" := save_record <$> cells w l]> settings) w.
Proof.
  intros Hsl. pose proof Hsl as [Hf Hl Hnd].
  pose proof (list_le_heap _ _ _ Hsl) as Hlen.
  unfold scene_save, pthread_mutex_lock, pthread_mutex_unlock.
  do 5 step.
  erewrite bind_Ok; [|eapply (save_loop_Ok _ l None); [done|simpl; lia]].
  do 2 step. unfold mret, M_ret. world_simpl.
  rewrite alter_lock_unlock. by destruct w.
Qed.

End Save.

(** * Rendering *)

Section Render.
Context {FM : FloatModel} (env : environment).
Implicit Types (h : gmap ptr obs_scene_item) (l : list ptr) (a i : ptr) (w : world).

Definition item_gone (it : obs_scene_item) : bool :=
  obs_source_removed env (source it).

(** The graphics calls and the source call for one item. *)
Definition draw_trace (it : obs_scene_item) : list event :=
  [gs_matrix_push;
   gs_matrix_translate3f (x (origin it)) (y (origin it)) f_zero;
   gs_matrix_scale3f (x (scale it)) (y (scale it)) f_one;
   gs_matrix_rotaa4f f_zero f_zero f_one (RAD (f_neg (rot it)));
   gs_matrix_translate3f (f_neg (x (pos it))) (f_neg (y (pos it))) f_zero;
   obs_source_video_render (source it);
   gs_matrix_pop].

Definition render_trace (s hs a : ptr) (it : obs_scene_item) : list event :=
  if item_gone it then removal_trace s hs a it else draw_trace it.

Definition render_trace_at w (s hs a : ptr) : list event :=
  from_option (render_trace s hs a) [] (cell w a).

(** The source of the item at [a] has not been removed. *)
Definition kept w a : Prop := item_gone <$> cell w a = Some false.

Global Instance kept_dec w a : Decision (kept w a).
Proof. unfold kept. apply _. Defined.

Lemma filter_ext_in {A} (P Q : A → Prop) `{!∀ x, Decision (P x)}
    `{!∀ x, Decision (Q x)} (k : list A) :
  (∀ x, x ∈ k → P x ↔ Q x) → filter P k = filter Q k.
Proof.
  induction k as [|b k IH]; intros Hext; [done|].
  rewrite !filter_cons, IH by (intros; apply Hext; by right).
  assert (P b ↔ Q b) as Hb by (apply Hext; by left).
  destruct (decide (P b)), (decide (Q b)); try done; tauto.
Qed.

Lemma render_loop_Ok s hs rest : ∀ done_ w fuel,
  scene_wf w s hs (done_ ++ rest) → (length rest ≤ fuel)%nat →
  ∃ w', render_loop env fuel (head rest) w = Ok tt w' ∧
        scene_wf w' s hs (done_ ++ filter (kept w) rest) ∧
        trace w' = trace w ++ concat (render_trace_at w s hs <$> rest) ∧
        mutex <$> scenes w' !! s = mutex <$> scenes w !! s.
Proof.
  induction rest as [|a rest IH]; intros done_ w fuel Hwf Hfuel.
  - exists w. rewrite app_nil_r in Hwf.
    destruct fuel; simpl; by rewrite !app_nil_r.
  - destruct fuel as [|k]; [simpl in Hfuel; lia|].
    pose proof (wf_list _ _ _ _ Hwf) as Hsl.
    destruct (list_is_Some w s _ a Hsl) as [it Hit];
      [apply elem_of_app; right; by left|].
    destruct (wf_cell w s hs done_ a rest Hwf) as (_ & Hn & _).
    assert (∀ b, b ∈ rest → b ≠ a) as Hne.
    { intros b Hb ->. destruct Hsl as [_ _ Hnd].
      by apply NoDup_app in Hnd as (_ & _ & [? _]%NoDup_cons). }
    cbn [head render_loop]. step.
    rewrite fmap_cons. cbn [concat]. unfold render_trace_at at 1.
    rewrite (cell_Some _ _ _ Hit). cbn [from_option]. unfold render_trace.
    change (item_gone (payload it)) with (obs_source_removed env (source it)).
    destruct (obs_source_removed env (source it)) eqn:Hgone.
    + destruct (remove_linked w s hs done_ a rest (ref it) (source it) Hwf)
        as [Hrun Hwf1]; [by rewrite Hit..|].
      destruct (IH done_ _ k Hwf1) as (w' & Hloop & Hwf' & Htr & Hmx);
        [simpl in Hfuel; lia|].
      exists w'. split_and!.
      * step. erewrite bind_Ok; [|exact Hrun]. exact Hloop.
      * rewrite filter_cons_False.
        2:{ unfold kept. rewrite (cell_Some _ _ _ Hit). simpl.
            unfold item_gone. simpl. by rewrite Hgone. }
        erewrite filter_ext_in; [exact Hwf'|]. intros b Hb. unfold kept.
        by rewrite remove_linked_cell by auto.
      * rewrite Htr. erewrite remove_linked_trace by done.
        rewrite <- app_assoc. do 3 f_equal. apply list_fmap_ext.
        intros j b Hb. unfold render_trace_at.
        rewrite remove_linked_cell; [done|].
        apply Hne. by eapply list_elem_of_lookup_2.
      * by rewrite Hmx, remove_linked_mutex.
    + set (w1 := World (items w) (scenes w) (trace w ++ draw_trace it)).
      assert (scene_wf w1 s hs ((done_ ++ [a]) ++ rest)) as Hwf1.
      { rewrite <- app_assoc. eapply scene_wf_transfer; [exact Hwf|done..]. }
      destruct (IH (done_ ++ [a]) w1 k Hwf1) as (w' & Hloop & Hwf' & Htr & Hmx);
        [simpl in Hfuel; lia|].
      exists w'. split_and!; [| | |exact Hmx].
      * repeat step. rewrite <- !app_assoc. exact Hloop.
      * rewrite filter_cons_True.
        2:{ unfold kept. rewrite (cell_Some _ _ _ Hit). simpl.
            unfold item_gone. simpl. by rewrite Hgone. }
        by rewrite (cons_middle a), app_assoc.
      * rewrite Htr. subst w1. cbn [trace]. by rewrite <- app_assoc.
Qed.

(** [scene_video_render] on a well-formed scene. *)
Lemma scene_video_render_Ok w s hs l :
  scene_wf w s hs l →
  ∃ w', scene_video_render env (Some s) w = Ok tt w' ∧
        scene_wf w' s hs (filter (kept w) l) ∧
        trace w' = trace w ++ concat (render_trace_at w s hs <$> l) ∧
        mutex <$> scenes w' !! s = mutex <$> scenes w !! s.
Proof.
  intros Hwf.
  pose proof (list_le_heap _ _ _ (wf_list _ _ _ _ Hwf)) as Hlen.
  pose proof (scene_wf_mutex w s hs l S Hwf) as Hwf1.
  destruct (render_loop_Ok s hs l [] _ (S (size (items w))) Hwf1)
    as (w2 & Hloop & Hwf2 & Htr & Hmx); [lia|].
  pose proof (scene_wf_mutex w2 s hs _ Nat.pred Hwf2) as Hwf3.
  eexists. split_and!; [|exact Hwf3|exact Htr|].
  - unfold scene_video_render, pthread_mutex_lock, pthread_mutex_unlock.
    pose proof (wf_host _ _ _ _ Hwf) as Hhs.
    pose proof (sl_first _ _ _ (wf_list _ _ _ _ Hwf)) as Hf.
    pose proof (wf_host _ _ _ _ Hwf2) as Hhs2.
    do 5 step. erewrite bind_Ok; [|exact Hloop]. do 2 step. reflexivity.
  - cbn [scenes] in Hmx |- *. rewrite fld_alter_eq in Hmx |- *.
    destruct (scenes w2 !! s) as [c2|], (scenes w !! s) as [c|];
      simpl in *; try done.
    injection Hmx as Hm. by rewrite Hm.
Qed.

End Render.

(** * Sequences of addref and release *)

Section RefSequences.
Context {FM : FloatModel}.
Implicit Types (i : ptr) (w : world).

Inductive refop := Addref | Release.

Global Instance refop_eq_dec : EqDecision refop.
Proof. solve_decision. Defined.

Definition run_op i (o : refop) : M unit :=
  match o with
  | Addref => obs_sceneitem_addref (Some i)
  | Release => obs_sceneitem_release (Some i)
  end.

Fixpoint run_ops i (ops : list refop) : M unit :=
  match ops with
  | [] => mret tt
  | o :: ops' => run_op i o;; run_ops i ops'
  end.

Definition count_op (o : refop) (ops : list refop) : nat :=
  length (filter (λ o', o' = o) ops).

(** The change of the count over [ops], were the counter unbounded. *)
Definition delta (o : refop) : Z :=
  match o with
  | Addref => 1
  | Release => -1
  end.

Fixpoint balance (ops : list refop) : Z :=
  match ops with
  | [] => 0
  | o :: ops' => delta o + balance ops'
  end.

Lemma wrap_long_id z : LONG_MIN ≤ z ≤ LONG_MAX → wrap_long z = z.
Proof.
  unfold wrap_long, LONG_MIN, LONG_MAX, LONG_BITS. intros Hz.
  rewrite Z.mod_small; lia.
Qed.

Lemma balance_app ops1 ops2 : balance (ops1 ++ ops2) = balance ops1 + balance ops2.
Proof. induction ops1 as [|o ops1 IH]; simpl; lia. Qed.

Lemma balance_counts ops :
  balance ops = Z.of_nat (count_op Addref ops) - Z.of_nat (count_op Release ops).
Proof.
  unfold count_op. induction ops as [|[] ops IH]; [done|..];
    rewrite !filter_cons; simpl; rewrite IH; simpl; lia.
Qed.

Lemma count_op_take o k ops : (count_op o (take k ops) ≤ count_op o ops)%nat.
Proof.
  unfold count_op. rewrite <- (take_drop k ops) at 2.
  rewrite filter_app, length_app. lia.
Qed.

Lemma run_ops_app i ops1 ops2 w :
  run_ops i (ops1 ++ ops2) w = (run_ops i ops1;; run_ops i ops2) w.
Proof.
  revert w. induction ops1 as [|o ops1 IH]; intros w; simpl; [done|].
  rewrite bind_assoc. unfold mbind, M_bind.
  destruct (run_op i o w); [apply IH|done].
Qed.

(** While the count stays between 1 and [LONG_MAX] the item is only
    counted. *)
Lemma run_ops_alive i src ops : ∀ w r,
  ref <$> items w !! i = Some r → source <$> items w !! i = Some src →
  (∀ k, (k ≤ length ops)%nat → 1 ≤ r + balance (take k ops) ≤ LONG_MAX) →
  ∃ w', run_ops i ops w = Ok tt w' ∧
        ref <$> items w' !! i = Some (r + balance ops) ∧
        source <$> items w' !! i = Some src ∧
        delete i (items w') = delete i (items w) ∧
        scenes w' = scenes w ∧ trace w' = trace w.
Proof.
  induction ops as [|o ops IH]; intros w r Hr Hsrc Hb.
  - exists w. rewrite Z.add_0_r. by split_and!.
  - pose proof (Hb 0%nat ltac:(simpl; lia)) as H0.
    pose proof (Hb 1%nat ltac:(simpl; lia)) as H1. simpl in H0, H1.
    rewrite Z.add_0_r in H0, H1.
    assert (LONG_MIN ≤ r + delta o ≤ LONG_MAX) as Hrange.
    { unfold LONG_MIN, LONG_MAX, LONG_BITS in *. lia. }
    set (w1 := World (alter (set_ref (r + delta o)) i (items w)) (scenes w)
                 (trace w)).
    assert (run_op i o w = Ok tt w1) as Hstep.
    { destruct o; cbn [run_op delta] in *.
      - rewrite (addref_exec _ _ _ Hr). unfold addref_world.
        by rewrite wrap_long_id.
      - rewrite (release_exec _ _ _ _ Hr Hsrc). unfold release_world.
        replace (r - 1) with (r + -1) by lia. rewrite wrap_long_id by done.
        rewrite bool_decide_eq_false_2; [done|lia]. }
    destruct (IH w1 (r + delta o)) as (w' & Hrun & Hr' & Hsrc' & Hdel & Hsc & Htr).
    + subst w1. world_simpl. rewrite fld_alter_eq. simpl. apply fld_const.
      by eapply fld_is_Some.
    + subst w1. by fld.
    + intros k Hk. specialize (Hb (S k) ltac:(simpl; lia)). simpl in Hb. lia.
    + exists w'. split_and!; try done.
      * simpl. erewrite bind_Ok; [|exact Hstep]. exact Hrun.
      * rewrite Hr'. f_equal. simpl. lia.
      * rewrite Hdel. subst w1. simpl. apply delete_alter_eq.
Qed.

End RefSequences.

(** * The walk of the renderer, item by item *)

Section RenderWalk.
Context {FM : FloatModel} (env : environment).
Implicit Types (l : list ptr) (a i : ptr) (w : world).



Lemma bind_ret_Ok {A B} (m : M A) (f : A → M B) w :
  ((m ≫= mret) ≫= f) w = (m ≫= f) w.
Proof. unfold mbind, M_bind, mret, M_ret. by destruct (m w). Qed.






End RenderWalk.

(** * The properties of the specification *)

Section Claims.
Context {FM : FloatModel} (env : environment).
Implicit Types (l : list ptr) (a i : ptr) (w : world).

(** C1 (the code does otherwise): moving the head item up, or the tail item
    down, does not attach it at the boundary.  [detach_sceneitem] has cleared
    the parent of the item, [attach_sceneitem] is called with a NULL
    predecessor, and its own [assert(item->parent != NULL)] fails. *)
Theorem setorder_at_extreme_faults w s hs l i :
  scene_wf w s hs l →
  (head l = Some i →
   obs_sceneitem_setorder (Some i) ORDER_MOVE_UP w = Crash AssertFailed) ∧
  (last l = Some i →
   obs_sceneitem_setorder (Some i) ORDER_MOVE_DOWN w = Crash AssertFailed).
Proof.
  intros Hwf. split.
  - intros [l2 ->]%head_Some. by eapply setorder_up_first.
  - intros [l1 ->]%last_Some. by eapply setorder_down_last.
Qed.

(** C2 (the code does otherwise): moving an item that is not the head up
    re-attaches it after its former predecessor, not after the predecessor of
    that one, so the paint order of the scene is what it was. *)
Theorem setorder_up_keeps_place w s hs l1 pp i l2 :
  scene_wf w s hs (l1 ++ pp :: i :: l2) →
  ∃ w', obs_sceneitem_setorder (Some i) ORDER_MOVE_UP w = Ok tt w' ∧
        scene_list w' s (l1 ++ pp :: i :: l2) ∧
        parent <$> items w' !! i = Some None.
Proof.
  intros Hwf. destruct (setorder_up_inner w s hs l1 pp i l2 Hwf)
    as (w' & Hrun & Hl & Hpar & _).
  by exists w'.
Qed.

(** C3 (the code does otherwise): moving any linked item to the bottom does
    not make it the head; the call stops at the failed assertion of
    [attach_sceneitem], as in C1. *)
Theorem setorder_bottom_faults w s hs l i :
  scene_wf w s hs l → i ∈ l →
  obs_sceneitem_setorder (Some i) ORDER_MOVE_BOTTOM w = Crash AssertFailed.
Proof.
  intros Hwf (l1 & l2 & ->)%list_elem_of_split. by eapply setorder_bottom_any.
Qed.

(** C4 (amended): for an item linked into a scene whose count is at least 2,
    so that it outlives the release of the list's reference, two calls of
    remove give one "item_remove" signal, one unlink and one release; the
    second call changes nothing.  Remove on the empty item changes
    nothing. *)
Theorem remove_twice_once w s hs l1 i l2 it :
  scene_wf w s hs (l1 ++ i :: l2) → items w !! i = Some it →
  2 ≤ ref it ≤ LONG_MAX →
  ∃ w1, obs_sceneitem_remove (Some i) w = Ok tt w1 ∧
        obs_sceneitem_remove (Some i) w1 = Ok tt w1 ∧
        trace w1 = trace w ++
          [obs_source_remove_child (Some hs) (source it);
           signal_handler_signal hs "item_remove" (Some s) (Some i)] ∧
        scene_wf w1 s hs (l1 ++ l2) ∧
        items w1 !! i =
          Some (set_ref (ref it - 1) (set_parent None (set_removed true it))) ∧
        obs_sceneitem_remove None w = Ok tt w.
Proof.
  intros Hwf Hit Href.
  destruct (remove_linked w s hs l1 i l2 (ref it) (source it) Hwf)
    as [Hrun Hwf1]; [by rewrite Hit..|].
  pose proof (wf_list _ _ _ _ Hwf) as Hsl.
  assert (last l1 ≠ Some i) as Hp.
  { intros E. by destruct (wf_before _ _ _ _ _ _ Hsl E). }
  assert (head l2 ≠ Some i) as Hn.
  { intros E. by destruct (wf_after _ _ _ _ _ _ Hsl E). }
  assert (wrap_long (ref it - 1) = ref it - 1) as Hwrap.
  { apply wrap_long_id. unfold LONG_MIN, LONG_MAX, LONG_BITS in *. lia. }
  set (w1 := release_world _ i (ref it) (source it)) in *.
  assert (items w1 !! i =
    Some (set_ref (ref it - 1) (set_parent None (set_removed true it)))) as Hi1.
  { subst w1. unfold release_world. rewrite Hwrap.
    rewrite bool_decide_eq_false_2 by lia. unfold unlinked, detach_heap.
    world_simpl. rewrite lookup_alter_eq, lookup_alter_eq.
    assert (∀ f o (h : gmap ptr obs_scene_item),
      o ≠ Some i → opt_alter f o h !! i = h !! i) as Hskip.
    { intros f [k|] h Hk; simpl; [|done]. apply lookup_alter_ne. congruence. }
    rewrite !Hskip by done. by rewrite lookup_alter_eq, Hit. }
  exists w1. split_and!; [done| | |done|done|done].
  - apply remove_again; by rewrite Hi1.
  - subst w1. unfold release_world. rewrite Hwrap.
    by rewrite bool_decide_eq_false_2 by lia.
Qed.


(** C7: load empties the scene and then adds one item per record whose source
    exists, in the order of the records; a record whose source does not exist
    costs a warning and nothing else. *)
Theorem scene_load_partial w s hs l (settings : gmap string (list item_data)) rs :
  scene_wf w s hs l → settings !! "items" = Some rs →
  ∃ w' new, scene_load env (Some s) settings w = Ok tt w' ∧
            scene_wf w' s hs new ∧
            Forall2 (λ i r, cell w' i = Some (loaded_item s r.2 r.1))
              new (resolved env rs) ∧
            trace w' = trace w ++ concat (removal_trace_at w s hs <$> l) ++
                       load_trace env s hs rs new.
Proof. apply scene_load_Ok. Qed.


(** C10: every accessor leaves the empty item alone. *)
Theorem null_item_accessors w (v out : vec2) (r : float) :
  obs_sceneitem_setpos None v w = Ok tt w ∧
  obs_sceneitem_setrot None r w = Ok tt w ∧
  obs_sceneitem_setorigin None v w = Ok tt w ∧
  obs_sceneitem_setscale None v w = Ok tt w ∧
  obs_sceneitem_getpos None out w = Ok out w ∧
  obs_sceneitem_getorigin None out w = Ok out w ∧
  obs_sceneitem_getscale None out w = Ok out w ∧
  obs_sceneitem_getrot None w = Ok f_zero w ∧
  obs_sceneitem_getscene None w = Ok None w ∧
  obs_sceneitem_getsource None w = Ok None w.
Proof. by split_and!. Qed.

Lemma Forall2_join {A B C} (P : A → C → Prop) (Q : B → C → Prop) xs ys zs :
  Forall2 P xs zs → Forall2 Q ys zs →
  Forall2 (λ x y, ∃ z, P x z ∧ Q y z) xs ys.
Proof.
  intros HP. revert ys. induction HP as [|x z xs zs Hx _ IH]; intros ys HQ.
  - inversion HQ. constructor.
  - inversion HQ as [|y ? ys' ? Hy HQ']; subst. constructor; eauto.
Qed.

Lemma cells_Forall2 w l :
  (∀ a, a ∈ l → is_Some (items w !! a)) →
  Forall2 (λ a it, items w !! a = Some it) l (cells w l).
Proof.
  induction l as [|a l IH]; intros Hal; [constructor|].
  destruct (Hal a) as [it Hit]; [by left|].
  rewrite (cells_cons _ _ _ _ Hit). constructor; [done|].
  apply IH. intros; apply Hal; by right.
Qed.

(** The records of resolvable items resolve, one for one. *)
Lemma resolved_saved (its : list obs_scene_item) :
  Forall (λ it, is_Some (obs_get_source_by_name env
                           (obs_source_getname env (source it)))) its →
  Forall2 (λ it r, r.1 = save_record env it) its
    (resolved env (save_record env <$> its)).
Proof.
  induction 1 as [|it its [src Hsrc] _ IH]; [constructor|].
  unfold resolved. cbn [fmap list_fmap omap list_omap].
  unfold resolve at 1. cbn [d_name save_record]. rewrite Hsrc.
  by constructor.
Qed.

(** The records of resolvable items resolve to the source that the registry
    holds under the name of the item's source. *)
Lemma resolved_saved_source (its : list obs_scene_item) :
  Forall (λ it, is_Some (obs_get_source_by_name env
                           (obs_source_getname env (source it)))) its →
  Forall2 (λ it r, r.1 = save_record env it ∧
                   obs_get_source_by_name env
                     (obs_source_getname env (source it)) = Some r.2) its
    (resolved env (save_record env <$> its)).
Proof.
  induction 1 as [|it its [src Hsrc] _ IH]; [constructor|].
  unfold resolved. cbn [fmap list_fmap omap list_omap].
  unfold resolve at 1. cbn [d_name save_record]. rewrite Hsrc.
  by constructor.
Qed.

(** C6: the records saved from a scene whose sources all resolve, loaded into
    an empty scene, give as many items in the same order.  Each new item
    wraps the source that the registry holds under the name of its
    original's source, belongs to the scene loaded into, is not removed and
    has count 1, and it has the rotation, visibility, origin, position and
    scale of its original. *)
Theorem save_load_round_trip w s hs l s2 hs2
    (settings : gmap string (list item_data)) :
  scene_wf w s hs l → scene_wf w s2 hs2 [] →
  Forall (λ it, is_Some (obs_get_source_by_name env
                           (obs_source_getname env (source it)))) (cells w l) →
  ∃ saved w' l2,
    scene_save env (Some s) settings w = Ok saved w ∧
    scene_load env (Some s2) saved w = Ok tt w' ∧
    scene_wf w' s2 hs2 l2 ∧
    length l2 = length l ∧
    Forall2 (λ a b, ∃ ita itb,
               items w !! a = Some ita ∧ items w' !! b = Some itb ∧
               source itb = obs_get_source_by_name env
                              (obs_source_getname env (source ita)) ∧
               is_Some (source itb) ∧
               parent itb = Some s2 ∧ removed itb = false ∧ ref itb = 1 ∧
               rot itb = rot ita ∧ visible itb = visible ita ∧
               origin itb = origin ita ∧ pos itb = pos ita ∧
               scale itb = scale ita) l l2.
Proof.
  intros Hwf Hwf2 Hres.
  pose proof (scene_save_Ok env w s l settings (wf_list _ _ _ _ Hwf)) as Hsave.
  destruct (scene_load_Ok env w s2 hs2 []
              (<["items" := save_record env <$> cells w l]> settings)
              (save_record env <$> cells w l) Hwf2)
    as (w' & l2 & Hload & Hwf' & Hnew & _); [apply lookup_insert_eq|].
  apply resolved_saved_source in Hres.
  pose proof (cells_Forall2 w l
    (λ a, list_is_Some w s l a (wf_list _ _ _ _ Hwf))) as Hcells.
  pose proof (Forall2_join _ _ _ _ _ Hres Hnew) as Hmid.
  apply Forall2_flip in Hmid.
  pose proof (Forall2_join _ _ _ _ _ Hcells Hmid) as Hall.
  exists (<["items" := save_record env <$> cells w l]> settings), w', l2.
  split_and!; [done..| |].
  { rewrite <- (Forall2_length _ _ _ Hall). done. }
  eapply Forall2_impl; [exact Hall|].
  intros a b (ita & Hita & Hflip). unfold flip in Hflip.
  destruct Hflip as ([d src] & [Hr Hreg] & Hb). unfold cell in Hb.
  destruct (items w' !! b) as [itb|] eqn:Hitb; [|done].
  exists ita, itb. simpl in Hr, Hreg, Hb. subst d.
  injection Hb as Href Hrm Hpar Hsrc Horg Hpos Hscl Hrot Hvis.
  rewrite d2f_f2d in Hrot. rewrite Hreg.
  by split_and!.
Qed.

(** C9 (amended): an item with count 1 receives [M] addrefs and [M + 1]
    releases, [M + 1] not beyond [LONG_MAX], in an order in which the count is
    at least 1 before the last call.  Then the run ends with the item
    destroyed, the trace has gained the one destruction and nothing else, and
    after every shorter prefix the item is still there and nothing has been
    destroyed. *)
Theorem refcount_destroyed_once (M : nat) (ops : list refop) w i it :
  items w !! i = Some it → ref it = 1 →
  count_op Addref ops = M → count_op Release ops = S M →
  Z.of_nat M < LONG_MAX →
  (∀ k, (k < length ops)%nat → 0 ≤ balance (take k ops)) →
  run_ops i ops w =
    Ok tt (World (delete i (items w)) (scenes w)
             (trace w ++ destroy_trace (source it) i)) ∧
  (∀ k, (k < length ops)%nat →
        ∃ wk, run_ops i (take k ops) w = Ok tt wk ∧
              is_Some (items wk !! i) ∧ trace wk = trace w).
Proof.
  intros Hit Hone Hadd Hrel HM Hpre.
  pose proof (balance_counts ops) as Hbal. rewrite Hadd, Hrel in Hbal.
  assert (∀ k, (k < length ops)%nat →
            1 ≤ 1 + balance (take k ops) ≤ LONG_MAX) as Hrange.
  { intros k Hk. split; [specialize (Hpre k Hk); lia|].
    rewrite balance_counts.
    pose proof (count_op_take Addref k ops). lia. }
  assert (∀ k, (k < length ops)%nat →
            ∃ wk, run_ops i (take k ops) w = Ok tt wk ∧
                  ref <$> items wk !! i = Some (1 + balance (take k ops)) ∧
                  source <$> items wk !! i = Some (source it) ∧
                  delete i (items wk) = delete i (items w) ∧
                  scenes wk = scenes w ∧ trace wk = trace w) as Halive.
  { intros k Hk. apply run_ops_alive;
      [rewrite Hit; simpl; congruence|by rewrite Hit|].
    intros j Hj. rewrite length_take in Hj. rewrite take_take.
    apply Hrange. eapply Nat.le_lt_trans; [apply Nat.le_min_r|done]. }
  split.
  - destruct ops as [|o ops0 _] using rev_ind; [discriminate Hrel|].
    rewrite length_app in Halive, Hpre. simpl in Halive, Hpre.
    destruct (Halive (length ops0)) as (w1 & Hrun & Hr & Hsrc & Hdel & Hsc & Htr);
      [lia|].
    specialize (Hpre (length ops0) ltac:(lia)).
    rewrite take_app_length in Hrun, Hr, Hpre.
    rewrite balance_app in Hbal. simpl in Hbal.
    assert (o = Release ∧ balance ops0 = 0) as [-> Hz].
    { destruct o; simpl in Hbal; [lia|split; [done|lia]]. }
    rewrite run_ops_app. erewrite bind_Ok; [|exact Hrun].
    cbn [run_ops run_op]. erewrite bind_Ok; [|by apply release_exec].
    unfold release_world. rewrite Hz, bool_decide_eq_true_2 by by vm_compute.
    unfold mret, M_ret. by rewrite Hdel, Hsc, Htr.
  - intros k Hk. destruct (Halive k Hk) as (wk & Hrun & Hr & _ & _ & _ & Htr).
    exists wk. split_and!; [done| |done]. by eapply fld_is_Some.
Qed.

End Claims.

(** * The theorems on a sample store

    A scene at address 100, presented by the source 50, with the items 1, 2
    and 3 on the sources 11, 12 and 13; a second, empty scene at 200.  The
    floats of the sample are the integers, widened and narrowed by the
    identity. *)

Section Sample.

#[local] Instance sample_floats : FloatModel := {|
  float := Z; double := Z; f_zero := 0; f_one := 1; f_neg := Z.opp;
  RAD := λ d, d; f2d := λ f, f; d2f := λ d, d; d2f_f2d := λ _, eq_refl |}.

Definition sample_item (r : Z) (src : ptr) (p n : option ptr) (angle : Z)
    : obs_scene_item :=
  SceneItem r false (Some 100%positive) (Some src) (Vec2 0 0) (Vec2 3 4)
    (Vec2 1 1) angle true p n.

Definition sample_scene : world :=
  World
    (list_to_map
       [(1%positive, sample_item 1 11%positive None (Some 2%positive) 10);
        (2%positive,
         sample_item 2 12%positive (Some 1%positive) (Some 3%positive) 20);
        (3%positive, sample_item 1 13%positive (Some 2%positive) None 30)])
    (list_to_map
       [(100%positive, Scene (Some 50%positive) 0 (Some 1%positive));
        (200%positive, Scene (Some 60%positive) 0 None)])
    [].

(** The source 12 has been removed; the registry knows "a", "b" and "c". *)
Definition sample_env : environment :=
  Env (λ src, bool_decide (src = Some 12%positive))
    (λ name,
       if decide (name = "a") then Some 11%positive
       else if decide (name = "b") then Some 12%positive
       else if decide (name = "c") then Some 13%positive
       else None)
    (λ src,
       if decide (src = Some 11%positive) then "a"
       else if decide (src = Some 12%positive) then "b"
       else if decide (src = Some 13%positive) then "c"
       else "").

Definition sample_records : list item_data :=
  [ItemData "a" true 15 (Vec2 1 2) (Vec2 3 4) (Vec2 5 6);
   ItemData "nowhere" true 25 (Vec2 0 0) (Vec2 0 0) (Vec2 1 1);
   ItemData "c" false 35 (Vec2 7 8) (Vec2 9 10) (Vec2 2 2)].

Ltac wf_compute :=
  split; [split|..];
  [ reflexivity
  | vm_compute; repeat split
  | compute_done
  | reflexivity
  | repeat constructor
  | repeat constructor ].

Lemma setorder_at_extreme_faults_sample :
  scene_wf sample_scene 100%positive 50%positive [1; 2; 3]%positive ∧
  obs_sceneitem_setorder (Some 1%positive) ORDER_MOVE_UP sample_scene =
    Crash AssertFailed ∧
  obs_sceneitem_setorder (Some 3%positive) ORDER_MOVE_DOWN sample_scene =
    Crash AssertFailed.
Proof.
  assert (scene_wf sample_scene 100%positive 50%positive [1; 2; 3]%positive)
    as Hwf by wf_compute.
  split_and!; [exact Hwf|..].
  - apply (setorder_at_extreme_faults sample_scene 100%positive 50%positive
             [1; 2; 3]%positive 1%positive Hwf). reflexivity.
  - apply (setorder_at_extreme_faults sample_scene 100%positive 50%positive
             [1; 2; 3]%positive 3%positive Hwf). reflexivity.
Defined.

Lemma setorder_up_keeps_place_sample :
  scene_wf sample_scene 100%positive 50%positive [1; 2; 3]%positive ∧
  ∃ w', obs_sceneitem_setorder (Some 2%positive) ORDER_MOVE_UP sample_scene =
          Ok tt w' ∧
        scene_list w' 100%positive [1; 2; 3]%positive ∧
        parent <$> items w' !! 2%positive = Some None.
Proof.
  assert (scene_wf sample_scene 100%positive 50%positive [1; 2; 3]%positive)
    as Hwf by wf_compute.
  split; [exact Hwf|].
  apply (setorder_up_keeps_place sample_scene 100%positive 50%positive
           [] 1%positive 2%positive [3%positive] Hwf).
Defined.

Lemma setorder_bottom_faults_sample :
  scene_wf sample_scene 100%positive 50%positive [1; 2; 3]%positive ∧
  obs_sceneitem_setorder (Some 2%positive) ORDER_MOVE_BOTTOM sample_scene =
    Crash AssertFailed.
Proof.
  assert (scene_wf sample_scene 100%positive 50%positive [1; 2; 3]%positive)
    as Hwf by wf_compute.
  split; [exact Hwf|].
  apply (setorder_bottom_faults sample_scene 100%positive 50%positive
           [1; 2; 3]%positive 2%positive Hwf). compute_done.
Defined.

Lemma remove_twice_once_sample :
  scene_wf sample_scene 100%positive 50%positive [1; 2; 3]%positive ∧
  2 ≤ 2 ≤ LONG_MAX ∧
  ∃ w1, obs_sceneitem_remove (Some 2%positive) sample_scene = Ok tt w1 ∧
        obs_sceneitem_remove (Some 2%positive) w1 = Ok tt w1 ∧
        trace w1 =
          [obs_source_remove_child (Some 50%positive) (Some 12%positive);
           signal_handler_signal 50%positive "item_remove"
             (Some 100%positive) (Some 2%positive)] ∧
        scene_wf w1 100%positive 50%positive [1; 3]%positive ∧
        items w1 !! 2%positive =
          Some (SceneItem 1 true None (Some 12%positive) (Vec2 0 0) (Vec2 3 4)
                  (Vec2 1 1) 20 true (Some 1%positive) (Some 3%positive)) ∧
        obs_sceneitem_remove None sample_scene = Ok tt sample_scene.
Proof.
  assert (scene_wf sample_scene 100%positive 50%positive [1; 2; 3]%positive)
    as Hwf by wf_compute.
  assert (2 ≤ 2 ≤ LONG_MAX) as Hr by (by vm_compute).
  split_and!; [exact Hwf|apply Hr..|].
  apply (remove_twice_once sample_scene 100%positive 50%positive
           [1%positive] 2%positive [3%positive]
           (sample_item 2 12%positive (Some 1%positive) (Some 3%positive) 20)
           Hwf eq_refl Hr).
Defined.

(** C4, as stated, fails for an item that only the list refers to: the first
    remove frees it and the second one reads the freed item. *)
Lemma remove_twice_last_reference :
  scene_wf sample_scene 100%positive 50%positive [1; 2; 3]%positive ∧
  ∃ w1, obs_sceneitem_remove (Some 1%positive) sample_scene = Ok tt w1 ∧
        items w1 !! 1%positive = None ∧
        obs_sceneitem_remove (Some 1%positive) w1 = Crash Dangling.
Proof.
  split; [wf_compute|]. eexists. split_and!.
  - vm_compute. reflexivity.
  - reflexivity.
  - reflexivity.
Qed.


Lemma save_load_round_trip_sample :
  scene_wf sample_scene 100%positive 50%positive [1; 2; 3]%positive ∧
  scene_wf sample_scene 200%positive 60%positive [] ∧
  ∃ saved w' l2,
    scene_save sample_env (Some 100%positive) ∅ sample_scene =
      Ok saved sample_scene ∧
    scene_load sample_env (Some 200%positive) saved sample_scene = Ok tt w' ∧
    scene_wf w' 200%positive 60%positive l2 ∧
    length l2 = 3%nat ∧
    Forall2 (λ a b, ∃ ita itb,
               items sample_scene !! a = Some ita ∧ items w' !! b = Some itb ∧
               source itb = obs_get_source_by_name sample_env
                              (obs_source_getname sample_env (source ita)) ∧
               is_Some (source itb) ∧
               parent itb = Some 200%positive ∧ removed itb = false ∧
               ref itb = 1 ∧
               rot itb = rot ita ∧ visible itb = visible ita ∧
               origin itb = origin ita ∧ pos itb = pos ita ∧
               scale itb = scale ita) [1; 2; 3]%positive l2.
Proof.
  assert (scene_wf sample_scene 100%positive 50%positive [1; 2; 3]%positive)
    as Hwf by wf_compute.
  assert (scene_wf sample_scene 200%positive 60%positive []) as Hwf2
    by wf_compute.
  split_and!; [exact Hwf|exact Hwf2|].
  apply (save_load_round_trip sample_env sample_scene 100%positive 50%positive
           [1; 2; 3]%positive 200%positive 60%positive ∅ Hwf Hwf2).
  vm_compute. repeat constructor; by eexists.
Defined.

Lemma scene_load_partial_sample :
  scene_wf sample_scene 100%positive 50%positive [1; 2; 3]%positive ∧
  ∃ w' new,
    scene_load sample_env (Some 100%positive) {[ "items" := sample_records ]}
      sample_scene = Ok tt w' ∧
    scene_wf w' 100%positive 50%positive new ∧
    Forall2 (λ i r, cell w' i = Some (loaded_item 100%positive r.2 r.1)) new
      (resolved sample_env sample_records) ∧
    trace w' = trace sample_scene ++
      concat (removal_trace_at sample_scene 100%positive 50%positive <$>
                [1; 2; 3]%positive) ++
      load_trace sample_env 100%positive 50%positive sample_records new.
Proof.
  assert (scene_wf sample_scene 100%positive 50%positive [1; 2; 3]%positive)
    as Hwf by wf_compute.
  split; [exact Hwf|].
  apply (scene_load_partial sample_env sample_scene 100%positive 50%positive
           [1; 2; 3]%positive {[ "items" := sample_records ]} sample_records
           Hwf).
  reflexivity.
Defined.


Lemma refcount_destroyed_once_sample :
  let ops := [Addref; Release; Release] in
  Z.of_nat 1 < LONG_MAX ∧
  (∀ k, (k < length ops)%nat → 0 ≤ balance (take k ops)) ∧
  run_ops 1%positive ops sample_scene =
    Ok tt (World (delete 1%positive (items sample_scene)) (scenes sample_scene)
             (trace sample_scene ++
              destroy_trace (Some 11%positive) 1%positive)) ∧
  (∀ k, (k < length ops)%nat →
        ∃ wk, run_ops 1%positive (take k ops) sample_scene = Ok tt wk ∧
              is_Some (items wk !! 1%positive) ∧ trace wk = trace sample_scene).
Proof.
  intros ops.
  assert (Z.of_nat 1 < LONG_MAX) as HM by (by vm_compute).
  assert (∀ k, (k < length ops)%nat → 0 ≤ balance (take k ops)) as Hpre.
  { intros [|[|[|k]]] Hk; simpl in *; lia. }
  split_and!; [exact HM|exact Hpre|..];
    apply (refcount_destroyed_once 1 ops sample_scene 1%positive
             (sample_item 1 11%positive None (Some 2%positive) 10)
             eq_refl eq_refl eq_refl eq_refl HM Hpre).
Defined.

(** C9, as stated, fails when the count reaches zero before the end: the
    count never goes below zero here, yet the first release destroys the item
    and the addref that follows touches the freed item. *)
Lemma refcount_zero_before_end :
  let ops := [Release; Addref; Release] in
  count_op Addref ops = 1%nat ∧ count_op Release ops = 2%nat ∧
  (∀ k, (k ≤ length ops)%nat → 0 ≤ 1 + balance (take k ops)) ∧
  (∃ w1, run_ops 1%positive (take 1 ops) sample_scene = Ok tt w1 ∧
         items w1 !! 1%positive = None ∧
         trace w1 = [obs_source_release (Some 11%positive); bfree 1%positive]) ∧
  run_ops 1%positive ops sample_scene = Crash Dangling.
Proof.
  intros ops. split_and!; [reflexivity..| | |].
  - intros [|[|[|[|k]]]] Hk; simpl in *; lia.
  - eexists. split_and!; [vm_compute; reflexivity|reflexivity..].
  - reflexivity.
Qed.

(** What the two traversals do on the sample, written out. *)
Example scene_load_sample_run :
  ∃ w', scene_load sample_env (Some 100%positive)
          {[ "items" := sample_records ]} sample_scene = Ok tt w' ∧
        scene_list w' 100%positive [3; 4]%positive ∧
        source <$> items w' !! 3%positive = Some (Some 11%positive) ∧
        source <$> items w' !! 4%positive = Some (Some 13%positive) ∧
        trace w' =
          [obs_source_remove_child (Some 50%positive) (Some 11%positive);
           signal_handler_signal 50%positive "item_remove"
             (Some 100%positive) (Some 1%positive);
           obs_source_release (Some 11%positive);
           bfree 1%positive;
           obs_source_remove_child (Some 50%positive) (Some 12%positive);
           signal_handler_signal 50%positive "item_remove"
             (Some 100%positive) (Some 2%positive);
           obs_source_remove_child (Some 50%positive) (Some 13%positive);
           signal_handler_signal 50%positive "item_remove"
             (Some 100%positive) (Some 3%positive);
           obs_source_release (Some 13%positive);
           bfree 3%positive;
           obs_source_addref (Some 11%positive);
           obs_source_add_child (Some 50%positive) (Some 11%positive);
           signal_handler_signal 50%positive "item_add"
             (Some 100%positive) (Some 3%positive);
           obs_source_release (Some 11%positive);
           blog LOG_WARNING "[scene_load_item] Source nowhere not found!";
           obs_source_addref (Some 13%positive);
           obs_source_add_child (Some 50%positive) (Some 13%positive);
           signal_handler_signal 50%positive "item_add"
             (Some 100%positive) (Some 4%positive);
           obs_source_release (Some 13%positive)].
Proof.
  eexists. split_and!; [vm_compute; reflexivity| |reflexivity..].
  split; [reflexivity|vm_compute; repeat split|compute_done].
Qed.

Example scene_video_render_sample_run :
  ∃ w', scene_video_render sample_env (Some 100%positive) sample_scene =
          Ok tt w' ∧
        scene_list w' 100%positive [1; 3]%positive ∧
        trace w' =
          [gs_matrix_push; gs_matrix_translate3f 0 0 0;
           gs_matrix_scale3f 1 1 1; gs_matrix_rotaa4f 0 0 1 (-10);
           gs_matrix_translate3f (-3) (-4) 0;
           obs_source_video_render (Some 11%positive); gs_matrix_pop;
           obs_source_remove_child (Some 50%positive) (Some 12%positive);
           signal_handler_signal 50%positive "item_remove"
             (Some 100%positive) (Some 2%positive);
           gs_matrix_push; gs_matrix_translate3f 0 0 0;
           gs_matrix_scale3f 1 1 1; gs_matrix_rotaa4f 0 0 1 (-30);
           gs_matrix_translate3f (-3) (-4) 0;
           obs_source_video_render (Some 13%positive); gs_matrix_pop].
Proof.
  eexists. split_and!; [vm_compute; reflexivity| |reflexivity].
  split; [reflexivity|vm_compute; repeat split|compute_done].
Qed.

(** [ORDER_MOVE_DOWN] on an inner item is the one movement that moves. *)
Example setorder_down_sample_run :
  ∃ w', obs_sceneitem_setorder (Some 1%positive) ORDER_MOVE_DOWN sample_scene =
          Ok tt w' ∧
        scene_list w' 100%positive [2; 1; 3]%positive.
Proof.
  eexists. split; [vm_compute; reflexivity|].
  split; [reflexivity|vm_compute; repeat split|compute_done].
Qed.

End Sample.

(** * Further behaviour of the list operations *)

Section Reorder.
Context {FM : FloatModel}.
Implicit Types (h : gmap ptr obs_scene_item) (l : list ptr) (a i : ptr) (w : world).

Lemma payload_set_parent_fld h i :
  (λ v, payload (set_parent None v)) <$> h !! i
  = set_parent None <$> (payload <$> h !! i).
Proof. by destruct (h !! i). Qed.

(** Re-attaching changes no item but the one moved, and of that one only
    the links and the parent. *)
Lemma reattach_cells w s hs l1 i l2 k1 k2 pp :
  scene_wf w s hs (l1 ++ i :: l2) →
  l1 ++ l2 = k1 ++ k2 → last k1 = Some pp →
  let w2 := detached w s hs i (last l1) (head l2) in
  ∃ w', (attach_sceneitem i (Some pp);;
         pthread_mutex_unlock (Some s);;
         obs_scene_release (Some s)) w2 = Ok tt w' ∧
        cell w' i = set_parent None <$> cell w i ∧
        (∀ a, a ≠ i → cell w' a = cell w a) ∧
        mutex <$> scenes w' !! s = mutex <$> scenes w !! s.
Proof.
  intros Hwf Hk Hlast w2.
  pose proof (detached_list _ _ _ _ _ _ Hwf) as Hsl2. fold w2 in Hsl2.
  rewrite Hk in Hsl2. destruct Hsl2 as [Hf2 Hl2 Hnd2].
  pose proof (wf_list _ _ _ _ Hwf) as [_ _ Hnd].
  assert (i ∉ k1 ++ k2) as Hi.
  { rewrite <- Hk. apply NoDup_app in Hnd as (_ & Hd & [? _]%NoDup_cons).
    intros [?|?]%elem_of_app; [|done]. apply (Hd i); [done|by left]. }
  assert (pp ≠ i) as Hne.
  { intros ->. apply Hi, elem_of_app. left. by apply last_Some_elem_of. }
  assert (is_Some (items w2 !! i)) as Hali.
  { destruct (detached_cell _ _ _ _ _ _ Hwf) as (? & _). by eapply fld_is_Some. }
  assert (next <$> items w2 !! pp = Some (head k2)) as Hnpp.
  { apply dll_app in Hl2 as (Hl2 & _). rewrite head_or_None in Hl2.
    apply last_Some in Hlast as [k1' ->].
    by apply dll_app in Hl2 as (_ & _ & ? & _). }
  eexists. split_and!.
  - erewrite bind_Ok; [|apply attach_exec; [done|exact Hnpp|done|]].
    + apply setorder_suffix. world_simpl.
      apply detached_host, (wf_host _ _ _ _ Hwf).
    + intros a Ha%head_Some_elem_of. eapply dll_is_Some; [exact Hl2|].
      apply elem_of_app. by right.
  - unfold released, cell. world_simpl. rewrite attach_heap_keep by done.
    subst w2. unfold detached, detach_heap. world_simpl.
    rewrite fld_alter_eq, !fld_opt_alter_keep by done.
    apply payload_set_parent_fld.
  - intros a Ha. unfold released, cell. world_simpl.
    rewrite attach_heap_keep by done. subst w2. unfold detached. world_simpl.
    by rewrite detach_heap_keep.
  - unfold released. subst w2. unfold detached, detach_scenes. world_simpl.
    destruct (last l1).
    + rewrite !fld_alter_eq. by destruct (scenes w !! s).
    + rewrite fld_alter_eq, fld_alter_keep, fld_alter_eq by done.
      by destruct (scenes w !! s).
Qed.

(** An item that is not removed and has no scene cannot be removed: the
    flag is set and then [assert(scene != NULL)] fails. *)
Lemma remove_orphan w i :
  parent <$> items w !! i = Some None → removed <$> items w !! i = Some false →
  obs_sceneitem_remove (Some i) w = Crash AssertFailed.
Proof.
  intros Hpar Hrm. unfold obs_sceneitem_remove. do 4 step. reflexivity.
Qed.

(** [obs_sceneitem_setorder] on an item without a scene takes the mutex of
    the NULL scene. *)
Lemma setorder_orphan_null w i mv :
  parent <$> items w !! i = Some None →
  obs_sceneitem_setorder (Some i) mv w = Crash NullDeref.
Proof.
  intros Hpar. unfold obs_sceneitem_setorder. do 3 step. reflexivity.
Qed.

(** The branch of a movement that finds a predecessor [pp] is
    [attach_sceneitem i pp]. *)
Lemma reattach_down w s hs l1 i nn l2 {B} (f : unit → M B) fuel :
  scene_wf w s hs (l1 ++ i :: nn :: l2) →
  let w2 := detached w s hs i (last l1) (head (nn :: l2)) in
  (setorder_reattach fuel i ORDER_MOVE_DOWN ≫= f) w2 =
  (attach_sceneitem i (Some nn) ≫= f) w2.
Proof.
  intros Hwf w2. destruct (detached_cell _ _ _ _ _ _ Hwf) as (_ & Hn & _).
  unfold setorder_reattach. by step.
Qed.

Lemma reattach_top w s hs l1 i l2 z {B} (f : unit → M B) :
  scene_wf w s hs (l1 ++ i :: l2) → last (l1 ++ l2) = Some z →
  let w2 := detached w s hs i (last l1) (head l2) in
  (setorder_reattach (S (size (items w))) i ORDER_MOVE_TOP ≫= f) w2 =
  (attach_sceneitem i (Some z) ≫= f) w2.
Proof.
  intros Hwf Hz w2. destruct (detached_cell _ _ _ _ _ _ Hwf) as (Hp & Hn & _).
  unfold setorder_reattach. step. subst w2. destruct l2 as [|nn l2].
  - rewrite app_nil_r in Hz. step. by rewrite Hz.
  - pose proof (detached_list _ _ _ _ _ _ Hwf) as [_ Hl2 _].
    apply dll_app in Hl2 as (_ & Hl2). cbn [head] in *. rewrite !bind_assoc.
    erewrite bind_Ok; [|eapply walk_to_last_Ok; [exact Hl2| |]].
    + by step.
    + by rewrite last_app_cons in Hz.
    + pose proof (list_le_heap _ _ _ (wf_list _ _ _ _ Hwf)) as Hlen.
      rewrite length_app in Hlen. simpl in *. lia.
Qed.

(** What a movement that completes does, the item being re-attached after
    the last cell of [k1]. *)
Lemma setorder_completes w s hs l1 i l2 k1 k2 pp mv :
  scene_wf w s hs (l1 ++ i :: l2) →
  l1 ++ l2 = k1 ++ k2 → last k1 = Some pp →
  (let w2 := detached w s hs i (last l1) (head l2) in
   ∀ f : unit → M unit,
     (setorder_reattach (S (size (items w))) i mv ≫= f) w2 =
     (attach_sceneitem i (Some pp) ≫= f) w2) →
  ∃ w', obs_sceneitem_setorder (Some i) mv w = Ok tt w' ∧
        scene_list w' s (k1 ++ i :: k2) ∧
        cell w' i = set_parent None <$> cell w i ∧
        (∀ a, a ≠ i → cell w' a = cell w a) ∧
        mutex <$> scenes w' !! s = mutex <$> scenes w !! s ∧
        trace w' = trace w ++ [obs_source_addref (Some hs);
                               obs_source_release (Some hs)].
Proof.
  intros Hwf Hk Hlast Hre.
  destruct (reattach_after w s hs l1 i l2 k1 k2 pp Hwf Hk Hlast)
    as (w' & Hrun & Hl & _ & Ht).
  destruct (reattach_cells w s hs l1 i l2 k1 k2 pp Hwf Hk Hlast)
    as (w'' & Hrun' & Hi & Hothers & Hmx).
  rewrite Hrun in Hrun'. injection Hrun' as <-.
  exists w'. split_and!; try done.
  rewrite (setorder_prefix _ _ _ _ _ _ _ Hwf). by rewrite Hre.
Qed.

(** X1: [ORDER_MOVE_DOWN] on an item that has a successor exchanges the
    two: the item moves one slot towards the tail, the others keep their
    order and every item its transform; the item loses its parent. *)
Theorem setorder_down_moves w s hs l1 i nn l2 :
  scene_wf w s hs (l1 ++ i :: nn :: l2) →
  ∃ w', obs_sceneitem_setorder (Some i) ORDER_MOVE_DOWN w = Ok tt w' ∧
        scene_list w' s (l1 ++ nn :: i :: l2) ∧
        cell w' i = set_parent None <$> cell w i ∧
        (∀ a, a ≠ i → cell w' a = cell w a) ∧
        mutex <$> scenes w' !! s = mutex <$> scenes w !! s ∧
        trace w' = trace w ++ [obs_source_addref (Some hs);
                               obs_source_release (Some hs)].
Proof.
  intros Hwf.
  destruct (setorder_completes w s hs l1 i (nn :: l2) (l1 ++ [nn]) l2 nn
              ORDER_MOVE_DOWN Hwf) as (w' & H); [by rewrite <- app_assoc|
    apply last_snoc|intros w2 f; by apply reattach_down|].
  exists w'. by rewrite (cons_middle nn), app_assoc.
Qed.

(** X2: [ORDER_MOVE_TOP] on an item of a scene with other items makes it
    the tail, after the former tail; the others keep their order and every
    item its transform; the item loses its parent. *)
Theorem setorder_top_moves w s hs l1 i l2 :
  scene_wf w s hs (l1 ++ i :: l2) → l1 ++ l2 ≠ [] →
  ∃ w', obs_sceneitem_setorder (Some i) ORDER_MOVE_TOP w = Ok tt w' ∧
        scene_list w' s ((l1 ++ l2) ++ [i]) ∧
        cell w' i = set_parent None <$> cell w i ∧
        (∀ a, a ≠ i → cell w' a = cell w a) ∧
        mutex <$> scenes w' !! s = mutex <$> scenes w !! s ∧
        trace w' = trace w ++ [obs_source_addref (Some hs);
                               obs_source_release (Some hs)].
Proof.
  intros Hwf Hne.
  destruct (last (l1 ++ l2)) as [z|] eqn:Hz; [|by apply last_None in Hz].
  apply (setorder_completes w s hs l1 i l2 (l1 ++ l2) [] z
           ORDER_MOVE_TOP Hwf); [by rewrite app_nil_r|done|].
  intros w2 f. by apply reattach_top.
Qed.

(** X3: [ORDER_MOVE_TOP] on the only item of a scene finds neither a
    successor nor a predecessor and calls [attach_sceneitem] with NULL: the
    assertion on the parent fails. *)
Theorem setorder_top_sole_faults w s hs i :
  scene_wf w s hs [i] →
  obs_sceneitem_setorder (Some i) ORDER_MOVE_TOP w = Crash AssertFailed.
Proof. apply setorder_top_alone. Qed.

(** X4: a reorder that completes leaves the item linked but without its
    scene, and the item can then neither be removed nor reordered: remove
    sets the flag and fails [assert(scene != NULL)], a further setorder
    takes the mutex of the NULL scene. *)
Theorem setorder_then_remove_faults w s hs l1 i nn l2 :
  scene_wf w s hs (l1 ++ i :: nn :: l2) →
  ∃ w', obs_sceneitem_setorder (Some i) ORDER_MOVE_DOWN w = Ok tt w' ∧
        scene_list w' s (l1 ++ nn :: i :: l2) ∧
        obs_sceneitem_getscene (Some i) w' = Ok None w' ∧
        obs_sceneitem_remove (Some i) w' = Crash AssertFailed ∧
        (∀ mv, obs_sceneitem_setorder (Some i) mv w' = Crash NullDeref).
Proof.
  intros Hwf.
  destruct (wf_cell w s hs l1 i (nn :: l2) Hwf) as (_ & _ & Hpar & Hrm).
  destruct (setorder_completes w s hs l1 i (nn :: l2) (l1 ++ [nn]) l2 nn
              ORDER_MOVE_DOWN Hwf) as (w' & Hrun & Hl & Hi & _);
    [by rewrite <- app_assoc|apply last_snoc|
     intros w2 f; by apply reattach_down|].
  rewrite <- app_assoc in Hl. cbn [app] in Hl.
  assert (parent <$> items w' !! i = Some None ∧
          removed <$> items w' !! i = Some false) as [Hpar' Hrm'].
  { unfold cell in Hi. destruct (items w !! i) as [it|]; [|done].
    destruct (items w' !! i) as [it'|]; [|done].
    cbn [fmap option_fmap option_map] in Hi, Hpar, Hrm |- *.
    apply (inj Some) in Hi, Hpar, Hrm.
    pose proof (f_equal parent Hi) as H1.
    pose proof (f_equal removed Hi) as H2. cbn in H1, H2.
    by rewrite H1, H2, Hrm. }
  exists w'. split_and!; try done.
  - unfold obs_sceneitem_getscene. by apply rd_Ok.
  - by apply remove_orphan.
  - intros mv. by apply setorder_orphan_null.
Qed.

End Reorder.

Section Fate.
Context {FM : FloatModel}.
Implicit Types (h : gmap ptr obs_scene_item) (l : list ptr) (a i : ptr) (w : world).

(** What [obs_sceneitem_remove] leaves of a linked item: nothing when the
    list held the last reference, else the item flagged, without a scene and
    counted once less. *)
Definition after_removal (it : obs_scene_item) : option obs_scene_item :=
  if bool_decide (wrap_long (ref it - 1) = 0) then None
  else Some (set_ref (wrap_long (ref it - 1))
               (set_parent None (set_removed true it))).

Lemma lookup_opt_alter_ne f (o : option ptr) h a :
  o ≠ Some a → opt_alter f o h !! a = h !! a.
Proof. destruct o; simpl; [|done]. intros. apply lookup_alter_ne. congruence. Qed.

Lemma remove_linked_fate w s hs l1 i l2 it :
  scene_wf w s hs (l1 ++ i :: l2) → items w !! i = Some it →
  cell (release_world (unlinked w s hs i (last l1) (head l2) (source it)) i
          (ref it) (source it)) i
  = after_removal (payload it).
Proof.
  intros Hwf Hit. pose proof (wf_list _ _ _ _ Hwf) as Hsl.
  assert (last l1 ≠ Some i) as Hp.
  { intros E. by destruct (wf_before _ _ _ _ _ _ Hsl E). }
  assert (head l2 ≠ Some i) as Hn.
  { intros E. by destruct (wf_after _ _ _ _ _ _ Hsl E). }
  unfold cell, after_removal, release_world.
  change (ref (payload it)) with (ref it). case_bool_decide; world_simpl.
  - by rewrite lookup_delete_eq.
  - rewrite fld_alter_eq, unlinked_item by done. by rewrite Hit.
Qed.

Lemma remove_linked_outside w s hs l1 i l2 r src a :
  a ∉ l1 ++ i :: l2 →
  items (release_world (unlinked w s hs i (last l1) (head l2) src) i r src) !! a
  = items w !! a.
Proof.
  intros Ha. assert (a ≠ i ∧ last l1 ≠ Some a ∧ head l2 ≠ Some a)
    as (Hi & Hp & Hn).
  { split_and!.
    - intros ->. apply Ha, elem_of_app. right. by left.
    - intros E%last_Some_elem_of. apply Ha, elem_of_app. by left.
    - intros E%head_Some_elem_of. apply Ha, elem_of_app. right. by right. }
  rewrite release_world_other by done. unfold unlinked, detach_heap.
  world_simpl.
  by rewrite lookup_alter_ne, !lookup_opt_alter_ne, lookup_alter_ne.
Qed.

(** X5: remove on a linked item unlinks it and keeps the others in their
    order; the item is freed when the list held its last reference and is
    otherwise left flagged, without a scene and counted once less; no other
    item changes but for the links of the two neighbours. *)
Theorem remove_unlinks w s hs l1 i l2 it :
  scene_wf w s hs (l1 ++ i :: l2) → items w !! i = Some it →
  ∃ w', obs_sceneitem_remove (Some i) w = Ok tt w' ∧
        scene_wf w' s hs (l1 ++ l2) ∧
        cell w' i = after_removal (payload it) ∧
        (∀ a, a ≠ i → cell w' a = cell w a) ∧
        (∀ a, a ∉ l1 ++ i :: l2 → items w' !! a = items w !! a) ∧
        mutex <$> scenes w' !! s = mutex <$> scenes w !! s ∧
        trace w' = trace w ++ removal_trace s hs i it.
Proof.
  intros Hwf Hit.
  destruct (remove_linked w s hs l1 i l2 (ref it) (source it) Hwf)
    as [Hrun Hwf']; [by rewrite Hit..|].
  eexists. split_and!; [exact Hrun|exact Hwf'|..].
  - by apply remove_linked_fate.
  - intros a Ha. by apply remove_linked_cell.
  - intros a Ha. by apply remove_linked_outside.
  - apply remove_linked_mutex.
  - by erewrite remove_linked_trace.
Qed.

(** X6: an item that was removed while someone else holds a reference
    answers NULL for its scene and still names its source, but it cannot be
    reordered: setorder takes the mutex of the NULL scene. *)
Theorem removed_item_setorder_faults w s hs l1 i l2 it :
  scene_wf w s hs (l1 ++ i :: l2) → items w !! i = Some it →
  2 ≤ ref it ≤ LONG_MAX →
  ∃ w1, obs_sceneitem_remove (Some i) w = Ok tt w1 ∧
        obs_sceneitem_getscene (Some i) w1 = Ok None w1 ∧
        obs_sceneitem_getsource (Some i) w1 = Ok (source it) w1 ∧
        (∀ mv, obs_sceneitem_setorder (Some i) mv w1 = Crash NullDeref).
Proof.
  intros Hwf Hit Href.
  destruct (remove_linked w s hs l1 i l2 (ref it) (source it) Hwf)
    as [Hrun _]; [by rewrite Hit..|].
  pose proof (remove_linked_fate w s hs l1 i l2 it Hwf Hit) as Hfate.
  set (w1 := release_world _ i (ref it) (source it)) in *.
  unfold after_removal in Hfate. change (ref (payload it)) with (ref it) in Hfate.
  rewrite wrap_long_id in Hfate
    by (unfold LONG_MIN, LONG_MAX, LONG_BITS in *; lia).
  rewrite bool_decide_eq_false_2 in Hfate by lia.
  unfold cell in Hfate. destruct (items w1 !! i) as [it1|] eqn:Hit1; [|done].
  cbn [fmap option_fmap option_map] in Hfate. apply (inj Some) in Hfate.
  pose proof (f_equal parent Hfate) as Hpar.
  pose proof (f_equal source Hfate) as Hsrc. cbn in Hpar, Hsrc.
  exists w1. split_and!; [done|..].
  - unfold obs_sceneitem_getscene. apply rd_Ok. by rewrite Hit1; simpl; f_equal.
  - unfold obs_sceneitem_getsource. apply rd_Ok. by rewrite Hit1; simpl; f_equal.
  - intros mv. apply setorder_orphan_null. by rewrite Hit1; simpl; f_equal.
Qed.

End Fate.

(** * Tearing a scene down *)

Section Destroy.
Context {FM : FloatModel}.
Implicit Types (h : gmap ptr obs_scene_item) (l : list ptr) (a i : ptr) (w : world).

(** [bfree(scene)] *)
Definition free_scene (s : ptr) : M unit := λ w,
  match scenes w !! s with
  | Some _ => Ok tt (World (items w) (delete s (scenes w)) (trace w ++ [bfree s]))
  | None => Crash Dangling
  end.

(** [pthread_mutex_destroy(&scene->mutex)]: the mutex is a field of the
    scene, which is freed by the next statement. *)
Definition pthread_mutex_destroy (scene : option ptr) : M unit :=
  s ← deref scene; rd_scene mutex s;; mret tt.

Definition scene_destroy (data : option ptr) : M unit :=
  remove_all_items data;;
  pthread_mutex_destroy data;;
  s ← deref data; free_scene s.

Lemma remove_linked_scenes w s hs i p n r src s' :
  s' ≠ s →
  scenes (release_world (unlinked w s hs i p n src) i r src) !! s'
  = scenes w !! s'.
Proof.
  intros Hne. rewrite release_world_scenes. unfold unlinked, detach_scenes.
  world_simpl. destruct p; by rewrite !lookup_alter_ne.
Qed.

Lemma remove_all_loop_fate s hs l : ∀ w fuel,
  scene_wf w s hs l → (length l ≤ fuel)%nat →
  ∃ w', remove_all_loop fuel (head l) w = Ok tt w' ∧
        (∀ a, a ∈ l → cell w' a = cell w a ≫= after_removal) ∧
        (∀ a, a ∉ l → items w' !! a = items w !! a) ∧
        (∀ s', s' ≠ s → scenes w' !! s' = scenes w !! s').
Proof.
  induction l as [|b l IH]; intros w fuel Hwf Hfuel.
  - exists w. split_and!; [by destruct fuel| |done..].
    intros a Ha. by apply elem_of_nil in Ha.
  - destruct fuel as [|k]; [simpl in Hfuel; lia|].
    destruct (list_is_Some w s (b :: l) b) as [it Hit];
      [apply Hwf|by left|].
    destruct (wf_cell w s hs [] b l Hwf) as (_ & Hn & _).
    destruct (remove_linked w s hs [] b l (ref it) (source it) Hwf)
      as [Hrun Hwf1]; [by rewrite Hit..|].
    pose proof (remove_linked_fate w s hs [] b l it Hwf Hit) as Hfate.
    cbn [app] in Hwf1.
    set (w1 := release_world _ b (ref it) (source it)) in *.
    destruct (IH _ k Hwf1) as (w' & Hloop & Hin & Hout & Hsc);
      [simpl in Hfuel; lia|].
    pose proof (sl_nodup _ _ _ (wf_list _ _ _ _ Hwf)) as Hnd.
    apply NoDup_cons in Hnd as [Hb Hnd].
    exists w'. split_and!.
    + cbn [head remove_all_loop]. step.
      erewrite bind_Ok; [|exact Hrun]. exact Hloop.
    + intros a [->|Ha]%elem_of_cons.
      * assert (cell w' b = cell w1 b) as ->
          by (unfold cell; by rewrite (Hout b Hb)).
        rewrite Hfate. unfold cell. by rewrite Hit.
      * rewrite (Hin a Ha). f_equal. apply remove_linked_cell.
        by intros ->.
    + intros a [Hab Ha]%not_elem_of_cons. rewrite (Hout a Ha).
      apply (remove_linked_outside w s hs [] b l). simpl.
      by apply not_elem_of_cons.
    + intros s' Hs'. rewrite (Hsc s' Hs'). by apply remove_linked_scenes.
Qed.

Lemma remove_all_items_fate w s hs l :
  scene_wf w s hs l →
  ∃ w', remove_all_items (Some s) w = Ok tt w' ∧
        (∀ a, a ∈ l → cell w' a = cell w a ≫= after_removal) ∧
        (∀ a, a ∉ l → items w' !! a = items w !! a) ∧
        (∀ s', s' ≠ s → scenes w' !! s' = scenes w !! s').
Proof.
  intros Hwf.
  pose proof (list_le_heap _ _ _ (wf_list _ _ _ _ Hwf)) as Hlen.
  pose proof (scene_wf_mutex w s hs l S Hwf) as Hwf1.
  destruct (remove_all_loop_Ok s hs l _ (S (size (items w))) Hwf1)
    as (w2 & Hloop & Hwf2 & _); [lia|].
  destruct (remove_all_loop_fate s hs l _ (S (size (items w))) Hwf1)
    as (w2' & Hloop' & Hin & Hout & Hsc); [lia|].
  rewrite Hloop in Hloop'. injection Hloop' as <-.
  eexists. split_and!.
  - unfold remove_all_items, pthread_mutex_lock, pthread_mutex_unlock.
    pose proof (wf_host _ _ _ _ Hwf) as Hhs.
    pose proof (sl_first _ _ _ (wf_list _ _ _ _ Hwf)) as Hf.
    pose proof (wf_host _ _ _ _ Hwf2) as Hhs2.
    do 5 step. erewrite bind_Ok; [|exact Hloop]. do 2 step. reflexivity.
  - exact Hin.
  - exact Hout.
  - intros s' Hs'. world_simpl. rewrite lookup_alter_ne by done.
    rewrite (Hsc s' Hs'). world_simpl. by rewrite lookup_alter_ne.
Qed.

Lemma scene_destroy_Ok w s hs l :
  scene_wf w s hs l →
  ∃ w', scene_destroy (Some s) w = Ok tt w' ∧
        scenes w' !! s = None ∧
        (∀ s', s' ≠ s → scenes w' !! s' = scenes w !! s') ∧
        (∀ a, a ∈ l → cell w' a = cell w a ≫= after_removal) ∧
        (∀ a, a ∉ l → items w' !! a = items w !! a) ∧
        trace w' = trace w ++ concat (removal_trace_at w s hs <$> l) ++
                   [bfree s].
Proof.
  intros Hwf.
  destruct (remove_all_items_Ok w s hs l Hwf) as (w1 & Hrun & Hwf1 & Htr & _).
  destruct (remove_all_items_fate w s hs l Hwf)
    as (w1' & Hrun' & Hin & Hout & Hsc).
  rewrite Hrun in Hrun'. injection Hrun' as <-.
  pose proof (wf_host _ _ _ _ Hwf1) as Hhs1.
  destruct (scenes w1 !! s) as [sc|] eqn:Hs; [|done].
  eexists. split_and!.
  - unfold scene_destroy, pthread_mutex_destroy.
    erewrite bind_Ok; [|exact Hrun]. do 4 step.
    unfold free_scene. rewrite Hs. reflexivity.
  - world_simpl. apply lookup_delete_eq.
  - intros s' Hs'. world_simpl. rewrite lookup_delete_ne by done. by apply Hsc.
  - exact Hin.
  - exact Hout.
  - world_simpl. by rewrite Htr, <- app_assoc.
Qed.


(** X7: [scene_destroy] removes every item through the normal remove path
    and frees the scene: each former item is either freed or left flagged
    without a scene, items outside the scene and other scenes are not
    touched, and the trace is the removals followed by the [bfree] of the
    scene. *)
Theorem scene_destroy_unlinks_all w s hs l :
  scene_wf w s hs l →
  ∃ w', scene_destroy (Some s) w = Ok tt w' ∧
        scenes w' !! s = None ∧
        (∀ s', s' ≠ s → scenes w' !! s' = scenes w !! s') ∧
        (∀ a, a ∈ l → cell w' a = cell w a ≫= after_removal) ∧
        (∀ a, a ∉ l → items w' !! a = items w !! a) ∧
        trace w' = trace w ++ concat (removal_trace_at w s hs <$> l) ++
                   [bfree s].
Proof. apply scene_destroy_Ok. Qed.

(** X8: an item on which someone else holds a reference outlives the
    destruction of its scene: afterwards it answers NULL for its scene, a
    remove on it changes nothing, and when the holder's reference was the
    only other one, releasing it frees the item and releases its source. *)
Theorem held_item_outlives_scene w s hs l a it :
  scene_wf w s hs l → a ∈ l → items w !! a = Some it →
  2 ≤ ref it ≤ LONG_MAX →
  ∃ w', scene_destroy (Some s) w = Ok tt w' ∧
        obs_sceneitem_getscene (Some a) w' = Ok None w' ∧
        obs_sceneitem_remove (Some a) w' = Ok tt w' ∧
        (ref it = 2 →
         obs_sceneitem_release (Some a) w' =
           Ok tt (World (delete a (items w')) (scenes w')
                    (trace w' ++ destroy_trace (source it) a))).
Proof.
  intros Hwf Ha Hit Href.
  destruct (scene_destroy_Ok w s hs l Hwf) as (w' & Hrun & _ & _ & Hin & _).
  specialize (Hin a Ha). unfold cell in Hin. rewrite Hit in Hin.
  cbn [fmap option_fmap option_map mbind option_bind] in Hin.
  unfold after_removal in Hin. change (ref (payload it)) with (ref it) in Hin.
  rewrite wrap_long_id in Hin
    by (unfold LONG_MIN, LONG_MAX, LONG_BITS in *; lia).
  rewrite bool_decide_eq_false_2 in Hin by lia.
  destruct (items w' !! a) as [it'|] eqn:Hit'; [|done].
  cbn [fmap option_fmap option_map] in Hin. apply (inj Some) in Hin.
  pose proof (f_equal parent Hin) as Hpar.
  pose proof (f_equal removed Hin) as Hrm.
  pose proof (f_equal ref Hin) as Hr.
  pose proof (f_equal source Hin) as Hsrc. cbn in Hpar, Hrm, Hr, Hsrc.
  exists w'. split_and!; [done|..].
  - unfold obs_sceneitem_getscene. apply rd_Ok. by rewrite Hit'; simpl; f_equal.
  - apply remove_again; by rewrite Hit'; simpl; f_equal.
  - intros H2. erewrite release_exec;
      [|by rewrite Hit'; simpl; f_equal..].
    unfold release_world. rewrite Hr, H2, Hsrc.
    by rewrite bool_decide_eq_true_2 by by vm_compute.
Qed.

End Destroy.

Section LoadEdge.
Context {FM : FloatModel} (env : environment).
Implicit Types (l : list ptr) (a i : ptr) (w : world).

(** X9: [scene_load] on settings without an "items" array removes every
    item of the scene and adds none. *)
Theorem scene_load_without_items w s hs l
    (settings : gmap string (list item_data)) :
  scene_wf w s hs l → settings !! "items" = None →
  ∃ w', scene_load env (Some s) settings w = Ok tt w' ∧
        scene_wf w' s hs [] ∧
        (∀ a, a ∈ l → cell w' a = cell w a ≫= after_removal) ∧
        (∀ a, a ∉ l → items w' !! a = items w !! a) ∧
        trace w' = trace w ++ concat (removal_trace_at w s hs <$> l).
Proof.
  intros Hwf Hnone.
  destruct (remove_all_items_Ok w s hs l Hwf) as (w1 & Hrun & Hwf1 & Htr & _).
  destruct (remove_all_items_fate w s hs l Hwf)
    as (w1' & Hrun' & Hin & Hout & _).
  rewrite Hrun in Hrun'. injection Hrun' as <-.
  exists w1. split_and!; try done.
  unfold scene_load. rewrite Hnone. by erewrite bind_Ok.
Qed.

End LoadEdge.

(** * Lookup and enumeration *)

Section Enumerate.
Context {FM : FloatModel}.
Implicit Types (h : gmap ptr obs_scene_item) (l : list ptr) (a i : ptr) (w : world).

(** [source->context.name], a field of [struct obs_source]: the name the
    source runtime keeps for a source. *)
Variable context_name : ptr → string.

(** The [while (item)] loop of [obs_scene_findsource]; [strcmp(...) == 0] is
    equality of the two strings. *)
Fixpoint findsource_loop (fuel : nat) (name : string) (item : option ptr)
    : M (option ptr) :=
  match item with
  | None => mret None
  | Some i =>
      match fuel with
      | O => crash OutOfFuel
      | S k =>
          src ← rd source i;
          sp ← deref src;
          if bool_decide (context_name sp = name) then mret item
          else nxt ← rd next i; findsource_loop k name nxt
      end
  end.

Definition obs_scene_findsource (scene : option ptr) (name : string)
    : M (option ptr) :=
  match scene with
  | None => mret None
  | Some s =>
      fuel ← loop_bound;
      pthread_mutex_lock scene;;
      first ← rd_scene first_item s;
      item ← findsource_loop fuel name first;
      pthread_mutex_unlock scene;;
      mret item
  end.

(** The [while (item)] loop of [obs_scene_enum_items]. *)
Fixpoint enum_items_loop (fuel : nat)
    (callback : option ptr → option ptr → M bool) (scene : option ptr)
    (item : option ptr) : M unit :=
  match item with
  | None => mret tt
  | Some i =>
      match fuel with
      | O => crash OutOfFuel
      | S k =>
          nxt ← rd next i;
          obs_sceneitem_addref item;;
          go_on ← callback scene item;
          if (go_on : bool) then
            obs_sceneitem_release item;;
            enum_items_loop k callback scene nxt
          else obs_sceneitem_release item
      end
  end.

Definition obs_scene_enum_items (scene : option ptr)
    (callback : option (option ptr → option ptr → M bool)) : M unit :=
  match scene, callback with
  | Some s, Some cb =>
      fuel ← loop_bound;
      pthread_mutex_lock scene;;
      first ← rd_scene first_item s;
      enum_items_loop fuel cb scene first;;
      pthread_mutex_unlock scene
  | _, _ => mret tt
  end.

(** The [while (item)] loop of [scene_enum_sources]. *)
Fixpoint enum_sources_loop (fuel : nat)
    (enum_callback : option ptr → option ptr → M unit) (s : ptr)
    (item : option ptr) : M unit :=
  match item with
  | None => mret tt
  | Some i =>
      match fuel with
      | O => crash OutOfFuel
      | S k =>
          nxt ← rd next i;
          obs_sceneitem_addref item;;
          hs ← rd_scene scene_source s;
          src ← rd source i;
          enum_callback hs src;;
          obs_sceneitem_release item;;
          enum_sources_loop k enum_callback s nxt
      end
  end.

Definition scene_enum_sources (data : option ptr)
    (enum_callback : option ptr → option ptr → M unit) : M unit :=
  fuel ← loop_bound;
  pthread_mutex_lock data;;
  s ← deref data;
  first ← rd_scene first_item s;
  enum_sources_loop fuel enum_callback s first;;
  pthread_mutex_unlock data.

(** The name of the source of the item at [a]. *)
Definition item_name w a : option string :=
  context_name <$> (items w !! a ≫= source).

Lemma findsource_loop_Ok w name l : ∀ p fuel,
  dll (items w) p l None → Forall (λ a, is_Some (item_name w a)) l →
  (length l ≤ fuel)%nat →
  findsource_loop fuel name (head l) w =
    Ok (head (filter (λ a, item_name w a = Some name) l)) w.
Proof.
  induction l as [|a l IH]; intros p fuel Hl Hsrc Hfuel.
  - by destruct fuel.
  - destruct fuel as [|k]; [simpl in Hfuel; lia|].
    apply Forall_cons in Hsrc as [[nm Hnm] Hsrc].
    destruct Hl as (_ & Hn & Hl). rewrite head_or_None in Hn.
    unfold item_name in Hnm.
    destruct (items w !! a) as [it|] eqn:Hit; [|done].
    cbn [mbind option_bind] in Hnm.
    destruct (source it) as [sp|] eqn:Hsp; [|done].
    cbn [head findsource_loop]. step. rewrite Hsp. step. rewrite filter_cons.
    assert (item_name w a = Some (context_name sp)) as Ha.
    { unfold item_name. rewrite Hit. cbn [mbind option_bind]. by rewrite Hsp. }
    case_bool_decide as Hname.
    + rewrite decide_True by congruence. reflexivity.
    + rewrite decide_False by congruence. step.
      apply (IH (Some a) k); [done|done|simpl in Hfuel; lia].
Qed.

(** X10: [obs_scene_findsource] returns the first item in paint order whose
    source has the name, NULL when there is none or the scene is NULL, and
    leaves the store as it was. *)
Theorem obs_scene_findsource_first w s l name :
  scene_list w s l → Forall (λ a, is_Some (item_name w a)) l →
  obs_scene_findsource (Some s) name w =
    Ok (head (filter (λ a, item_name w a = Some name) l)) w ∧
  obs_scene_findsource None name w = Ok None w.
Proof.
  intros Hsl Hsrc. split; [|done]. pose proof Hsl as [Hf Hl Hnd].
  pose proof (list_le_heap _ _ _ Hsl) as Hlen.
  unfold obs_scene_findsource, pthread_mutex_lock, pthread_mutex_unlock.
  do 4 step.
  erewrite bind_Ok; [|eapply (findsource_loop_Ok _ _ l None); [done..|simpl; lia]].
  do 2 step. unfold mret, M_ret. world_simpl.
  rewrite alter_lock_unlock. by destruct w.
Qed.

Lemma wrap_long_add_sub r :
  LONG_MIN ≤ r ≤ LONG_MAX → wrap_long (wrap_long (r + 1) - 1) = r.
Proof.
  intros Hr. rewrite <- (wrap_long_id r) at 2 by done. unfold wrap_long.
  f_equal.
  replace ((r + 1 - LONG_MIN) mod 2 ^ LONG_BITS + LONG_MIN - 1 - LONG_MIN)
    with ((r + 1 - LONG_MIN) mod 2 ^ LONG_BITS + (- 1)) by lia.
  rewrite Zplus_mod_idemp_l. f_equal. lia.
Qed.

(** The reference taken around a callback is given back: the item is as it
    was before. *)
Lemma release_after_addref w i it sc t :
  items w !! i = Some it → 1 ≤ ref it ≤ LONG_MAX →
  obs_sceneitem_release (Some i)
    (World (items (addref_world w i (ref it))) sc t) = Ok tt (World (items w) sc t).
Proof.
  intros Hi Hr.
  assert (LONG_MIN ≤ ref it ≤ LONG_MAX) as Hr' by (unfold LONG_MIN, LONG_BITS; lia).
  erewrite (release_exec _ i (wrap_long (ref it + 1)) (source it)).
  - unfold release_world, addref_world. world_simpl.
    rewrite wrap_long_add_sub by done.
    rewrite bool_decide_eq_false_2 by lia. do 2 f_equal.
    rewrite alter_alter_eq. apply alter_id. intros x Hx.
    rewrite Hi in Hx. injection Hx as <-. by destruct it.
  - unfold addref_world. world_simpl. rewrite lookup_alter_eq, Hi. done.
  - unfold addref_world. world_simpl. rewrite lookup_alter_eq, Hi. done.
Qed.

(** The items a callback sees: the list up to and including the first one
    it answers [false] on. *)
Fixpoint visited (verdict : ptr → bool) l : list ptr :=
  match l with
  | [] => []
  | a :: l => a :: if verdict a then visited verdict l else []
  end.

Definition held w l : Prop :=
  Forall (λ a, ∃ it, items w !! a = Some it ∧ 1 ≤ ref it ≤ LONG_MAX) l.

Lemma enum_items_loop_observer cb s (verdict : ptr → bool)
    (note : ptr → list event) l :
  (∀ a w0, cb (Some s) (Some a) w0 =
     Ok (verdict a) (World (items w0) (scenes w0) (trace w0 ++ note a))) →
  ∀ p fuel w, dll (items w) p l None → held w l → (length l ≤ fuel)%nat →
  enum_items_loop fuel cb (Some s) (head l) w =
    Ok tt (World (items w) (scenes w)
             (trace w ++ concat (note <$> visited verdict l))).
Proof.
  intros Hcb. induction l as [|a l IH]; intros p fuel w Hl Hheld Hfuel.
  - destruct fuel; simpl; rewrite app_nil_r; by destruct w.
  - destruct fuel as [|k]; [simpl in Hfuel; lia|].
    apply Forall_cons in Hheld as [(it & Hit & Hr) Hheld].
    destruct Hl as (_ & Hn & Hl). rewrite head_or_None in Hn.
    cbn [head enum_items_loop]. step.
    erewrite bind_Ok; [|apply (addref_exec _ a (ref it)); by rewrite Hit].
    erewrite bind_Ok; [|apply Hcb]. cbn [visited fmap list_fmap concat].
    destruct (verdict a).
    + erewrite bind_Ok; [|by apply release_after_addref].
      erewrite (IH (Some a) k); [|done|done|simpl in Hfuel; lia].
      world_simpl. by rewrite <- app_assoc.
    + unfold addref_world at 2 3. world_simpl.
      erewrite release_after_addref by done.
      cbn [fmap list_fmap concat]. by rewrite app_nil_r.
Qed.

(** X11: with a callback that only looks, [obs_scene_enum_items] calls it on
    the items in paint order, stops after the first [false], and leaves
    items, scene and mutex as they were; with a NULL scene or a NULL callback
    nothing happens. *)
Theorem obs_scene_enum_items_observer w s l cb (verdict : ptr → bool)
    (note : ptr → list event) :
  scene_list w s l → held w l →
  (∀ a w0, cb (Some s) (Some a) w0 =
     Ok (verdict a) (World (items w0) (scenes w0) (trace w0 ++ note a))) →
  obs_scene_enum_items (Some s) (Some cb) w =
    Ok tt (World (items w) (scenes w)
             (trace w ++ concat (note <$> visited verdict l))) ∧
  obs_scene_enum_items None (Some cb) w = Ok tt w ∧
  obs_scene_enum_items (Some s) None w = Ok tt w.
Proof.
  intros Hsl Hheld Hcb. split; [|done]. pose proof Hsl as [Hf Hl Hnd].
  pose proof (list_le_heap _ _ _ Hsl) as Hlen.
  unfold obs_scene_enum_items, pthread_mutex_lock, pthread_mutex_unlock.
  do 4 step.
  erewrite bind_Ok;
    [|eapply (enum_items_loop_observer _ _ _ _ l Hcb None); [done..|simpl; lia]].
  world_simpl. do 2 step. by rewrite alter_lock_unlock.
Qed.

Lemma enum_sources_loop_observer cb s hs (note : option ptr → option ptr → list event) l :
  (∀ x y w0, cb x y w0 = Ok tt (World (items w0) (scenes w0) (trace w0 ++ note x y))) →
  ∀ p fuel w, dll (items w) p l None → held w l →
  scene_source <$> scenes w !! s = Some hs → (length l ≤ fuel)%nat →
  enum_sources_loop fuel cb s (head l) w =
    Ok tt (World (items w) (scenes w)
             (trace w ++ concat ((λ a, note hs (items w !! a ≫= source)) <$> l))).
Proof.
  intros Hcb. induction l as [|a l IH]; intros p fuel w Hl Hheld Hhs Hfuel.
  - destruct fuel; simpl; rewrite app_nil_r; by destruct w.
  - destruct fuel as [|k]; [simpl in Hfuel; lia|].
    apply Forall_cons in Hheld as [(it & Hit & Hr) Hheld].
    destruct Hl as (_ & Hn & Hl). rewrite head_or_None in Hn.
    cbn [head enum_sources_loop]. step.
    erewrite bind_Ok; [|apply (addref_exec _ a (ref it)); by rewrite Hit].
    unfold addref_world. step.
    erewrite bind_Ok;
      [|apply rd_Ok; world_simpl; rewrite lookup_alter_eq, Hit; reflexivity].
    erewrite bind_Ok; [|apply Hcb]. world_simpl.
    erewrite bind_Ok; [|by apply (release_after_addref w a it)].
    erewrite (IH (Some a) k); [|done|done|done|simpl in Hfuel; lia].
    world_simpl. cbn [fmap list_fmap concat]. rewrite Hit.
    cbn [mbind option_bind]. by rewrite <- app_assoc.
Qed.

(** X12: [scene_enum_sources] hands the callback the scene's own source and
    each item's source, once per item in paint order, and leaves items,
    scene and mutex as they were. *)
Theorem scene_enum_sources_each w s hs l cb
    (note : option ptr → option ptr → list event) :
  scene_list w s l → held w l →
  scene_source <$> scenes w !! s = Some hs →
  (∀ x y w0, cb x y w0 = Ok tt (World (items w0) (scenes w0) (trace w0 ++ note x y))) →
  scene_enum_sources (Some s) cb w =
    Ok tt (World (items w) (scenes w)
             (trace w ++ concat ((λ a, note hs (items w !! a ≫= source)) <$> l))).
Proof.
  intros Hsl Hheld Hhs Hcb. pose proof Hsl as [Hf Hl Hnd].
  pose proof (list_le_heap _ _ _ Hsl) as Hlen.
  unfold scene_enum_sources, pthread_mutex_lock, pthread_mutex_unlock.
  do 5 step.
  erewrite bind_Ok;
    [|eapply (enum_sources_loop_observer _ _ _ _ l Hcb None);
      [done|done|fld|simpl; lia]].
  world_simpl. do 2 step. by rewrite alter_lock_unlock.
Qed.

(** A callback that removes the item it is handed and asks for the next. *)
Definition remover : option ptr → option ptr → M bool :=
  λ _ item, obs_sceneitem_remove item;; mret true.

Definition shared w l : Prop :=
  Forall (λ a, ∃ r, ref <$> items w !! a = Some r ∧ 1 ≤ r < LONG_MAX) l.

Lemma ref_cell w a : ref <$> cell w a = ref <$> items w !! a.
Proof. unfold cell. by destruct (items w !! a). Qed.

Lemma shared_transfer w w' l :
  (∀ a, a ∈ l → cell w' a = cell w a) → shared w l → shared w' l.
Proof.
  intros Hc Hs. apply Forall_forall. intros a Ha.
  rewrite <- ref_cell, (Hc a Ha), ref_cell.
  by apply (proj1 (Forall_forall _ _) Hs).
Qed.

(** One round of the enumeration with [remover]: the reference taken for
    the callback keeps the item until the loop gives it back. *)
Lemma remover_round w s hs b l it :
  scene_wf w s hs (b :: l) → items w !! b = Some it →
  1 ≤ ref it < LONG_MAX →
  let wa := addref_world w b (ref it) in
  let w1 := release_world (unlinked wa s hs b None (head l) (source it)) b
              (ref it + 1) (source it) in
  let w2 := release_world w1 b (ref it) (source it) in
  obs_sceneitem_remove (Some b) wa = Ok tt w1 ∧
  obs_sceneitem_release (Some b) w1 = Ok tt w2 ∧
  scene_wf w2 s hs l ∧
  trace w2 = trace w ++ removal_trace s hs b (payload it) ∧
  cell w2 b = after_removal (payload it) ∧
  (∀ a, a ≠ b → cell w2 a = cell w a) ∧
  (∀ a, a ∉ b :: l → items w2 !! a = items w !! a) ∧
  mutex <$> scenes w2 !! s = mutex <$> scenes w !! s.
Proof.
  intros Hwf Hit Hr wa w1 w2.
  assert (LONG_MIN ≤ ref it + 1 ≤ LONG_MAX) as Hr1
    by (unfold LONG_MIN, LONG_MAX, LONG_BITS in *; lia).
  assert (wrap_long (ref it + 1 - 1) = ref it) as Hback.
  { replace (ref it + 1 - 1) with (ref it) by lia. apply wrap_long_id.
    unfold LONG_MIN, LONG_MAX, LONG_BITS in *; lia. }
  pose proof (sl_nodup _ _ _ (wf_list _ _ _ _ Hwf)) as Hnd.
  apply NoDup_cons in Hnd as [Hb Hnd].
  assert (items wa !! b = Some (set_ref (ref it + 1) it)) as Hita.
  { unfold wa, addref_world. world_simpl.
    by rewrite lookup_alter_eq, Hit, wrap_long_id. }
  assert (scene_wf wa s hs (b :: l)) as Hwfa.
  { apply (scene_wf_transfer w); [done|done|..]; intros a _;
      unfold wa, addref_world; world_simpl; by fld_rw. }
  destruct (remove_linked wa s hs [] b l (ref it + 1) (source it) Hwfa)
    as [Hrun Hwf1]; [by rewrite Hita..|].
  pose proof (remove_linked_fate wa s hs [] b l _ Hwfa Hita) as Hfate.
  cbn [app last] in Hrun, Hwf1, Hfate. cbn [source ref set_ref] in Hfate.
  fold w1 in Hrun, Hwf1, Hfate.
  unfold after_removal in Hfate. cbn [payload ref set_prev set_next set_ref] in Hfate.
  rewrite Hback, bool_decide_eq_false_2 in Hfate by lia.
  assert (∀ a, a ≠ b → cell w2 a = cell w a) as Hother.
  { intros a Ha. unfold w2, cell at 1. rewrite release_world_other by done.
    fold (cell w1 a). unfold w1.
    rewrite (remove_linked_cell wa s hs [] b l) by done.
    unfold cell, wa, addref_world. world_simpl. by rewrite lookup_alter_ne. }
  split_and!.
  - exact Hrun.
  - apply release_exec.
    + rewrite <- ref_cell, Hfate. reflexivity.
    + unfold cell in Hfate. destruct (items w1 !! b) as [x|]; [|done].
      apply (inj Some) in Hfate as Hx. simpl. f_equal.
      apply (f_equal source) in Hx. by destruct x.
  - apply release_world_wf; done.
  - unfold w2, release_world, removal_trace. cbn [ref payload set_prev set_next source].
    assert (trace w1 = trace w ++
              [obs_source_remove_child (Some hs) (source it);
               signal_handler_signal hs "item_remove" (Some s) (Some b)]) as Ht.
    { unfold w1. erewrite remove_linked_trace by done.
      unfold removal_trace. cbn [ref payload set_prev set_next set_ref source].
      rewrite Hback, bool_decide_eq_false_2 by lia. by rewrite app_nil_r. }
    case_bool_decide; world_simpl; rewrite Ht.
    + by rewrite <- app_assoc.
    + by rewrite app_nil_r.
  - unfold w2, release_world, after_removal.
    cbn [ref payload set_prev set_next].
    case_bool_decide; unfold cell; world_simpl.
    + by rewrite lookup_delete_eq.
    + rewrite lookup_alter_eq. unfold cell in Hfate.
      destruct (items w1 !! b) as [x|]; [|done].
      apply (inj Some) in Hfate as Hx. simpl. f_equal.
      transitivity (set_ref (wrap_long (ref it - 1)) (payload x));
        [by destruct x|]. by rewrite Hx.
  - exact Hother.
  - intros a [Hab Ha]%not_elem_of_cons. unfold w2.
    rewrite release_world_other by done. unfold w1.
    rewrite (remove_linked_outside wa s hs [] b l)
      by (simpl; by apply not_elem_of_cons).
    unfold wa, addref_world. world_simpl. by rewrite lookup_alter_ne.
  - unfold w2. rewrite release_world_scenes. unfold w1.
    by rewrite remove_linked_mutex.
Qed.

Lemma enum_items_loop_remover s hs l : ∀ w fuel,
  scene_wf w s hs l → shared w l → (length l ≤ fuel)%nat →
  ∃ w', enum_items_loop fuel remover (Some s) (head l) w = Ok tt w' ∧
        scene_wf w' s hs [] ∧
        trace w' = trace w ++ concat (removal_trace_at w s hs <$> l) ∧
        (∀ a, a ∈ l → cell w' a = cell w a ≫= after_removal) ∧
        (∀ a, a ∉ l → items w' !! a = items w !! a) ∧
        mutex <$> scenes w' !! s = mutex <$> scenes w !! s.
Proof.
  induction l as [|b l IH]; intros w fuel Hwf Hsh Hfuel.
  - exists w. split_and!; [by destruct fuel|done|by rewrite app_nil_r| |done..].
    intros a Ha. by apply elem_of_nil in Ha.
  - destruct fuel as [|k]; [simpl in Hfuel; lia|].
    destruct (list_is_Some w s (b :: l) b) as [it Hit];
      [apply Hwf|by left|].
    apply Forall_cons in Hsh as [(r & Hr & Hrr) Hsh].
    rewrite Hit in Hr. injection Hr as <-.
    destruct (wf_cell w s hs [] b l Hwf) as (_ & Hn & _).
    destruct (remover_round w s hs b l it Hwf Hit Hrr)
      as (Hrun & Hrel & Hwf2 & Htr2 & Hfate & Hother & Hout2 & Hmx2).
    set (wa := addref_world w b (ref it)) in *.
    set (w1 := release_world (unlinked wa _ _ _ _ _ _) _ _ _) in *.
    set (w2 := release_world w1 _ _ _) in *.
    pose proof (sl_nodup _ _ _ (wf_list _ _ _ _ Hwf)) as Hnd.
    apply NoDup_cons in Hnd as [Hb Hnd].
    assert (∀ a, a ∈ l → cell w2 a = cell w a) as Hin2.
    { intros a Ha. apply Hother. by intros ->. }
    destruct (IH w2 k Hwf2) as (w' & Hloop & Hwf' & Htr & Hin & Hout & Hmx);
      [by apply (shared_transfer w)|simpl in Hfuel; lia|].
    exists w'. split_and!; [|done|..].
    + cbn [head enum_items_loop]. step.
      erewrite bind_Ok; [|apply (addref_exec _ b (ref it)); by rewrite Hit].
      fold wa. unfold remover. rewrite bind_assoc.
      erewrite bind_Ok; [|exact Hrun].
      erewrite bind_Ok; [|reflexivity]. cbn beta iota.
      erewrite bind_Ok; [|exact Hrel]. exact Hloop.
    + rewrite Htr, Htr2. rewrite fmap_cons. cbn [concat].
      rewrite <- app_assoc. do 2 f_equal.
      * unfold removal_trace_at. by erewrite cell_Some.
      * f_equal. apply list_fmap_ext. intros j a Ha.
        unfold removal_trace_at. rewrite Hin2; [done|].
        by eapply list_elem_of_lookup_2.
    + intros a [->|Ha]%elem_of_cons.
      * assert (cell w' b = cell w2 b) as ->
          by (unfold cell; by rewrite (Hout b Hb)).
        rewrite Hfate. unfold cell. by rewrite Hit.
      * by rewrite (Hin a Ha), (Hin2 a Ha).
    + intros a Ha. rewrite Hout by (by apply not_elem_of_cons in Ha as [_ ?]).
      by apply Hout2.
    + by rewrite Hmx.
Qed.

(** X13: a callback may remove the item it is handed.  The enumeration still
    reaches every item, and when it returns the scene is empty, each item
    has been unlinked and lost the scene's reference, and whatever is not in
    the scene is untouched. *)
Theorem obs_scene_enum_items_removing w s hs l :
  scene_wf w s hs l → shared w l →
  ∃ w', obs_scene_enum_items (Some s) (Some remover) w = Ok tt w' ∧
        scene_wf w' s hs [] ∧
        trace w' = trace w ++ concat (removal_trace_at w s hs <$> l) ∧
        (∀ a, a ∈ l → cell w' a = cell w a ≫= after_removal) ∧
        (∀ a, a ∉ l → items w' !! a = items w !! a) ∧
        mutex <$> scenes w' !! s = mutex <$> scenes w !! s.
Proof.
  intros Hwf Hsh.
  pose proof (list_le_heap _ _ _ (wf_list _ _ _ _ Hwf)) as Hlen.
  pose proof (scene_wf_mutex w s hs l S Hwf) as Hwf1.
  destruct (enum_items_loop_remover s hs l _ (S (size (items w))) Hwf1)
    as (w2 & Hloop & Hwf2 & Htr & Hin & Hout & Hmx); [done|lia|].
  pose proof (scene_wf_mutex w2 s hs [] Nat.pred Hwf2) as Hwf3.
  destruct Hwf as [[Hf _ _] _ _ _].
  pose proof (wf_host _ _ _ _ Hwf2) as Hhs2.
  eexists. split_and!; [|exact Hwf3|exact Htr|exact Hin|exact Hout|].
  - unfold obs_scene_enum_items, pthread_mutex_lock, pthread_mutex_unlock.
    do 4 step. erewrite bind_Ok; [|exact Hloop]. do 2 step. reflexivity.
  - cbn [scenes] in Hmx |- *. rewrite fld_alter_eq in Hmx |- *.
    destruct (scenes w2 !! s) as [c2|], (scenes w !! s) as [c|];
      simpl in *; try done.
    injection Hmx as Hm. by rewrite Hm.
Qed.

End Enumerate.

(** * Accessors on a live item *)

Section Accessors.
Context {FM : FloatModel}.
Implicit Types (l : list ptr) (a i : ptr) (w : world).

(** What a setter that touches neither links, parent nor removal flag does
    to a scene. *)
Lemma setter_Ok (u : obs_scene_item → obs_scene_item) w s hs l i it :
  (∀ x, prev (u x) = prev x) → (∀ x, next (u x) = next x) →
  (∀ x, parent (u x) = parent x) → (∀ x, removed (u x) = removed x) →
  scene_wf w s hs l → items w !! i = Some it →
  ∃ w', wr u i w = Ok tt w' ∧
        items w' !! i = Some (u it) ∧
        (∀ a, a ≠ i → items w' !! a = items w !! a) ∧
        scenes w' = scenes w ∧ trace w' = trace w ∧
        scene_wf w' s hs l.
Proof.
  intros Hp Hn Hpar Hrm Hwf Hit.
  exists (set_items (alter u i (items w)) w). split_and!.
  - apply wr_Ok. by rewrite Hit.
  - world_simpl. by rewrite lookup_alter_eq, Hit.
  - intros a Ha. world_simpl. by rewrite lookup_alter_ne.
  - done.
  - done.
  - apply (scene_wf_transfer w); [done|done|..]; intros a _; world_simpl;
      by apply fld_alter_keep.
Qed.

(** X14: on an item of a scene, each setter stores its argument where the
    matching getter finds it, changes nothing else of that item, no other
    item, no scene and makes no call, and the scene's list stays as it
    was. *)
Theorem setters_store w s hs l i it (v out : vec2) (r : float) :
  scene_wf w s hs l → items w !! i = Some it →
  (∃ w', obs_sceneitem_setpos (Some i) v w = Ok tt w' ∧
         obs_sceneitem_getpos (Some i) out w' = Ok v w' ∧
         items w' !! i = Some (set_pos v it) ∧
         (∀ a, a ≠ i → items w' !! a = items w !! a) ∧
         scenes w' = scenes w ∧ trace w' = trace w ∧ scene_wf w' s hs l) ∧
  (∃ w', obs_sceneitem_setrot (Some i) r w = Ok tt w' ∧
         obs_sceneitem_getrot (Some i) w' = Ok r w' ∧
         items w' !! i = Some (set_rot r it) ∧
         (∀ a, a ≠ i → items w' !! a = items w !! a) ∧
         scenes w' = scenes w ∧ trace w' = trace w ∧ scene_wf w' s hs l) ∧
  (∃ w', obs_sceneitem_setorigin (Some i) v w = Ok tt w' ∧
         obs_sceneitem_getorigin (Some i) out w' = Ok v w' ∧
         items w' !! i = Some (set_origin v it) ∧
         (∀ a, a ≠ i → items w' !! a = items w !! a) ∧
         scenes w' = scenes w ∧ trace w' = trace w ∧ scene_wf w' s hs l) ∧
  (∃ w', obs_sceneitem_setscale (Some i) v w = Ok tt w' ∧
         obs_sceneitem_getscale (Some i) out w' = Ok v w' ∧
         items w' !! i = Some (set_scale v it) ∧
         (∀ a, a ≠ i → items w' !! a = items w !! a) ∧
         scenes w' = scenes w ∧ trace w' = trace w ∧ scene_wf w' s hs l).
Proof.
  intros Hwf Hit. split_and!.
  - destruct (setter_Ok (set_pos v) w s hs l i it)
      as (w' & ? & Hi & ? & ? & ? & ?); [done..|].
    exists w'. split_and!; [done| |done..]. apply rd_Ok. by rewrite Hi.
  - destruct (setter_Ok (set_rot r) w s hs l i it)
      as (w' & ? & Hi & ? & ? & ? & ?); [done..|].
    exists w'. split_and!; [done| |done..]. apply rd_Ok. by rewrite Hi.
  - destruct (setter_Ok (set_origin v) w s hs l i it)
      as (w' & ? & Hi & ? & ? & ? & ?); [done..|].
    exists w'. split_and!; [done| |done..]. apply rd_Ok. by rewrite Hi.
  - destruct (setter_Ok (set_scale v) w s hs l i it)
      as (w' & ? & Hi & ? & ? & ? & ?); [done..|].
    exists w'. split_and!; [done| |done..]. apply rd_Ok. by rewrite Hi.
Qed.

End Accessors.

(** * Adding and removing again *)

Section AddRemove.
Context {FM : FloatModel}.
Implicit Types (l : list ptr) (a i : ptr) (w : world).

Lemma added_cell w s hs src l a :
  a ≠ fresh (dom (items w)) → cell (added w s hs src l) a = cell w a.
Proof.
  intros Ha. unfold cell. apply (added_other payload); [|done].
  by intros v [].
Qed.

Lemma add_remove_Ok w s hs src l :
  scene_wf w s hs l →
  let i := fresh (dom (items w)) in
  ∃ w1 w2,
    obs_scene_add (Some s) (Some src) w = Ok (Some i) w1 ∧
    obs_sceneitem_remove (Some i) w1 = Ok tt w2 ∧
    scene_wf w2 s hs l ∧
    items w2 !! i = None ∧
    (∀ a, a ≠ i → cell w2 a = cell w a) ∧
    mutex <$> scenes w2 !! s = mutex <$> scenes w !! s ∧
    trace w2 = trace w ++
      [obs_source_addref (Some src);
       obs_source_add_child (Some hs) (Some src);
       signal_handler_signal hs "item_add" (Some s) (Some i);
       obs_source_remove_child (Some hs) (Some src);
       signal_handler_signal hs "item_remove" (Some s) (Some i);
       obs_source_release (Some src);
       bfree i].
Proof.
  intros Hwf i.
  pose proof (add_exec w s hs src l Hwf) as Hadd.
  pose proof (added_wf w s hs src l Hwf) as Hwf1.
  pose proof (added_item w s hs src l (wf_list _ _ _ _ Hwf)) as Hi.
  fold i in Hadd, Hwf1, Hi.
  set (w1 := added w s hs src l) in *.
  destruct (remove_linked w1 s hs l i [] 1 (Some src) Hwf1)
    as [Hrun Hwf2]; [by rewrite Hi..|].
  pose proof (remove_linked_fate w1 s hs l i [] _ Hwf1 Hi) as Hfate.
  cbn [new_item ref source] in Hfate.
  rewrite app_nil_r in Hwf2.
  eexists _, _. split_and!; [exact Hadd|exact Hrun|exact Hwf2|..].
  - apply eq_None_not_Some. rewrite <- cell_is_Some, Hfate.
    unfold after_removal. by rewrite bool_decide_eq_true_2 by by vm_compute.
  - intros a Ha. rewrite (remove_linked_cell w1 s hs l i []) by done.
    by apply added_cell.
  - rewrite remove_linked_mutex. subst w1. unfold added. world_simpl.
    destruct l; [|done]. by rewrite fld_alter_keep.
  - erewrite remove_linked_trace by done. subst w1. unfold added, removal_trace.
    world_simpl. cbn [new_item payload ref source set_prev set_next].
    rewrite bool_decide_eq_true_2 by by vm_compute.
    by rewrite <- app_assoc.
Qed.

(** X15: removing an item right after adding it gives the scene its old
    list back, frees the new item, leaves every other item with its data,
    and the source runtime sees the reference and the child registration
    taken and given back. *)
Theorem add_then_remove w s hs src l :
  scene_wf w s hs l →
  let i := fresh (dom (items w)) in
  ∃ w1 w2,
    obs_scene_add (Some s) (Some src) w = Ok (Some i) w1 ∧
    obs_sceneitem_remove (Some i) w1 = Ok tt w2 ∧
    scene_wf w2 s hs l ∧
    items w2 !! i = None ∧
    (∀ a, a ≠ i → cell w2 a = cell w a) ∧
    mutex <$> scenes w2 !! s = mutex <$> scenes w !! s ∧
    trace w2 = trace w ++
      [obs_source_addref (Some src);
       obs_source_add_child (Some hs) (Some src);
       signal_handler_signal hs "item_add" (Some s) (Some i);
       obs_source_remove_child (Some hs) (Some src);
       signal_handler_signal hs "item_remove" (Some s) (Some i);
       obs_source_release (Some src);
       bfree i].
Proof. apply add_remove_Ok. Qed.

End AddRemove.

(** * Rendering a scene that loses no item *)

Section RenderAgain.
Context {FM : FloatModel} (env : environment).
Implicit Types (l : list ptr) (a i : ptr) (w : world).

(** The calls made for the item at [a] when it is drawn. *)
Definition draw_trace_at w a : list event :=
  from_option draw_trace [] (cell w a).

Lemma render_loop_still w sc l : ∀ p fuel t,
  dll (items w) p l None → Forall (kept env w) l → (length l ≤ fuel)%nat →
  render_loop env fuel (head l) (World (items w) sc t) =
    Ok tt (World (items w) sc (t ++ concat (draw_trace_at w <$> l))).
Proof.
  induction l as [|a l IH]; intros p fuel t Hl Hkept Hfuel.
  - destruct fuel; simpl; by rewrite app_nil_r.
  - destruct fuel as [|k]; [simpl in Hfuel; lia|].
    apply Forall_cons in Hkept as [Ha Hkept].
    destruct (dll_is_Some _ _ _ _ a Hl) as [it Hit]; [by left|].
    destruct Hl as (_ & Hn & Hl). rewrite head_or_None in Hn.
    unfold kept in Ha. rewrite (cell_Some _ _ _ Hit) in Ha.
    apply (inj Some) in Ha.
    change (item_gone env (payload it))
      with (obs_source_removed env (source it)) in Ha.
    cbn [head render_loop]. step. rewrite Ha.
    repeat step. rewrite <- !app_assoc.
    erewrite (IH (Some a) k); [|done|done|simpl in Hfuel; lia].
    rewrite fmap_cons. cbn [concat]. unfold draw_trace_at at 2.
    rewrite (cell_Some _ _ _ Hit). cbn [from_option].
    by rewrite <- !app_assoc.
Qed.

Lemma scene_video_render_still w s l :
  scene_list w s l → Forall (kept env w) l →
  scene_video_render env (Some s) w =
    Ok tt (World (items w) (scenes w)
             (trace w ++ concat (draw_trace_at w <$> l))).
Proof.
  intros Hsl Hkept. pose proof Hsl as [Hf Hl Hnd].
  pose proof (list_le_heap _ _ _ Hsl) as Hlen.
  unfold scene_video_render, pthread_mutex_lock, pthread_mutex_unlock.
  do 5 step.
  erewrite bind_Ok;
    [|eapply (render_loop_still w _ l None); [done|done|simpl; lia]].
  do 2 step. by rewrite alter_lock_unlock.
Qed.

(** What the loop of [scene_video_render] leaves alone: every item whose
    source has not been removed. *)
Lemma render_loop_fate s hs rest : ∀ done_ w fuel,
  scene_wf w s hs (done_ ++ rest) → (length rest ≤ fuel)%nat →
  ∃ w', render_loop env fuel (head rest) w = Ok tt w' ∧
        (∀ b, kept env w b → cell w' b = cell w b).
Proof.
  induction rest as [|a rest IH]; intros done_ w fuel Hwf Hfuel.
  - exists w. by destruct fuel.
  - destruct fuel as [|k]; [simpl in Hfuel; lia|].
    pose proof (wf_list _ _ _ _ Hwf) as Hsl.
    destruct (list_is_Some w s _ a Hsl) as [it Hit];
      [apply elem_of_app; right; by left|].
    destruct (wf_cell w s hs done_ a rest Hwf) as (_ & Hn & _).
    cbn [head render_loop]. step.
    destruct (obs_source_removed env (source it)) eqn:Hgone.
    + destruct (remove_linked w s hs done_ a rest (ref it) (source it) Hwf)
        as [Hrun Hwf1]; [by rewrite Hit..|].
      destruct (IH done_ _ k Hwf1) as (w' & Hloop & Hin);
        [simpl in Hfuel; lia|].
      exists w'. split.
      * step. erewrite bind_Ok; [|exact Hrun]. exact Hloop.
      * intros b Hb.
        assert (b ≠ a) as Hne.
        { intros ->. unfold kept in Hb. rewrite (cell_Some _ _ _ Hit) in Hb.
          apply (inj Some) in Hb.
          change (item_gone env (payload it))
            with (obs_source_removed env (source it)) in Hb. congruence. }
        rewrite Hin.
        -- by apply remove_linked_cell.
        -- unfold kept. by rewrite remove_linked_cell.
    + set (w1 := World (items w) (scenes w) (trace w ++ draw_trace it)).
      assert (scene_wf w1 s hs ((done_ ++ [a]) ++ rest)) as Hwf1.
      { rewrite <- app_assoc. eapply scene_wf_transfer; [exact Hwf|done..]. }
      destruct (IH (done_ ++ [a]) w1 k Hwf1) as (w' & Hloop & Hin);
        [simpl in Hfuel; lia|].
      exists w'. split.
      * repeat step. rewrite <- !app_assoc. exact Hloop.
      * intros b Hb. by apply Hin.
Qed.

Lemma render_twice_Ok w s hs l :
  scene_wf w s hs l →
  ∃ w1, scene_video_render env (Some s) w = Ok tt w1 ∧
        scene_wf w1 s hs (filter (kept env w) l) ∧
        scene_video_render env (Some s) w1 =
          Ok tt (World (items w1) (scenes w1)
                   (trace w1 ++
                    concat (draw_trace_at w <$> filter (kept env w) l))).
Proof.
  intros Hwf.
  destruct (scene_video_render_Ok env w s hs l Hwf)
    as (w1 & Hrun & Hwf1 & _ & _).
  pose proof (list_le_heap _ _ _ (wf_list _ _ _ _ Hwf)) as Hlen.
  pose proof (scene_wf_mutex w s hs l S Hwf) as Hwfm.
  destruct (render_loop_fate s hs l [] _ (S (size (items w))) Hwfm)
    as (w2 & Hloop & Hin); [simpl; lia|].
  destruct (render_loop_Ok env s hs l [] _ (S (size (items w))) Hwfm)
    as (w2' & Hloop' & Hwf2 & _); [simpl; lia|].
  rewrite Hloop in Hloop'. injection Hloop' as <-.
  assert (scene_video_render env (Some s) w =
            Ok tt (set_scenes
                     (alter (λ sc, set_mutex (Nat.pred (mutex sc)) sc) s
                        (scenes w2)) w2)) as Hrun'.
  { unfold scene_video_render, pthread_mutex_lock, pthread_mutex_unlock.
    pose proof (wf_host _ _ _ _ Hwf) as Hhs.
    pose proof (sl_first _ _ _ (wf_list _ _ _ _ Hwf)) as Hf.
    pose proof (wf_host _ _ _ _ Hwf2) as Hhs2.
    do 5 step. erewrite bind_Ok; [|exact Hloop]. do 2 step. reflexivity. }
  rewrite Hrun in Hrun'. injection Hrun' as ->.
  assert (∀ b, kept env w b →
            cell (set_scenes
                    (alter (λ sc, set_mutex (Nat.pred (mutex sc)) sc) s
                       (scenes w2)) w2) b = cell w b) as Hcell.
  { intros b Hb. by apply Hin. }
  set (w1 := set_scenes _ w2) in *.
  exists w1. split_and!; [done|done|].
  rewrite (scene_video_render_still w1 s (filter (kept env w) l)).
  - assert (draw_trace_at w1 <$> filter (kept env w) l =
            draw_trace_at w <$> filter (kept env w) l) as ->; [|done].
    apply list_fmap_ext. intros j b Hb.
    apply list_elem_of_lookup_2, list_elem_of_filter in Hb as [Hb _].
    unfold draw_trace_at. by rewrite Hcell.
  - apply Hwf1.
  - apply Forall_forall. intros b [Hb _]%list_elem_of_filter.
    unfold kept. by rewrite Hcell.
Qed.

(** Drawing the cells of a stretch of the list none of whose sources has
    been removed, up to the cell [n] that follows it. *)
Lemma render_loop_prefix w sc l : ∀ p n fuel t,
  dll (items w) p l n → Forall (kept env w) l →
  render_loop env (length l + fuel) (head_or l n) (World (items w) sc t) =
  render_loop env fuel n
    (World (items w) sc (t ++ concat (draw_trace_at w <$> l))).
Proof.
  induction l as [|a l IH]; intros p n fuel t Hl Hkept.
  - simpl. by rewrite app_nil_r.
  - apply Forall_cons in Hkept as [Ha Hkept].
    destruct (dll_is_Some _ _ _ _ a Hl) as [it Hit]; [by left|].
    destruct Hl as (_ & Hn & Hl).
    unfold kept in Ha. rewrite (cell_Some _ _ _ Hit) in Ha.
    apply (inj Some) in Ha.
    change (item_gone env (payload it))
      with (obs_source_removed env (source it)) in Ha.
    cbn [head_or length Nat.add render_loop]. step. rewrite Ha.
    repeat step. rewrite <- !app_assoc.
    erewrite (IH (Some a) n fuel); [|done|done].
    rewrite fmap_cons. cbn [concat]. unfold draw_trace_at at 2.
    rewrite (cell_Some _ _ _ Hit). cbn [from_option].
    by rewrite <- !app_assoc.
Qed.

(** The loop reaches an item that has no scene and whose source has been
    removed. *)
Lemma render_loop_orphan w i k src n :
  parent <$> items w !! i = Some None →
  removed <$> items w !! i = Some false →
  source <$> items w !! i = Some src → next <$> items w !! i = Some n →
  obs_source_removed env src = true →
  render_loop env (S k) (Some i) w = Crash AssertFailed.
Proof.
  intros Hpar Hrm Hsrc Hn Hgone. cbn [render_loop]. step. rewrite Hgone.
  step. apply bind_Crash. by apply remove_orphan.
Qed.

Lemma render_after_down w s hs l1 i nn l2 it :
  scene_wf w s hs (l1 ++ i :: nn :: l2) → items w !! i = Some it →
  obs_source_removed env (source it) = true →
  Forall (kept env w) (l1 ++ [nn]) →
  ∃ w', obs_sceneitem_setorder (Some i) ORDER_MOVE_DOWN w = Ok tt w' ∧
        scene_list w' s (l1 ++ nn :: i :: l2) ∧
        scene_video_render env (Some s) w' = Crash AssertFailed.
Proof.
  intros Hwf Hit Hgone Hkept.
  destruct (setorder_completes w s hs l1 i (nn :: l2) (l1 ++ [nn]) l2 nn
              ORDER_MOVE_DOWN Hwf) as (w' & Hrun & Hl & Hi & Hothers & _);
    [by rewrite <- app_assoc|apply last_snoc|
     intros w2 f; by apply reattach_down|].
  exists w'. split; [done|].
  pose proof (list_le_heap _ _ _ Hl) as Hlen.
  pose proof Hl as [Hf Hd Hnd].
  rewrite <- app_assoc in Hl. cbn [app] in Hl. split; [done|].
  apply dll_app in Hd as [Hpre Hrest].
  cbn [head_or] in Hpre. destruct Hrest as (_ & Hnx & _).
  apply NoDup_app in Hnd as (_ & Hdis & _).
  assert (∀ a, a ∈ l1 ++ [nn] → a ≠ i) as Hne.
  { intros a Ha ->. apply (Hdis i Ha). by left. }
  assert (Forall (kept env w') (l1 ++ [nn])) as Hkept'.
  { apply Forall_forall. intros a Ha. unfold kept.
    rewrite Hothers by auto. by apply (proj1 (Forall_forall _ _) Hkept). }
  unfold cell in Hi. rewrite Hit in Hi.
  destruct (items w' !! i) as [it'|] eqn:Hit'; [|done].
  apply (inj Some) in Hi.
  assert (parent it' = None ∧ removed it' = removed it ∧
          source it' = source it) as (Hp' & Hr' & Hs').
  { pose proof (f_equal parent Hi) as H1.
    pose proof (f_equal removed Hi) as H2.
    pose proof (f_equal source Hi) as H3. by cbn in H1, H2, H3. }
  destruct (wf_cell w s hs l1 i (nn :: l2) Hwf) as (_ & _ & _ & Hrm).
  rewrite Hit in Hrm. apply (inj Some) in Hrm.
  rewrite length_app in Hlen. simpl in Hlen.
  unfold scene_video_render, pthread_mutex_lock.
  do 5 step.
  replace (S (size (items w')))
    with (length (l1 ++ [nn]) +
          S (size (items w') - length (l1 ++ [nn])))%nat by lia.
  rewrite <- head_or_None, (head_or_app (l1 ++ [nn])).
  change (head_or (i :: l2) None) with (Some i).
  apply bind_Crash.
  rewrite (render_loop_prefix w' _ (l1 ++ [nn]) None (Some i)) by done.
  eapply render_loop_orphan; world_simpl; rewrite ?Hit'; simpl;
    [by rewrite Hp'|by rewrite Hr', Hrm|reflexivity| |by rewrite Hs'].
  exact Hnx.
Qed.

(** X16: a scene none of whose sources has been removed is drawn item by
    item in paint order, and neither the items nor the scene change. *)
Theorem render_keeps_live_scene w s l :
  scene_list w s l → Forall (kept env w) l →
  scene_video_render env (Some s) w =
    Ok tt (World (items w) (scenes w)
             (trace w ++ concat (draw_trace_at w <$> l))).
Proof. apply scene_video_render_still. Qed.

(** X17: rendering cleans up once.  A second render right after the first
    finds nothing to remove: it draws the items the first one kept, in their
    order, and leaves items and scene as the first render left them. *)
Theorem render_twice w s hs l :
  scene_wf w s hs l →
  ∃ w1, scene_video_render env (Some s) w = Ok tt w1 ∧
        scene_wf w1 s hs (filter (kept env w) l) ∧
        scene_video_render env (Some s) w1 =
          Ok tt (World (items w1) (scenes w1)
                   (trace w1 ++
                    concat (draw_trace_at w <$> filter (kept env w) l))).
Proof. apply render_twice_Ok. Qed.

(** X18: a reordered item cannot be cleaned up.  After [ORDER_MOVE_DOWN]
    has moved an item, a render that finds the item's source removed stops at
    the assertion of [obs_sceneitem_remove]: the item has no scene any
    more. *)
Theorem render_after_setorder_faults w s hs l1 i nn l2 it :
  scene_wf w s hs (l1 ++ i :: nn :: l2) → items w !! i = Some it →
  obs_source_removed env (source it) = true →
  Forall (kept env w) (l1 ++ [nn]) →
  ∃ w', obs_sceneitem_setorder (Some i) ORDER_MOVE_DOWN w = Ok tt w' ∧
        scene_list w' s (l1 ++ nn :: i :: l2) ∧
        scene_video_render env (Some s) w' = Crash AssertFailed.
Proof. apply render_after_down. Qed.

End RenderAgain.

(** * Saving *)

Section SaveMore.
Context {FM : FloatModel} (env : environment).
Implicit Types (l : list ptr) (a i : ptr) (w : world).

Lemma cells_length w s l : scene_list w s l → length (cells w l) = length l.
Proof.
  intros Hsl. pose proof (list_is_Some w s l) as Hsome.
  assert (∀ a, a ∈ l → is_Some (items w !! a)) as Hall by auto.
  clear Hsl Hsome. induction l as [|a l IH]; [done|].
  destruct (Hall a) as [it Hit]; [by left|].
  rewrite (cells_cons _ _ _ _ Hit). simpl. f_equal. apply IH.
  intros; apply Hall; by right.
Qed.

(** X19: [scene_save] only reads.  It writes one record per item under the
    key "items", keeps every other key of the settings, leaves the store as
    it was, and saving again into its own result changes nothing. *)
Theorem scene_save_reads_only w s l (settings : gmap string (list item_data)) :
  scene_list w s l →
  ∃ recs settings',
    scene_save env (Some s) settings w = Ok settings' w ∧
    settings' !! "items" = Some recs ∧ length recs = length l ∧
    (∀ k, k ≠ "items" → settings' !! k = settings !! k) ∧
    scene_save env (Some s) settings' w = Ok settings' w.
Proof.
  intros Hsl. eexists _, _. split_and!.
  - by apply scene_save_Ok.
  - apply lookup_insert_eq.
  - rewrite length_fmap. by eapply cells_length.
  - intros k Hk. by rewrite lookup_insert_ne.
  - rewrite (scene_save_Ok env w s l) by done. by rewrite insert_insert_eq.
Qed.

End SaveMore.

(** * mac-audio.c: the sample format of a CoreAudio stream *)

Section MacAudio.

(** [enum audio_format], as far as [convert_ca_format] names it. *)
Inductive audio_format :=
  | AUDIO_FORMAT_UNKNOWN
  | AUDIO_FORMAT_U8BIT
  | AUDIO_FORMAT_16BIT
  | AUDIO_FORMAT_32BIT
  | AUDIO_FORMAT_FLOAT
  | AUDIO_FORMAT_U8BIT_PLANAR
  | AUDIO_FORMAT_16BIT_PLANAR
  | AUDIO_FORMAT_32BIT_PLANAR
  | AUDIO_FORMAT_FLOAT_PLANAR.

Definition is_planar (f : audio_format) : bool :=
  match f with
  | AUDIO_FORMAT_U8BIT_PLANAR | AUDIO_FORMAT_16BIT_PLANAR
  | AUDIO_FORMAT_32BIT_PLANAR | AUDIO_FORMAT_FLOAT_PLANAR => true
  | _ => false
  end.

(** The flag masks of the platform's headers; the function is read for any
    values of them. *)
Variables (kAudioFormatFlagIsFloat kAudioFormatFlagIsSignedInteger
           kAudioFormatFlagIsNonInterleaved : Z).

(** [(format_flags & flag) != 0] *)
Definition has_flag (format_flags flag : Z) : bool :=
  negb (Z.land format_flags flag =? 0).

Definition convert_ca_format (format_flags bits : Z) : audio_format :=
  let planar := has_flag format_flags kAudioFormatFlagIsNonInterleaved in
  if has_flag format_flags kAudioFormatFlagIsFloat then
    if planar then AUDIO_FORMAT_FLOAT_PLANAR else AUDIO_FORMAT_FLOAT
  else if negb (has_flag format_flags kAudioFormatFlagIsSignedInteger)
          && (bits =? 8) then
    if planar then AUDIO_FORMAT_U8BIT_PLANAR else AUDIO_FORMAT_U8BIT
  else if Z.land format_flags kAudioFormatFlagIsSignedInteger =? 0 then
    AUDIO_FORMAT_UNKNOWN
  else if bits =? 16 then
    if planar then AUDIO_FORMAT_16BIT_PLANAR else AUDIO_FORMAT_16BIT
  else if bits =? 32 then
    if planar then AUDIO_FORMAT_32BIT_PLANAR else AUDIO_FORMAT_32BIT
  else AUDIO_FORMAT_UNKNOWN.

(** X20: whenever [convert_ca_format] knows the format, the result is planar
    exactly when the non-interleaved flag is set. *)
Theorem convert_ca_format_planar format_flags bits :
  convert_ca_format format_flags bits = AUDIO_FORMAT_UNKNOWN ∨
  is_planar (convert_ca_format format_flags bits) =
    has_flag format_flags kAudioFormatFlagIsNonInterleaved.
Proof.
  unfold convert_ca_format.
  destruct (has_flag format_flags kAudioFormatFlagIsNonInterleaved),
    (has_flag format_flags kAudioFormatFlagIsFloat),
    (has_flag format_flags kAudioFormatFlagIsSignedInteger),
    (Z.land format_flags kAudioFormatFlagIsSignedInteger =? 0),
    (bits =? 8), (bits =? 16), (bits =? 32); simpl; auto.
Qed.

(** X21: [convert_ca_format] gives up exactly on a stream that is not float
    and is either unsigned with a width other than 8 bits, or signed with a
    width other than 16 or 32 bits; a float stream is float at any width. *)
Theorem convert_ca_format_unknown format_flags bits :
  (convert_ca_format format_flags bits = AUDIO_FORMAT_UNKNOWN ↔
   has_flag format_flags kAudioFormatFlagIsFloat = false ∧
   (if has_flag format_flags kAudioFormatFlagIsSignedInteger
    then bits ≠ 16 ∧ bits ≠ 32 else bits ≠ 8)) ∧
  (has_flag format_flags kAudioFormatFlagIsFloat = true →
   convert_ca_format format_flags bits = AUDIO_FORMAT_FLOAT ∨
   convert_ca_format format_flags bits = AUDIO_FORMAT_FLOAT_PLANAR).
Proof.
  unfold convert_ca_format, has_flag. split.
  - destruct (Z.land format_flags kAudioFormatFlagIsNonInterleaved =? 0),
      (Z.land format_flags kAudioFormatFlagIsFloat =? 0),
      (Z.land format_flags kAudioFormatFlagIsSignedInteger =? 0),
      (Z.eqb_spec bits 8), (Z.eqb_spec bits 16), (Z.eqb_spec bits 32);
      simpl; split; try done; try lia; intros [? ?]; try done; lia.
  - intros ->.
    destruct (negb (Z.land format_flags kAudioFormatFlagIsNonInterleaved =? 0));
      auto.
Qed.

End MacAudio.

(** * The further properties on the sample scene *)

Section MoreSamples.

#[local] Existing Instance sample_floats.

(** A scene with one item. *)
Definition sole_scene : world :=
  World
    (list_to_map [(1%positive, sample_item 1 11%positive None None 10)])
    (list_to_map [(100%positive, Scene (Some 50%positive) 0 (Some 1%positive))])
    [].

(** No source has been removed. *)
Definition live_env : environment :=
  Env (λ _, false) (obs_get_source_by_name sample_env)
    (obs_source_getname sample_env).

Definition sample_name (src : ptr) : string :=
  obs_source_getname sample_env (Some src).

(** A callback that logs and goes on after the first item only. *)
Definition sample_observer : option ptr → option ptr → M bool :=
  λ _ item,
    call (blog LOG_WARNING "seen");;
    mret (from_option (λ a, bool_decide (a = 1%positive)) false item).

Definition sample_source_observer : option ptr → option ptr → M unit :=
  λ par child, call (obs_source_add_child par child).

Ltac wf_sample :=
  split; [split|..];
  [ reflexivity
  | vm_compute; repeat split
  | compute_done
  | reflexivity
  | repeat constructor
  | repeat constructor ].

Ltac sl_sample :=
  split; [ reflexivity | vm_compute; repeat split | compute_done ].

Lemma setorder_down_moves_sample :
  scene_wf sample_scene 100%positive 50%positive [1; 2; 3]%positive ∧
  ∃ w', obs_sceneitem_setorder (Some 1%positive) ORDER_MOVE_DOWN sample_scene =
          Ok tt w' ∧
        scene_list w' 100%positive [2; 1; 3]%positive ∧
        cell w' 1%positive = set_parent None <$> cell sample_scene 1%positive ∧
        (∀ a, a ≠ 1%positive → cell w' a = cell sample_scene a) ∧
        mutex <$> scenes w' !! 100%positive =
        mutex <$> scenes sample_scene !! 100%positive ∧
        trace w' = trace sample_scene ++
          [obs_source_addref (Some 50%positive);
           obs_source_release (Some 50%positive)].
Proof.
  assert (scene_wf sample_scene 100%positive 50%positive [1; 2; 3]%positive)
    as Hwf by wf_sample.
  split; [exact Hwf|].
  apply (setorder_down_moves sample_scene 100%positive 50%positive
           [] 1%positive 2%positive [3%positive] Hwf).
Defined.

Lemma setorder_top_moves_sample :
  scene_wf sample_scene 100%positive 50%positive [1; 2; 3]%positive ∧
  [] ++ [2; 3]%positive ≠ [] ∧
  ∃ w', obs_sceneitem_setorder (Some 1%positive) ORDER_MOVE_TOP sample_scene =
          Ok tt w' ∧
        scene_list w' 100%positive [2; 3; 1]%positive ∧
        cell w' 1%positive = set_parent None <$> cell sample_scene 1%positive ∧
        (∀ a, a ≠ 1%positive → cell w' a = cell sample_scene a) ∧
        mutex <$> scenes w' !! 100%positive =
        mutex <$> scenes sample_scene !! 100%positive ∧
        trace w' = trace sample_scene ++
          [obs_source_addref (Some 50%positive);
           obs_source_release (Some 50%positive)].
Proof.
  assert (scene_wf sample_scene 100%positive 50%positive [1; 2; 3]%positive)
    as Hwf by wf_sample.
  assert ([] ++ [2; 3]%positive ≠ []) as Hne by done.
  split_and!; [exact Hwf|exact Hne|].
  apply (setorder_top_moves sample_scene 100%positive 50%positive
           [] 1%positive [2; 3]%positive Hwf Hne).
Defined.

Lemma setorder_top_sole_faults_sample :
  scene_wf sole_scene 100%positive 50%positive [1%positive] ∧
  obs_sceneitem_setorder (Some 1%positive) ORDER_MOVE_TOP sole_scene =
    Crash AssertFailed.
Proof.
  assert (scene_wf sole_scene 100%positive 50%positive [1%positive])
    as Hwf by wf_sample.
  split; [exact Hwf|].
  apply (setorder_top_sole_faults sole_scene 100%positive 50%positive
           1%positive Hwf).
Defined.

Lemma setorder_then_remove_faults_sample :
  scene_wf sample_scene 100%positive 50%positive [1; 2; 3]%positive ∧
  ∃ w', obs_sceneitem_setorder (Some 1%positive) ORDER_MOVE_DOWN sample_scene =
          Ok tt w' ∧
        scene_list w' 100%positive [2; 1; 3]%positive ∧
        obs_sceneitem_getscene (Some 1%positive) w' = Ok None w' ∧
        obs_sceneitem_remove (Some 1%positive) w' = Crash AssertFailed ∧
        (∀ mv, obs_sceneitem_setorder (Some 1%positive) mv w' =
               Crash NullDeref).
Proof.
  assert (scene_wf sample_scene 100%positive 50%positive [1; 2; 3]%positive)
    as Hwf by wf_sample.
  split; [exact Hwf|].
  apply (setorder_then_remove_faults sample_scene 100%positive 50%positive
           [] 1%positive 2%positive [3%positive] Hwf).
Defined.

Lemma remove_unlinks_sample :
  let it := sample_item 2 12%positive (Some 1%positive) (Some 3%positive) 20 in
  scene_wf sample_scene 100%positive 50%positive [1; 2; 3]%positive ∧
  items sample_scene !! 2%positive = Some it ∧
  ∃ w', obs_sceneitem_remove (Some 2%positive) sample_scene = Ok tt w' ∧
        scene_wf w' 100%positive 50%positive [1; 3]%positive ∧
        cell w' 2%positive = after_removal (payload it) ∧
        (∀ a, a ≠ 2%positive → cell w' a = cell sample_scene a) ∧
        (∀ a, a ∉ [1; 2; 3]%positive →
              items w' !! a = items sample_scene !! a) ∧
        mutex <$> scenes w' !! 100%positive =
        mutex <$> scenes sample_scene !! 100%positive ∧
        trace w' = trace sample_scene ++
                   removal_trace 100%positive 50%positive 2%positive it.
Proof.
  intros it.
  assert (scene_wf sample_scene 100%positive 50%positive [1; 2; 3]%positive)
    as Hwf by wf_sample.
  split_and!; [exact Hwf|reflexivity|].
  apply (remove_unlinks sample_scene 100%positive 50%positive
           [1%positive] 2%positive [3%positive] it Hwf eq_refl).
Defined.

Lemma removed_item_setorder_faults_sample :
  let it := sample_item 2 12%positive (Some 1%positive) (Some 3%positive) 20 in
  scene_wf sample_scene 100%positive 50%positive [1; 2; 3]%positive ∧
  items sample_scene !! 2%positive = Some it ∧
  2 ≤ ref it ≤ LONG_MAX ∧
  ∃ w1, obs_sceneitem_remove (Some 2%positive) sample_scene = Ok tt w1 ∧
        obs_sceneitem_getscene (Some 2%positive) w1 = Ok None w1 ∧
        obs_sceneitem_getsource (Some 2%positive) w1 = Ok (source it) w1 ∧
        (∀ mv, obs_sceneitem_setorder (Some 2%positive) mv w1 =
               Crash NullDeref).
Proof.
  intros it.
  assert (scene_wf sample_scene 100%positive 50%positive [1; 2; 3]%positive)
    as Hwf by wf_sample.
  assert (2 ≤ ref it ≤ LONG_MAX) as Hr by (by vm_compute).
  split_and!; [exact Hwf|reflexivity|apply Hr..|].
  apply (removed_item_setorder_faults sample_scene 100%positive 50%positive
           [1%positive] 2%positive [3%positive] it Hwf eq_refl Hr).
Defined.

Lemma scene_destroy_unlinks_all_sample :
  scene_wf sample_scene 100%positive 50%positive [1; 2; 3]%positive ∧
  ∃ w', scene_destroy (Some 100%positive) sample_scene = Ok tt w' ∧
        scenes w' !! 100%positive = None ∧
        (∀ s', s' ≠ 100%positive →
               scenes w' !! s' = scenes sample_scene !! s') ∧
        (∀ a, a ∈ [1; 2; 3]%positive →
              cell w' a = cell sample_scene a ≫= after_removal) ∧
        (∀ a, a ∉ [1; 2; 3]%positive →
              items w' !! a = items sample_scene !! a) ∧
        trace w' = trace sample_scene ++
          concat (removal_trace_at sample_scene 100%positive 50%positive <$>
                    [1; 2; 3]%positive) ++
          [bfree 100%positive].
Proof.
  assert (scene_wf sample_scene 100%positive 50%positive [1; 2; 3]%positive)
    as Hwf by wf_sample.
  split; [exact Hwf|].
  apply (scene_destroy_unlinks_all sample_scene 100%positive 50%positive
           [1; 2; 3]%positive Hwf).
Defined.

Lemma held_item_outlives_scene_sample :
  let it := sample_item 2 12%positive (Some 1%positive) (Some 3%positive) 20 in
  scene_wf sample_scene 100%positive 50%positive [1; 2; 3]%positive ∧
  2%positive ∈ [1; 2; 3]%positive ∧
  items sample_scene !! 2%positive = Some it ∧
  2 ≤ ref it ≤ LONG_MAX ∧
  ∃ w', scene_destroy (Some 100%positive) sample_scene = Ok tt w' ∧
        obs_sceneitem_getscene (Some 2%positive) w' = Ok None w' ∧
        obs_sceneitem_remove (Some 2%positive) w' = Ok tt w' ∧
        (ref it = 2 →
         obs_sceneitem_release (Some 2%positive) w' =
           Ok tt (World (delete 2%positive (items w')) (scenes w')
                    (trace w' ++ destroy_trace (source it) 2%positive))).
Proof.
  intros it.
  assert (scene_wf sample_scene 100%positive 50%positive [1; 2; 3]%positive)
    as Hwf by wf_sample.
  assert (2%positive ∈ [1; 2; 3]%positive) as Hin by compute_done.
  assert (2 ≤ ref it ≤ LONG_MAX) as Hr by (by vm_compute).
  split_and!; [exact Hwf|exact Hin|reflexivity|apply Hr..|].
  apply (held_item_outlives_scene sample_scene 100%positive 50%positive
           [1; 2; 3]%positive 2%positive it Hwf Hin eq_refl Hr).
Defined.

Lemma scene_load_without_items_sample :
  scene_wf sample_scene 100%positive 50%positive [1; 2; 3]%positive ∧
  (∅ : gmap string (list item_data)) !! "items" = None ∧
  ∃ w', scene_load sample_env (Some 100%positive) ∅ sample_scene = Ok tt w' ∧
        scene_wf w' 100%positive 50%positive [] ∧
        (∀ a, a ∈ [1; 2; 3]%positive →
              cell w' a = cell sample_scene a ≫= after_removal) ∧
        (∀ a, a ∉ [1; 2; 3]%positive →
              items w' !! a = items sample_scene !! a) ∧
        trace w' = trace sample_scene ++
          concat (removal_trace_at sample_scene 100%positive 50%positive <$>
                    [1; 2; 3]%positive).
Proof.
  assert (scene_wf sample_scene 100%positive 50%positive [1; 2; 3]%positive)
    as Hwf by wf_sample.
  assert ((∅ : gmap string (list item_data)) !! "items" = None) as Hno
    by (by vm_compute).
  split_and!; [exact Hwf|exact Hno|].
  apply (scene_load_without_items sample_env sample_scene 100%positive
           50%positive [1; 2; 3]%positive ∅ Hwf Hno).
Defined.

Lemma obs_scene_findsource_first_sample :
  scene_list sample_scene 100%positive [1; 2; 3]%positive ∧
  Forall (λ a, is_Some (item_name sample_name sample_scene a))
    [1; 2; 3]%positive ∧
  obs_scene_findsource sample_name (Some 100%positive) "b" sample_scene =
    Ok (head (filter (λ a, item_name sample_name sample_scene a = Some "b")
                [1; 2; 3]%positive)) sample_scene ∧
  obs_scene_findsource sample_name None "b" sample_scene = Ok None sample_scene.
Proof.
  assert (scene_list sample_scene 100%positive [1; 2; 3]%positive)
    as Hsl by sl_sample.
  assert (Forall (λ a, is_Some (item_name sample_name sample_scene a))
            [1; 2; 3]%positive) as Hnm by (repeat constructor; by eexists).
  split_and!; [exact Hsl|exact Hnm|..];
    apply (obs_scene_findsource_first sample_name sample_scene 100%positive
             [1; 2; 3]%positive "b" Hsl Hnm).
Defined.

Lemma obs_scene_enum_items_observer_sample :
  let verdict := λ a : ptr, bool_decide (a = 1%positive) in
  let note := λ _ : ptr, [blog LOG_WARNING "seen"] in
  scene_list sample_scene 100%positive [1; 2; 3]%positive ∧
  held sample_scene [1; 2; 3]%positive ∧
  (∀ a w0, sample_observer (Some 100%positive) (Some a) w0 =
     Ok (verdict a) (World (items w0) (scenes w0) (trace w0 ++ note a))) ∧
  obs_scene_enum_items (Some 100%positive) (Some sample_observer) sample_scene =
    Ok tt (World (items sample_scene) (scenes sample_scene)
             (trace sample_scene ++
              concat (note <$> visited verdict [1; 2; 3]%positive))) ∧
  obs_scene_enum_items None (Some sample_observer) sample_scene =
    Ok tt sample_scene ∧
  obs_scene_enum_items (Some 100%positive) None sample_scene =
    Ok tt sample_scene.
Proof.
  intros verdict note.
  assert (scene_list sample_scene 100%positive [1; 2; 3]%positive)
    as Hsl by sl_sample.
  assert (held sample_scene [1; 2; 3]%positive) as Hheld
    by (repeat constructor; eexists; (split; [reflexivity|by vm_compute])).
  assert (∀ a w0, sample_observer (Some 100%positive) (Some a) w0 =
            Ok (verdict a) (World (items w0) (scenes w0) (trace w0 ++ note a)))
    as Hcb by reflexivity.
  split_and!; [exact Hsl|exact Hheld|exact Hcb|..];
    apply (obs_scene_enum_items_observer sample_scene 100%positive
             [1; 2; 3]%positive sample_observer verdict note Hsl Hheld Hcb).
Defined.

Lemma scene_enum_sources_each_sample :
  let note := λ x y : option ptr, [obs_source_add_child x y] in
  scene_list sample_scene 100%positive [1; 2; 3]%positive ∧
  held sample_scene [1; 2; 3]%positive ∧
  scene_source <$> scenes sample_scene !! 100%positive =
    Some (Some 50%positive) ∧
  (∀ x y w0, sample_source_observer x y w0 =
     Ok tt (World (items w0) (scenes w0) (trace w0 ++ note x y))) ∧
  scene_enum_sources (Some 100%positive) sample_source_observer sample_scene =
    Ok tt (World (items sample_scene) (scenes sample_scene)
             (trace sample_scene ++
              concat ((λ a, note (Some 50%positive)
                              (items sample_scene !! a ≫= source)) <$>
                        [1; 2; 3]%positive))).
Proof.
  intros note.
  assert (scene_list sample_scene 100%positive [1; 2; 3]%positive)
    as Hsl by sl_sample.
  assert (held sample_scene [1; 2; 3]%positive) as Hheld
    by (repeat constructor; eexists; (split; [reflexivity|by vm_compute])).
  assert (∀ x y w0, sample_source_observer x y w0 =
            Ok tt (World (items w0) (scenes w0) (trace w0 ++ note x y)))
    as Hcb by reflexivity.
  split_and!; [exact Hsl|exact Hheld|reflexivity|exact Hcb|].
  apply (scene_enum_sources_each sample_scene 100%positive (Some 50%positive)
           [1; 2; 3]%positive sample_source_observer note Hsl Hheld eq_refl
           Hcb).
Defined.

Lemma obs_scene_enum_items_removing_sample :
  scene_wf sample_scene 100%positive 50%positive [1; 2; 3]%positive ∧
  shared sample_scene [1; 2; 3]%positive ∧
  ∃ w', obs_scene_enum_items (Some 100%positive) (Some remover) sample_scene =
          Ok tt w' ∧
        scene_wf w' 100%positive 50%positive [] ∧
        trace w' = trace sample_scene ++
          concat (removal_trace_at sample_scene 100%positive 50%positive <$>
                    [1; 2; 3]%positive) ∧
        (∀ a, a ∈ [1; 2; 3]%positive →
              cell w' a = cell sample_scene a ≫= after_removal) ∧
        (∀ a, a ∉ [1; 2; 3]%positive →
              items w' !! a = items sample_scene !! a) ∧
        mutex <$> scenes w' !! 100%positive =
        mutex <$> scenes sample_scene !! 100%positive.
Proof.
  assert (scene_wf sample_scene 100%positive 50%positive [1; 2; 3]%positive)
    as Hwf by wf_sample.
  assert (shared sample_scene [1; 2; 3]%positive) as Hsh
    by (repeat constructor; eexists; (split; [reflexivity|by vm_compute])).
  split_and!; [exact Hwf|exact Hsh|].
  apply (obs_scene_enum_items_removing sample_scene 100%positive 50%positive
           [1; 2; 3]%positive Hwf Hsh).
Defined.

Lemma setters_store_sample :
  let it := sample_item 2 12%positive (Some 1%positive) (Some 3%positive) 20 in
  let w := sample_scene in
  let l := [1; 2; 3]%positive in
  let i := 2%positive in
  let v := Vec2 7 8 in
  let out := Vec2 0 0 in
  scene_wf w 100%positive 50%positive l ∧
  items w !! i = Some it ∧
  (∃ w', obs_sceneitem_setpos (Some i) v w = Ok tt w' ∧
         obs_sceneitem_getpos (Some i) out w' = Ok v w' ∧
         items w' !! i = Some (set_pos v it) ∧
         (∀ a, a ≠ i → items w' !! a = items w !! a) ∧
         scenes w' = scenes w ∧ trace w' = trace w ∧
         scene_wf w' 100%positive 50%positive l) ∧
  (∃ w', obs_sceneitem_setrot (Some i) 45 w = Ok tt w' ∧
         obs_sceneitem_getrot (Some i) w' = Ok 45 w' ∧
         items w' !! i = Some (set_rot 45 it) ∧
         (∀ a, a ≠ i → items w' !! a = items w !! a) ∧
         scenes w' = scenes w ∧ trace w' = trace w ∧
         scene_wf w' 100%positive 50%positive l) ∧
  (∃ w', obs_sceneitem_setorigin (Some i) v w = Ok tt w' ∧
         obs_sceneitem_getorigin (Some i) out w' = Ok v w' ∧
         items w' !! i = Some (set_origin v it) ∧
         (∀ a, a ≠ i → items w' !! a = items w !! a) ∧
         scenes w' = scenes w ∧ trace w' = trace w ∧
         scene_wf w' 100%positive 50%positive l) ∧
  (∃ w', obs_sceneitem_setscale (Some i) v w = Ok tt w' ∧
         obs_sceneitem_getscale (Some i) out w' = Ok v w' ∧
         items w' !! i = Some (set_scale v it) ∧
         (∀ a, a ≠ i → items w' !! a = items w !! a) ∧
         scenes w' = scenes w ∧ trace w' = trace w ∧
         scene_wf w' 100%positive 50%positive l).
Proof.
  intros it w l i v out.
  assert (scene_wf w 100%positive 50%positive l) as Hwf by wf_sample.
  split_and!; [exact Hwf|reflexivity|..];
    apply (setters_store w 100%positive 50%positive l i it v out 45 Hwf
             eq_refl).
Defined.

Lemma add_then_remove_sample :
  scene_wf sample_scene 100%positive 50%positive [1; 2; 3]%positive ∧
  let i := fresh (dom (items sample_scene)) in
  ∃ w1 w2,
    obs_scene_add (Some 100%positive) (Some 77%positive) sample_scene =
      Ok (Some i) w1 ∧
    obs_sceneitem_remove (Some i) w1 = Ok tt w2 ∧
    scene_wf w2 100%positive 50%positive [1; 2; 3]%positive ∧
    items w2 !! i = None ∧
    (∀ a, a ≠ i → cell w2 a = cell sample_scene a) ∧
    mutex <$> scenes w2 !! 100%positive =
    mutex <$> scenes sample_scene !! 100%positive ∧
    trace w2 = trace sample_scene ++
      [obs_source_addref (Some 77%positive);
       obs_source_add_child (Some 50%positive) (Some 77%positive);
       signal_handler_signal 50%positive "item_add" (Some 100%positive)
         (Some i);
       obs_source_remove_child (Some 50%positive) (Some 77%positive);
       signal_handler_signal 50%positive "item_remove" (Some 100%positive)
         (Some i);
       obs_source_release (Some 77%positive);
       bfree i].
Proof.
  assert (scene_wf sample_scene 100%positive 50%positive [1; 2; 3]%positive)
    as Hwf by wf_sample.
  split; [exact Hwf|].
  apply (add_then_remove sample_scene 100%positive 50%positive 77%positive
           [1; 2; 3]%positive Hwf).
Defined.

Lemma render_keeps_live_scene_sample :
  scene_list sample_scene 100%positive [1; 2; 3]%positive ∧
  Forall (kept live_env sample_scene) [1; 2; 3]%positive ∧
  scene_video_render live_env (Some 100%positive) sample_scene =
    Ok tt (World (items sample_scene) (scenes sample_scene)
             (trace sample_scene ++
              concat (draw_trace_at sample_scene <$> [1; 2; 3]%positive))).
Proof.
  assert (scene_list sample_scene 100%positive [1; 2; 3]%positive)
    as Hsl by sl_sample.
  assert (Forall (kept live_env sample_scene) [1; 2; 3]%positive) as Hkept
    by (repeat constructor).
  split_and!; [exact Hsl|exact Hkept|].
  apply (render_keeps_live_scene live_env sample_scene 100%positive
           [1; 2; 3]%positive Hsl Hkept).
Defined.

Lemma render_twice_sample :
  scene_wf sample_scene 100%positive 50%positive [1; 2; 3]%positive ∧
  ∃ w1, scene_video_render sample_env (Some 100%positive) sample_scene =
          Ok tt w1 ∧
        scene_wf w1 100%positive 50%positive
          (filter (kept sample_env sample_scene) [1; 2; 3]%positive) ∧
        scene_video_render sample_env (Some 100%positive) w1 =
          Ok tt (World (items w1) (scenes w1)
                   (trace w1 ++
                    concat (draw_trace_at sample_scene <$>
                              filter (kept sample_env sample_scene)
                                [1; 2; 3]%positive))).
Proof.
  assert (scene_wf sample_scene 100%positive 50%positive [1; 2; 3]%positive)
    as Hwf by wf_sample.
  split; [exact Hwf|].
  apply (render_twice sample_env sample_scene 100%positive 50%positive
           [1; 2; 3]%positive Hwf).
Defined.

Lemma scene_save_reads_only_sample :
  scene_list sample_scene 100%positive [1; 2; 3]%positive ∧
  ∃ recs settings',
    scene_save sample_env (Some 100%positive) ∅ sample_scene =
      Ok settings' sample_scene ∧
    settings' !! "items" = Some recs ∧ length recs = 3%nat ∧
    (∀ k, k ≠ "items" →
          settings' !! k = (∅ : gmap string (list item_data)) !! k) ∧
    scene_save sample_env (Some 100%positive) settings' sample_scene =
      Ok settings' sample_scene.
Proof.
  assert (scene_list sample_scene 100%positive [1; 2; 3]%positive)
    as Hsl by sl_sample.
  split; [exact Hsl|].
  apply (scene_save_reads_only sample_env sample_scene 100%positive
           [1; 2; 3]%positive ∅ Hsl).
Defined.

Lemma render_after_setorder_faults_sample :
  let it := sample_item 2 12%positive (Some 1%positive) (Some 3%positive) 20 in
  scene_wf sample_scene 100%positive 50%positive [1; 2; 3]%positive ∧
  items sample_scene !! 2%positive = Some it ∧
  obs_source_removed sample_env (source it) = true ∧
  Forall (kept sample_env sample_scene) ([1%positive] ++ [3%positive]) ∧
  ∃ w', obs_sceneitem_setorder (Some 2%positive) ORDER_MOVE_DOWN sample_scene =
          Ok tt w' ∧
        scene_list w' 100%positive [1; 3; 2]%positive ∧
        scene_video_render sample_env (Some 100%positive) w' =
          Crash AssertFailed.
Proof.
  intros it.
  assert (scene_wf sample_scene 100%positive 50%positive [1; 2; 3]%positive)
    as Hwf by wf_sample.
  assert (Forall (kept sample_env sample_scene) ([1%positive] ++ [3%positive]))
    as Hkept by (repeat constructor).
  split_and!; [exact Hwf|reflexivity|reflexivity|exact Hkept|].
  apply (render_after_setorder_faults sample_env sample_scene 100%positive
           50%positive [1%positive] 2%positive 3%positive [] it Hwf eq_refl
           eq_refl Hkept).
Defined.

End MoreSamples.
